(** * QubitDevice: the measurement-and-statistics engine of PennyLane

    A shallow embedding of [pennylane/_qubit_device.py] and of the parts of
    the library it leans on, followed by the properties of the
    specification that were checked against it.

    Conventions of the embedding.
    - A Python call that may raise returns a [result]: [Ok v] when it
      returns [v], [Err e] when it raises the exception class [e].
    - Floating-point numbers (probabilities, eigenvalues) are rationals
      [Qc], as every floating-point number is one; NumPy integers are [Z]
      with the wrap-around of their dtype written out.  The arithmetic of
      the sampling statistics (quotients of counts, [np.mean], [np.var]) and
      the casts to the real dtype of the device round as IEEE 754 does; the
      linear algebra of the analytic path (sums over axes, dot products) and
      the polynomial [p - p ** 2] of a projector are exact.
    - The sample buffer [_samples] is the two-dimensional (shots, wires)
      array: [QubitDevice.capabilities] declares [supports_broadcasting =
      False] and [_get_batch_size] always answers [None], so no batch axis
      is carried.
    - Warnings and the tracker are observability side channels; they do not
      change control flow and are left out. *)

From Stdlib Require Import ZArith QArith Qcanon Qround Qabs Qpower List Lia Lqa Bool Ascii.
From stdpp Require Import base numbers list strings gmap fin_maps pretty.

Local Open Scope Z_scope.

(* ===================================================================== *)
(** * Exceptions *)
(* ===================================================================== *)

Inductive error : Type :=
| WireError
| ValueError
| IndexError
| TypeError
| ZeroDivisionError
| NameError
| AttributeError
| EigvalsUndefinedError
| QuantumFunctionError
| NotImplementedError.

Inductive result (A : Type) : Type :=
| Ok (a : A)
| Err (e : error).

Arguments Ok {A} a.
Arguments Err {A} e.

Definition bind {A B : Type} (c : result A) (k : A -> result B) : result B :=
  match c with
  | Ok a => k a
  | Err e => Err e
  end.

Notation "'let!' x ':=' c 'in' k" := (bind c (fun x => k))
  (at level 10, x pattern, c at level 100, k at level 200).

Definition is_Ok {A : Type} (r : result A) : Prop :=
  match r with Ok _ => True | Err _ => False end.

Definition is_Err {A : Type} (r : result A) : Prop :=
  match r with Ok _ => False | Err _ => True end.

(** [[f(x) for x in l]] where [f] may raise: the first exception wins. *)
Fixpoint mapR {A B : Type} (f : A -> result B) (l : list A) : result (list B) :=
  match l with
  | [] => Ok []
  | x :: l' =>
      let! y := f x in
      let! ys := mapR f l' in
      Ok (y :: ys)
  end.

(** [l[i]] for a non-negative index. *)
Definition getitem {A : Type} (l : list A) (i : nat) : result A :=
  match nth_error l i with
  | Some x => Ok x
  | None => Err IndexError
  end.

(** [l[i]] for a NumPy integer index: negative indices count from the end. *)
Definition getitemZ {A : Type} (l : list A) (i : Z) : result A :=
  let n := Z.of_nat (length l) in
  if (0 <=? i) && (i <? n) then getitem l (Z.to_nat i)
  else if (- n <=? i) && (i <? 0) then getitem l (Z.to_nat (n + i))
  else Err IndexError.

(* ===================================================================== *)
(** * NumPy helpers *)
(* ===================================================================== *)

(** Stable insertion of [(key, payload)] into a list sorted by key. *)
Fixpoint insert_sorted {A : Type} (k : nat) (x : A) (l : list (nat * A)) : list (nat * A) :=
  match l with
  | [] => [(k, x)]
  | (k', y) :: l' =>
      if (k <=? k')%nat then (k, x) :: l
      else (k', y) :: insert_sorted k x l'
  end.

(** Stable sort by key: [sorted(l, key=...)] of Python. *)
Definition sort_by_key {A : Type} (l : list (nat * A)) : list A :=
  map snd (fold_right (fun p acc => insert_sorted (fst p) (snd p) acc) [] l).

(** [np.argsort(xs)].  NumPy's default sort is not stable, but every use
    below sorts pairwise distinct device indices, where all sorting
    algorithms agree. *)
Definition argsort (xs : list nat) : list nat :=
  sort_by_key (combine xs (seq 0 (length xs))).

(** Integer dtypes met in the source. *)
Inductive dtype : Type := int64 | uint32 | int8.

Definition cast (d : dtype) (z : Z) : Z :=
  match d with
  | int64 => (z + 2 ^ 63) mod 2 ^ 64 - 2 ^ 63
  | uint32 => z mod 2 ^ 32
  | int8 => (z + 2 ^ 7) mod 2 ^ 8 - 2 ^ 7
  end.

Definition dtype_bits (d : dtype) : Z :=
  match d with int64 => 64 | uint32 => 32 | int8 => 8 end.

(** [a << k] on arrays of dtype [d]: NumPy yields 0 once [k] reaches the
    width of the type, and wraps otherwise. *)
Definition shl (d : dtype) (a k : Z) : Z :=
  if k <? dtype_bits d then cast d (Z.shiftl a k) else 0.

(** [np.arange(n)] *)
Definition arange (n : nat) : list Z := map Z.of_nat (seq 0 n).

(** [2 ** np.arange(n)[::-1]] in the default integer type. *)
Definition powers_of_two_desc (n : nat) : list Z :=
  rev (map (fun k => cast int64 (2 ^ k)) (arange n)).

(** [row @ powers], a dot product of integer vectors (int64). *)
Definition dotZ (xs ys : list Z) : Z :=
  cast int64 (fold_right Z.add 0 (zip_with Z.mul xs ys)).

(** [xs @ ys] on exact numbers; NumPy raises on a shape mismatch. *)
Definition dotQ (xs ys : list Qc) : result Qc :=
  if (length xs =? length ys)%nat
  then Ok (fold_right Qcplus 0%Qc (zip_with Qcmult xs ys))
  else Err ValueError.

Definition sumQ (xs : list Qc) : Qc := fold_right Qcplus 0%Qc xs.

Definition Qc_of_nat (n : nat) : Qc := Qc_of_Z (Z.of_nat n).

(** The complex dtypes, pairs of [float32] and of [float64] numbers. *)
Inductive complex_dtype : Type := complex64 | complex128.

(** The floating-point formats of NumPy that every platform offers;
    [precision] is the number of bits of the significand and
    [least_exponent] the exponent of the smallest positive number. *)
Inductive float_dtype : Type := float16 | float32 | float64.

Definition precision (d : float_dtype) : Z :=
  match d with float16 => 11 | float32 => 24 | float64 => 53 end.

Definition least_exponent (d : float_dtype) : Z :=
  match d with float16 => -24 | float32 => -149 | float64 => -1074 end.

(** The exponent [e] of the binade of [t > 0]: [2^e <= t < 2^(e+1)]. *)
Definition ilog2 (t : Q) : Z :=
  let e := Z.log2 (Qnum t) - Z.log2 (Zpos (Qden t)) in
  if Qle_bool (2 ^ e) t then e else e - 1.

(** The nearest integer, ties to the even one. *)
Definition round_half_even (t : Q) : Z :=
  let f := Qfloor t in
  match (t - inject_Z f ?= 1 # 2)%Q with
  | Lt => f
  | Gt => f + 1
  | Eq => if Z.even f then f else f + 1
  end.

(** The exponent of the spacing of the numbers of format [d] around
    [a > 0]. *)
Definition quantum (d : float_dtype) (a : Q) : Z :=
  Z.max (ilog2 a - precision d + 1) (least_exponent d).

(** The number of format [d] nearest to [x], ties to even: the rounding of
    every IEEE 754 operation and of a cast to [d].  Every floating-point
    number is a rational, and is kept as one; the infinities that a result
    beyond the largest finite number gives are not represented. *)
Definition roundQ (d : float_dtype) (x : Q) : Q :=
  let a := Qabs x in
  let q := quantum d a in
  let m := round_half_even (a / 2 ^ q) in
  (inject_Z (Z.sgn (Qnum x) * m) * 2 ^ q)%Q.

Definition round_float (d : float_dtype) (x : Qc) : Qc := Q2Qc (roundQ d x).

(** [np.add.reduce] of float64 numbers: every addition rounds.  NumPy adds
    fewer than eight numbers from left to right, as here, and longer vectors
    in blocks; the order shows in the last bits only, and not at all where
    the partial sums are exact, as for the integer samples of a Pauli
    observable. *)
Definition float_sum (xs : list Qc) : Qc :=
  fold_left (fun acc x => round_float float64 (acc + x)%Qc) xs 0%Qc.

(** [np.kron] of two vectors. *)
Definition kron (xs ys : list Qc) : list Qc :=
  flat_map (fun x => map (fun y => (x * y)%Qc) ys) xs.

(** Number of occurrences of [k] in [xs]. *)
Definition occurrences {A : Type} `{EqDecision A} (k : A) (xs : list A) : nat :=
  length (filter (fun x => x = k) xs).

(** [np.unique(xs, return_counts=True)]: the distinct values paired with
    their multiplicities.  NumPy returns them sorted; the order is
    immaterial to the callers, which write each value to its own slot. *)
Definition np_unique {A : Type} `{EqDecision A} (xs : list A) : list (A * nat) :=
  map (fun k => (k, occurrences k xs)) (remove_dups xs).

(** [rows[..., cols]]: select columns of a two-dimensional array. *)
Definition take_columns {A : Type} (rows : list (list A)) (cols : list nat)
  : result (list (list A)) :=
  mapR (fun row => mapR (getitem row) cols) rows.

(** [rows[s1:s2]] for non-negative bounds. *)
Definition slice {A : Type} (rows : list A) (shot_range : nat * nat) : list A :=
  firstn (snd shot_range - fst shot_range)%nat (skipn (fst shot_range) rows).

(** [xs.reshape((-1, width))]: consecutive rows of [width] entries;
    [fuel] bounds the number of rows. *)
Fixpoint chunks {A : Type} (fuel width : nat) (xs : list A) : list (list A) :=
  match fuel with
  | O => []
  | S fuel' => firstn width xs :: chunks fuel' width (skipn width xs)
  end.

Definition reshape_rows {A : Type} (xs : list A) (num_rows width : nat)
  : result (list (list A)) :=
  if (num_rows * width =? length xs)%nat then Ok (chunks num_rows width xs)
  else Err ValueError.

(* ===================================================================== *)
(** * Wires and the Device Wire Registry *)
(* ===================================================================== *)

(** A wire label is an integer or a string. *)
Inductive wire : Type :=
| WInt (z : Z)
| WStr (s : string).

Global Instance wire_eq_dec : EqDecision wire.
Proof. solve_decision. Defined.

(** Modelled from the spec: the [Wires] class is not part of the sources at
    hand.  A Wires collection is an ordered sequence of unique labels; its
    constructor refuses duplicates. *)
Definition Wires (ws : list wire) : result (list wire) :=
  if decide (NoDup ws) then Ok ws else Err WireError.

(** Modelled from the spec: [Wires.unique_wires] gives the wires that occur
    in exactly one of two collections (the axes that are summed out). *)
Definition unique_wires (a b : list wire) : list wire :=
  filter (fun w => w ∉ b) a ++ filter (fun w => w ∉ a) b.

(** Modelled from the spec: [Wires.all_wires], the wires of several
    collections in order of first appearance. *)
Definition all_wires (wss : list (list wire)) : list wire :=
  rev (remove_dups (rev (concat wss))).

(** One entry of a shot vector: [shots] repeated [copies] times. *)
Record ShotTuple : Type := mkShotTuple {
  st_shots : nat;
  st_copies : nat;
}.

(** A gate of the circuit, opaque to this engine. *)
Record operation : Type := mkOperation {
  gate_name : string;
  gate_wires : list wire;
  gate_params : list Qc;
}.

(** What the device kernel has been asked to do; a ghost record kept by the
    embedding to speak about the order of kernel calls. *)
Inductive event : Type :=
| EvApply (operations rotations : list operation)
| EvGenerateSamples
| EvReset.

(** The attributes of a [QubitDevice].  [K] is the state of the device
    kernel (the quantum state and the environment of the subclass). *)
Record QubitDevice (K : Type) : Type := mkQubitDevice {
  wires : list wire;                        (* the Device Wire Registry *)
  shots : option nat;
  _shot_vector : option (list ShotTuple);
  _samples : option (list (list Z));
  _num_executions : nat;
  kernel : K;
  history : list event;                     (* ghost *)
  R_DTYPE : float_dtype;
  C_DTYPE : complex_dtype;
}.

Arguments wires {K} _.
Arguments shots {K} _.
Arguments _shot_vector {K} _.
Arguments _samples {K} _.
Arguments _num_executions {K} _.
Arguments kernel {K} _.
Arguments history {K} _.
Arguments R_DTYPE {K} _.
Arguments C_DTYPE {K} _.
Arguments mkQubitDevice {K} _ _ _ _ _ _ _ _ _.

Definition num_wires {K : Type} (self : QubitDevice K) : nat := length (wires self).

(** Position of a label in the registry. *)
Fixpoint wire_index (w : wire) (registry : list wire) : option nat :=
  match registry with
  | [] => None
  | w' :: registry' =>
      if decide (w = w') then Some O
      else match wire_index w registry' with
           | Some i => Some (S i)
           | None => None
           end
  end.

(** Modelled from the spec: [Device.map_wires] looks up each label in the
    Device Wire Registry and fails if one is absent. *)
Definition map_wires {K : Type} (self : QubitDevice K) (ws : list wire) : result (list nat) :=
  mapR (fun w => match wire_index w (wires self) with
                 | Some i => Ok i
                 | None => Err WireError
                 end) ws.

(** Modelled from the spec: [Device.order_wires] re-orders the given wires
    to registry order, a stable sort by registry position; the position is
    the registry look-up of [map_wires]. *)
Definition order_wires {K : Type} (self : QubitDevice K) (subset_wires : list wire)
  : result (list wire) :=
  let! positions := mapR (fun w => match wire_index w (wires self) with
                                   | Some i => Ok i
                                   | None => Err ValueError
                                   end) subset_wires in
  Ok (sort_by_key (combine positions subset_wires)).

(** [QubitDevice._permute_wires], given [observable.wires]. *)
Definition _permute_wires {K : Type} (self : QubitDevice K) (observable_wires : list wire)
  : result (list wire) :=
  let! ordered_obs_wire_lst := order_wires self observable_wires in
  let! mapped_wires := map_wires self observable_wires in
  let permutation := argsort mapped_wires in
  let! permuted := mapR (fun index => getitem ordered_obs_wire_lst index) permutation in
  Wires permuted.

(** The four steps of the specification, as plain list functions:
    [ordered], [mapped], [perm = argsort(mapped)], and [ordered]
    re-indexed by [perm]. *)
Definition registry_position (registry : list wire) (w : wire) : nat :=
  default O (wire_index w registry).

Definition spec_ordered (registry ws : list wire) : list wire :=
  sort_by_key (combine (map (registry_position registry) ws) ws).

Definition spec_mapped (registry ws : list wire) : list nat :=
  map (registry_position registry) ws.

Definition spec_perm (registry ws : list wire) : list nat :=
  argsort (spec_mapped registry ws).

Definition permute_for_observable (registry ws : list wire) : list wire :=
  map (fun i => nth i (spec_ordered registry ws) (WInt 0)) (spec_perm registry ws).

(* ===================================================================== *)
(** * Basis states: indices and bit vectors *)
(* ===================================================================== *)

(** [QubitDevice.states_to_binary(samples, num_wires, dtype)] *)
Definition states_to_binary (samples : list Z) (num_wires : nat) (d : dtype)
  : list (list Z) :=
  let powers_of_two := map (fun k => shl d 1 k) (arange num_wires) in
  let states_sampled_base_ten :=
    map (fun s => map (fun p => Z.land s p) powers_of_two) samples in
  map (fun row => rev (map (fun x => if 0 <? x then 1 else 0) row))
      states_sampled_base_ten.

(** [itertools.product((0, 1), repeat=n)] *)
Fixpoint product01 (n : nat) : list (list Z) :=
  match n with
  | O => [[]]
  | S n' => map (cons 0) (product01 n') ++ map (cons 1) (product01 n')
  end.

(** [QubitDevice.generate_basis_states(num_wires)].  In the slow branch the
    flattened product is reshaped to [(-1, num_wires)], which NumPy refuses
    when [num_wires] is 0. *)
Definition generate_basis_states (num_wires : nat) : result (list (list Z)) :=
  if (2 <? num_wires)%nat && (num_wires <? 32)%nat then
    let states_base_ten := map (cast uint32) (arange (2 ^ num_wires)) in
    Ok (states_to_binary states_base_ten num_wires uint32)
  else
    if (num_wires =? 0)%nat then Err ValueError
    else Ok (product01 num_wires).

(** The conversion back to an index used throughout the source:
    [bits @ (2 ** np.arange(n)[::-1])]. *)
Definition binary_to_index (bits : list Z) : Z :=
  dotZ bits (powers_of_two_desc (length bits)).

(* ===================================================================== *)
(** * Observables, measurement processes, circuits *)
(* ===================================================================== *)

Inductive ObservableReturnTypes : Type :=
| Sample | Counts | AllCounts | Variance | Expectation | Probability
| State | MidMeasure | VnEntropy | MutualInfo | Shadow | ShadowExpval.

Global Instance ObservableReturnTypes_eq_dec : EqDecision ObservableReturnTypes.
Proof. solve_decision. Defined.

(** A single operator used as an observable.  [op_eigvals] is [None] when
    the operator has no eigenvalue information. *)
Record operator : Type := mkOperator {
  op_name : string;
  op_wires : list wire;
  op_parameters : list (list Z);
  op_eigvals : option (list Qc);
}.

Inductive obs_body : Type :=
| Single (o : operator)
| Tensor (factors : list operator).

(** An observable with the [return_type] attribute that [statistics]
    writes onto it before dispatching. *)
Record observable : Type := mkObservable {
  body : obs_body;
  return_type : option ObservableReturnTypes;
}.

(** [observable.name]: a string for one operator, a list of names (hence
    not a [str]) for a tensor product. *)
Definition obs_name (o : obs_body) : option string :=
  match o with
  | Single op => Some (op_name op)
  | Tensor _ => None
  end.

Definition obs_wires (o : obs_body) : list wire :=
  match o with
  | Single op => op_wires op
  | Tensor factors => all_wires (map op_wires factors)
  end.

(** Modelled from the spec: [observable.eigvals()] is not part of the
    sources at hand; the eigenvalue vector of a tensor product is ordered by
    the factor order as written, the Kronecker product of the factors'
    vectors, and an operator without eigenvalue information raises. *)
Definition eigvals (o : obs_body) : result (list Qc) :=
  match o with
  | Single op =>
      match op_eigvals op with
      | Some e => Ok e
      | None => Err EigvalsUndefinedError
      end
  | Tensor factors =>
      fold_left (fun acc op =>
                   let! a := acc in
                   match op_eigvals op with
                   | Some e => Ok (kron a e)
                   | None => Err EigvalsUndefinedError
                   end)
                factors (Ok [1%Qc])
  end.

(** The measurement processes a circuit can request.  [TransformMP] is a
    [MeasurementTransform]; [CustomMP] is any other [SampleMeasurement] or
    [StateMeasurement], without a return type of its own and with or without
    an observable; [MidMeasureMP] and [BareMP] are measurement processes of
    none of these classes, with return type [MidMeasure] and [None]. *)
Inductive measurement : Type :=
| ExpectationMP (obs : obs_body)
| VarianceMP (obs : obs_body)
| SampleMP (obs : option obs_body) (mwires : list wire)
| CountsMP (obs : option obs_body) (mwires : list wire) (all_outcomes : bool)
| ProbabilityMP (obs : option obs_body) (mwires : list wire)
| StateMP (mwires : list wire)
| VnEntropyMP (mwires : list wire) (log_base : option Qc)
| MutualInfoMP (wires0 wires1 : list wire) (log_base : option Qc)
| ClassicalShadowMP (mwires : list wire) (seed : option Z)
| ShadowExpvalMP (H : obs_body) (mwires : list wire) (seed : option Z) (k : nat)
| TransformMP (method_name : string)
| CustomMP (method_name : string) (is_state_measurement : bool) (obs : option obs_body)
| MidMeasureMP
| BareMP.

(** [m.obs] *)
Definition mp_obs (m : measurement) : option obs_body :=
  match m with
  | ExpectationMP o | VarianceMP o => Some o
  | SampleMP o _ | CountsMP o _ _ | ProbabilityMP o _ | CustomMP _ _ o => o
  | _ => None
  end.

(** [m.wires]: the wires of the observable when there is one. *)
Definition mp_wires (m : measurement) : list wire :=
  match mp_obs m with
  | Some o => obs_wires o
  | None =>
      match m with
      | SampleMP _ ws | CountsMP _ ws _ | ProbabilityMP _ ws | StateMP ws
      | VnEntropyMP ws _ | ClassicalShadowMP ws _ | ShadowExpvalMP _ ws _ _ => ws
      | MutualInfoMP ws0 ws1 _ => all_wires [ws0; ws1]
      | _ => []
      end
  end.

(** [m.return_type] *)
Definition mp_return_type (m : measurement) : option ObservableReturnTypes :=
  match m with
  | ExpectationMP _ => Some Expectation
  | VarianceMP _ => Some Variance
  | SampleMP _ _ => Some Sample
  | CountsMP _ _ all_outcomes => Some (if all_outcomes then AllCounts else Counts)
  | ProbabilityMP _ _ => Some Probability
  | StateMP _ => Some State
  | VnEntropyMP _ _ => Some VnEntropy
  | MutualInfoMP _ _ _ => Some MutualInfo
  | ClassicalShadowMP _ _ => Some Shadow
  | ShadowExpvalMP _ _ _ _ => Some ShadowExpval
  | TransformMP _ | CustomMP _ _ _ => None
  | MidMeasureMP => Some MidMeasure
  | BareMP => None
  end.

Record QuantumScript : Type := mkQuantumScript {
  operations : list operation;
  diagonalizing_gates : list operation;
  measurements : list measurement;
}.

(** The first argument of [QubitDevice.sample], and of a device method
    that computes a custom measurement: an observable (carrying the return
    type written by the statistics loops) or the measurement process
    itself. *)
Inductive sample_target : Type :=
| OnObservable (o : observable)
| OnMeasurement (m : measurement).

Definition target_wires (t : sample_target) : list wire :=
  match t with
  | OnObservable o => obs_wires (body o)
  | OnMeasurement m => mp_wires m
  end.

Definition target_return_type (t : sample_target) : option ObservableReturnTypes :=
  match t with
  | OnObservable o => return_type o
  | OnMeasurement m => mp_return_type m
  end.

(* ===================================================================== *)
(** * Results *)
(* ===================================================================== *)

(** Keys of a counts dictionary: bit strings, or eigenvalues; [KNone] is
    the key [None]. *)
Inductive outcome : Type :=
| KStr (s : string)
| KNum (q : Qc)
| KNone.

Global Instance outcome_eq_dec : EqDecision outcome.
Proof. solve_decision. Defined.

Global Instance outcome_countable : Countable outcome.
Proof.
  refine (inj_countable'
            (fun o => match o with
                      | KStr s => inl s
                      | KNum q => inr (Some q)
                      | KNone => inr None
                      end)
            (fun x => match x with
                      | inl s => KStr s
                      | inr (Some q) => KNum q
                      | inr None => KNone
                      end) _).
  intros []; reflexivity.
Defined.

(** Numeric arrays of rank 0, 1 and 2. *)
Inductive ndarray : Type :=
| Scalar (x : Qc)
| Vector (xs : list Qc)
| Matrix (xss : list (list Qc)).

(** What [QubitDevice.sample] can return; [NoSamples] is the [None] that
    is the buffer of a device that has not sampled. *)
Inductive sample_out : Type :=
| Samples1 (vals : list Qc)               (* eigenvalues, shape (shots,) *)
| Samples2 (rows : list (list Z))         (* raw bits, shape (shots, wires) *)
| BinnedEig (m : list (list Qc))          (* shape (bin_size, num_bins) *)
| BinnedRaw (t : list (list (list Z)))    (* shape (wires, bin_size, num_bins) *)
| CountsDict (d : gmap outcome Z)
| CountsList (ds : list (gmap outcome Z))
| NoSamples.

(** A result of one measurement; [O] stands for the objects produced by
    collaborators outside this engine (states, density matrices, entropies,
    results of custom measurement processes). *)
Inductive value (O : Type) : Type :=
| VArr (a : ndarray)
| VSample (s : sample_out)
| VShadow (bits recipes : list (list Z))
| VOpaque (o : O).

Arguments VArr {O} a.
Arguments VSample {O} s.
Arguments VShadow {O} bits recipes.
Arguments VOpaque {O} o.

(* ===================================================================== *)
(** * The collaborators outside this engine *)
(* ===================================================================== *)

(** The abstract methods of the device subclass, and the library functions
    the engine calls: the kernel that applies gates, [numpy.random],
    [qml.math], the shadow post-processing. *)
Class Kernel (K O : Type) : Type := {
  (* the device subclass *)
  check_validity : list operation -> list measurement -> result unit;
  kernel_apply : list operation -> list operation -> K -> result K;
  kernel_reset : K -> K;
  kernel_probability : K -> result (list Qc);
  returns_state : bool;
  kernel_state : K -> option O;
  (* [getattr(self, method_name, False)], called with the observable or
     the measurement process as its first argument *)
  device_method :
    string -> option (sample_target -> QubitDevice K -> option (nat * nat) ->
                      option nat -> result O);
  (* qml.math, with the keyword argument [c_dtype] *)
  reduced_dm : O -> list nat -> complex_dtype -> result O;
  math_vn_entropy : O -> list wire -> complex_dtype -> option Qc -> result O;
  math_mutual_info : O -> list wire -> list wire -> complex_dtype -> option Qc -> result O;
  (* np.asarray(result, dtype=...) on the objects of the collaborators *)
  asarray_real : O -> float_dtype -> O;
  asarray_complex : O -> complex_dtype -> O;
  (* numpy.random: the global generator lives in the environment [K] *)
  random_choice : nat -> nat -> list Qc -> K -> result (list Z) * K;
  os_entropy : K -> Z;
  (* np.random.RandomState(seed).randint(low, high, size=(rows, cols)) *)
  RandomState_randint : Z -> Z -> Z -> nat -> nat -> list (list Z);
  (* operators and shadows *)
  compute_diagonalizing_gates : string -> wire -> list operation;
  shadow_expval_estimate :
    list (list Z) -> list (list Z) -> list wire -> obs_body -> nat -> result O;
  (* custom measurement processes: a transform is evaluated by the device
     method of its name when there is one, else by its own [process] *)
  transform_process : string -> QuantumScript -> QubitDevice K -> result O;
  process_state : measurement -> O -> list wire -> result O;
  process_samples :
    measurement -> list (list Z) -> list wire -> option (nat * nat) -> option nat ->
    result O;
  (* NumPy shape bookkeeping on results: [squeeze], and the transposes and
     unstacking that [shot_vec_statistics] applies to the results of one
     entry of the shot vector *)
  np_squeeze : value O -> value O;
  shot_vector_layout : QuantumScript -> ShotTuple -> list (value O) -> result (list (value O));
}.

(* ===================================================================== *)
(** * Probabilities *)
(* ===================================================================== *)

(** [array[i] = x] for a NumPy integer index. *)
Definition setitemZ {A : Type} (l : list A) (i : Z) (x : A) : result (list A) :=
  let n := Z.of_nat (length l) in
  if (0 <=? i) && (i <? n) then Ok (<[Z.to_nat i := x]> l)
  else if (- n <=? i) && (i <? 0) then Ok (<[Z.to_nat (n + i) := x]> l)
  else Err IndexError.

(** [np.sum(prob, axis=inactive)] followed by flattening, for a tensor of
    shape [[2] * n] kept as its flat row-major list.  [axis] is the number
    of the leading axis of [prob]. *)
Fixpoint reduce_sum (n axis : nat) (inactive : list nat) (prob : list Qc) : list Qc :=
  match n with
  | O => prob
  | S n' =>
      let half := (length prob / 2)%nat in
      let lo := reduce_sum n' (S axis) inactive (firstn half prob) in
      let hi := reduce_sum n' (S axis) inactive (skipn half prob) in
      if decide (axis ∈ inactive) then zip_with Qcplus lo hi else lo ++ hi
  end.

(** [QubitDevice.marginal_prob(prob, wires)] *)
Definition marginal_prob {K : Type} (self : QubitDevice K) (prob : list Qc)
    (wires_arg : option (list wire)) : result (list Qc) :=
  match wires_arg with
  | None => Ok prob
  | Some ws =>
      let! ws := Wires ws in
      let inactive_wires := unique_wires (wires self) ws in
      let! device_wires := map_wires self ws in
      let! inactive_device_wires := map_wires self inactive_wires in
      if negb (length prob =? 2 ^ num_wires self)%nat then Err ValueError else
      let prob := reduce_sum (num_wires self) 0 inactive_device_wires prob in
      let num_wires := length device_wires in
      let! basis_states := generate_basis_states num_wires in
      let! basis_states := take_columns basis_states (argsort (argsort device_wires)) in
      let powers_of_two := powers_of_two_desc (length device_wires) in
      let perm := map (fun row => dotZ row powers_of_two) basis_states in
      mapR (getitemZ prob) perm
  end.

(** Modelled from the spec: [analytic_probability] is abstract in
    [QubitDevice]; section 4.5 gives it as the device-supplied full-system
    probability vector, marginalized with [marginal_prob]. *)
Definition analytic_probability {K O : Type} `{!Kernel K O} (self : QubitDevice K)
    (wires_arg : option (list wire)) : result (list Qc) :=
  let! prob := kernel_probability (kernel self) in
  marginal_prob self prob wires_arg.

(** [count / n] of an integer by an integer: the quotient, rounded to
    float64. *)
Definition true_divide (count n : nat) : Qc :=
  round_float float64 (Qc_of_nat count / Qc_of_nat n)%Qc.

(** [QubitDevice._count_unbinned_samples(indices, None, dim)] *)
Definition _count_unbinned_samples (indices : list Z) (dim : nat) : result (list Qc) :=
  let prob := repeat 0%Qc dim in
  fold_left
    (fun acc entry =>
       let! prob := acc in
       setitemZ prob (fst entry) (true_divide (snd entry) (length indices)))
    (np_unique indices) (Ok prob).

(** [prob[state, b] = x] on a two-dimensional array. *)
Definition setitem2 (prob : list (list Qc)) (state : Z) (b : nat) (x : Qc)
  : result (list (list Qc)) :=
  let! row := getitemZ prob state in
  if (b <? length row)%nat then setitemZ prob state (<[b := x]> row)
  else Err IndexError.

(** [QubitDevice._count_binned_samples(indices, None, dim, bin_size, num_bins)] *)
Definition _count_binned_samples (indices : list Z) (dim bin_size num_bins : nat)
  : result (list (list Qc)) :=
  let prob := repeat (repeat 0%Qc num_bins) dim in
  let! indices := reshape_rows indices num_bins bin_size in
  fold_left
    (fun acc entry =>
       let b := fst entry in
       let idx := snd entry in
       fold_left
         (fun acc' uc =>
            let! prob := acc' in
            setitem2 prob (fst uc) b (true_divide (snd uc) bin_size))
         (np_unique idx) acc)
    (combine (seq 0 (length indices)) indices) (Ok prob).

(** [np.asarray(a, dtype=d)] on an array of floating-point numbers. *)
Definition asarray (a : ndarray) (d : float_dtype) : ndarray :=
  match a with
  | Scalar x => Scalar (round_float d x)
  | Vector xs => Vector (map (round_float d) xs)
  | Matrix xss => Matrix (map (map (round_float d)) xss)
  end.

(** [wires or self.wires]: [None] and an empty collection are falsy. *)
Definition wires_or (wires_arg : option (list wire)) (registry : list wire) : list wire :=
  match wires_arg with
  | Some (w :: ws) => w :: ws
  | Some [] | None => registry
  end.

(** The rows of [self._samples] selected by [shot_range]. *)
Definition selected_samples {K : Type} (self : QubitDevice K)
    (shot_range : option (nat * nat)) : result (list (list Z)) :=
  match _samples self with
  | None => Err TypeError
  | Some rows =>
      match shot_range with
      | None => Ok rows
      | Some r => Ok (slice rows r)
      end
  end.

(** [QubitDevice.estimate_probability(wires, shot_range, bin_size)] *)
Definition estimate_probability {K : Type} (self : QubitDevice K)
    (wires_arg : option (list wire)) (shot_range : option (nat * nat))
    (bin_size : option nat) : result ndarray :=
  let ws := wires_or wires_arg (wires self) in
  let! ws := Wires ws in
  let! device_wires := map_wires self ws in
  let num_wires := length device_wires in
  let! rows := selected_samples self shot_range in
  let! samples := take_columns rows device_wires in
  let powers_of_two := powers_of_two_desc num_wires in
  let indices := map (fun row => dotZ row powers_of_two) samples in
  let dim := (2 ^ num_wires)%nat in
  match bin_size with
  | Some bin_size =>
      if (bin_size =? 0)%nat then Err ZeroDivisionError else
      let num_bins := (length samples / bin_size)%nat in
      let! prob := _count_binned_samples indices dim bin_size num_bins in
      Ok (asarray (Matrix prob) (R_DTYPE self))
  | None =>
      let! prob := _count_unbinned_samples indices dim in
      Ok (asarray (Vector prob) (R_DTYPE self))
  end.

(** [QubitDevice.probability(wires, shot_range, bin_size)] *)
Definition probability {K O : Type} `{!Kernel K O} (self : QubitDevice K)
    (wires_arg : option (list wire)) (shot_range : option (nat * nat))
    (bin_size : option nat) : result ndarray :=
  let ws := wires_or wires_arg (wires self) in
  match shots self with
  | None =>
      let! prob := analytic_probability self (Some ws) in
      Ok (Vector prob)
  | Some _ => estimate_probability self (Some ws) shot_range bin_size
  end.

(* ===================================================================== *)
(** * Samples and counts *)
(* ===================================================================== *)

(** Eigenvalue samples (one number per shot) or raw samples (one row of
    bits per shot); [Missing] is the buffer [None]. *)
Inductive samples_array : Type :=
| Eig (vals : list Qc)
| Raw (rows : list (list Z))
| Missing.

(** [str(s.item())] of an integer entry. *)
Definition py_str (z : Z) : string := pretty z.

(** ["".join([str(s.item()) for s in sample])] *)
Definition row_to_string (row : list Z) : string :=
  fold_right (fun s acc => py_str s +:+ acc) "" row.

(** [a.reshape(...)] with one inferred dimension: [known] is the product of
    the given dimensions, and the inferred one is returned. *)
Definition infer_dim (size known : nat) : result nat :=
  if (known =? 0)%nat then Err ValueError
  else if (size mod known =? 0)%nat then Ok (size / known)%nat
  else Err ValueError.

(** [xs.reshape((-1, width))] *)
Definition reshape_infer_rows {A : Type} (xs : list A) (width : nat) : result (list (list A)) :=
  let! n := infer_dim (length xs) width in
  Ok (chunks n width xs).

(** [xs.reshape((num_rows, -1))] *)
Definition reshape_infer_cols {A : Type} (xs : list A) (num_rows : nat) : result (list (list A)) :=
  let! width := infer_dim (length xs) num_rows in
  Ok (chunks num_rows width xs).

(** [rows.T] of a rectangular two-dimensional array. *)
Definition transpose (rows : list (list Z)) : list (list Z) :=
  match rows with
  | [] => []
  | r :: _ => map (fun c => map (fun row => nth c row 0) rows) (seq 0 (length r))
  end.

(** [QubitDevice._samples_to_counts(samples, obs, num_wires)] *)
Definition _samples_to_counts (samples : samples_array) (obs : sample_target)
    (num_wires : nat) : result (gmap outcome Z) :=
  let! so :=
    match obs with
    | OnMeasurement (CountsMP _ _ all_outcomes) =>
        match samples with
        | Raw rows =>
            let samples := map (fun sample => KStr (row_to_string sample)) rows in
            if all_outcomes then
              let! outcomes := generate_basis_states num_wires in
              Ok (samples, map (fun outcome => KStr (row_to_string outcome)) outcomes)
            else Ok (samples, [])
        | Eig _ | Missing => Err TypeError
        end
    | _ =>
        let! outcomes :=
          if decide (target_return_type obs = Some AllCounts) then
            match obs with
            | OnObservable o => eigvals (body o)
            | OnMeasurement _ => Err TypeError
            end
          else Ok [] in
        let samples :=
          match samples with
          | Eig vals => map KNum vals
          | Raw rows => map (fun b => KNum (Qc_of_Z b)) (concat rows)
          | Missing => [KNone]
          end in
        Ok (samples, map KNum outcomes)
    end in
  let outcome_dict : gmap outcome Z :=
    fold_left (fun d k => <[k := 0]> d) (snd so) ∅ in
  Ok (fold_left (fun d sc => <[fst sc := Z.of_nat (snd sc)]> d)
                (np_unique (fst so)) outcome_dict).

Definition is_pauli_name (name : option string) : bool :=
  match name with
  | Some n => bool_decide (n ∈ ["PauliX"; "PauliY"; "PauliZ"; "Hadamard"])
  | None => false
  end.

(** [self._samples], or the rows of it in [shot_range]. *)
Definition sub_samples_of {K : Type} (self : QubitDevice K)
    (shot_range : option (nat * nat)) : result (option (list (list Z))) :=
  match shot_range with
  | None => Ok (_samples self)
  | Some r =>
      match _samples self with
      | None => Err TypeError
      | Some rows => Ok (Some (slice rows r))
      end
  end.

(** Subscripting [None] raises. *)
Definition subscriptable {A : Type} (a : option A) : result A :=
  match a with
  | Some x => Ok x
  | None => Err TypeError
  end.

(** [QubitDevice.sample(observable, shot_range, bin_size, counts)] *)
Definition sample {K : Type} (self : QubitDevice K) (observable : sample_target)
    (shot_range : option (nat * nat)) (bin_size : option nat) (counts : bool)
  : result sample_out :=
  let! device_wires := map_wires self (target_wires observable) in
  let! sub_samples := sub_samples_of self shot_range in
  let! samples :=
    match observable with
    | OnObservable o =>
        if is_pauli_name (obs_name (body o)) then
          let! w0 := getitem device_wires 0 in
          let! sub_samples := subscriptable sub_samples in
          let! column := mapR (fun row => getitem row w0) sub_samples in
          Ok (Eig (map (fun b => Qc_of_Z (cast int64 (1 - 2 * b))) column))
        else
          let! sub_samples := subscriptable sub_samples in
          let! samples := take_columns sub_samples device_wires in
          let powers_of_two := powers_of_two_desc (length device_wires) in
          let indices := map (fun row => dotZ row powers_of_two) samples in
          let! eig := eigvals (body o) in
          let! vals := mapR (getitemZ eig) indices in
          Ok (Eig vals)
    | OnMeasurement m =>
        if negb (length (mp_wires m) =? 0)%nat then
          let! sub_samples := subscriptable sub_samples in
          let! samples := take_columns sub_samples device_wires in
          Ok (Raw samples)
        else
          Ok (match sub_samples with
              | Some rows => Raw rows
              | None => Missing
              end)
    end in
  let num_wires :=
    if (0 <? length device_wires)%nat then length device_wires else num_wires self in
  match bin_size with
  | None =>
      if counts then
        let! d := _samples_to_counts samples observable num_wires in
        Ok (CountsDict d)
      else
        Ok (match samples with
            | Eig vals => Samples1 vals
            | Raw rows => Samples2 rows
            | Missing => NoSamples
            end)
  | Some bin_size =>
      if counts then
        match samples with
        | Raw rows =>
            let! flat := reshape_infer_rows (concat rows) num_wires in
            let! bins := reshape_infer_rows flat bin_size in
            let! ds := mapR (fun bin_sample =>
                               _samples_to_counts (Raw bin_sample) observable num_wires)
                            bins in
            Ok (CountsList ds)
        | Eig vals =>
            let! bins := reshape_infer_rows vals bin_size in
            let! ds := mapR (fun bin_sample =>
                               _samples_to_counts (Eig bin_sample) observable num_wires)
                            bins in
            Ok (CountsList ds)
        | Missing => Err AttributeError
        end
      else
        match samples with
        | Raw rows =>
            let flat := concat (transpose rows) in
            let! width := infer_dim (length flat) (num_wires * bin_size) in
            let! planes := reshape_infer_rows flat (bin_size * width) in
            Ok (BinnedRaw (map (fun plane => chunks bin_size width plane) planes))
        | Eig vals =>
            let! m := reshape_infer_cols vals bin_size in
            Ok (BinnedEig m)
        | Missing => Err AttributeError
        end
  end.

(* ===================================================================== *)
(** * Expectation values and variances *)
(* ===================================================================== *)

(** [int("".join(str(i) for i in bits), 2)] for the basis state of a
    projector, which its constructor restricts to the digits 0 and 1. *)
Fixpoint parse_binary_digits (acc : nat) (bits : list Z) : result nat :=
  match bits with
  | [] => Ok acc
  | b :: bits' =>
      if b =? 0 then parse_binary_digits (2 * acc) bits'
      else if b =? 1 then parse_binary_digits (2 * acc + 1) bits'
      else Err ValueError
  end.

Definition parse_binary (bits : list Z) : result nat :=
  match bits with
  | [] => Err ValueError
  | _ => parse_binary_digits 0 bits
  end.

(** [probs[idx]] *)
Definition index_array (a : ndarray) (idx : nat) : result ndarray :=
  match a with
  | Scalar _ => Err IndexError
  | Vector xs => let! x := getitem xs idx in Ok (Scalar x)
  | Matrix xss => let! row := getitem xss idx in Ok (Vector row)
  end.

(** [np.mean] and [np.var] of a vector, in float64: the sum divided by the
    number of entries and, for the variance, the same of the squared
    deviations from the mean, every operation rounding.  (NumPy answers nan
    on an empty vector; division by zero answers 0 here.) *)
Definition mean (xs : list Qc) : Qc :=
  round_float float64 (float_sum xs / Qc_of_nat (length xs))%Qc.

Definition variance (xs : list Qc) : Qc :=
  let arrmean := mean xs in
  let x := map (fun a => round_float float64 (a - arrmean)%Qc) xs in
  let x := map (fun a => round_float float64 (a * a)%Qc) x in
  round_float float64 (float_sum x / Qc_of_nat (length xs))%Qc.

(** The columns of a matrix of [num_cols] columns. *)
Definition columns (m : list (list Qc)) : list (list Qc) :=
  match m with
  | [] => []
  | r :: _ => map (fun c => map (fun row => nth c row 0%Qc) m) (seq 0 (length r))
  end.

(** [np.squeeze] of a vector of statistics. *)
Definition squeeze_vector (xs : list Qc) : ndarray :=
  match xs with
  | [x] => Scalar x
  | _ => Vector xs
  end.

(** The statistic [stat] of the samples along the shots axis, squeezed. *)
Definition reduce_samples (stat : list Qc -> Qc) (s : sample_out) : result ndarray :=
  match s with
  | Samples1 vals => Ok (Scalar (stat vals))
  | BinnedEig m => Ok (squeeze_vector (map stat (columns m)))
  | _ => Err TypeError
  end.

Definition projector_index (o : obs_body) : result nat :=
  match o with
  | Single op =>
      let! basis_state := getitem (op_parameters op) 0 in
      parse_binary basis_state
  | Tensor _ => Err TypeError
  end.

(** [QubitDevice.expval(observable, shot_range, bin_size)] *)
Definition expval {K O : Type} `{!Kernel K O} (self : QubitDevice K)
    (observable : observable) (shot_range : option (nat * nat))
    (bin_size : option nat) : result ndarray :=
  if decide (obs_name (body observable) = Some "Projector") then
    let! idx := projector_index (body observable) in
    let! probs := probability self (Some (obs_wires (body observable)))
                              shot_range bin_size in
    index_array probs idx
  else
    match shots self with
    | None =>
        let! eig := eigvals (body observable) in
        let eig := map (round_float (R_DTYPE self)) eig in
        let! permuted_wires := _permute_wires self (obs_wires (body observable)) in
        let! prob := probability self (Some permuted_wires) None None in
        match prob with
        | Vector prob => let! e := dotQ prob eig in Ok (Scalar e)
        | _ => Err TypeError
        end
    | Some _ =>
        let! samples := sample self (OnObservable observable) shot_range bin_size false in
        reduce_samples mean samples
    end.

(** [QubitDevice.var(observable, shot_range, bin_size)] *)
Definition var {K O : Type} `{!Kernel K O} (self : QubitDevice K)
    (observable : observable) (shot_range : option (nat * nat))
    (bin_size : option nat) : result ndarray :=
  if decide (obs_name (body observable) = Some "Projector") then
    let! idx := projector_index (body observable) in
    let! probs := probability self (Some (obs_wires (body observable)))
                              shot_range bin_size in
    let! p := index_array probs idx in
    match p with
    | Scalar x => Ok (Scalar (x - x * x)%Qc)
    | Vector xs => Ok (Vector (map (fun x => (x - x * x)%Qc) xs))
    | Matrix _ => Err TypeError
    end
  else
    match shots self with
    | None =>
        let! eig := eigvals (body observable) in
        let eig := map (round_float (R_DTYPE self)) eig in
        let! permuted_wires := _permute_wires self (obs_wires (body observable)) in
        let! prob := probability self (Some permuted_wires) None None in
        match prob with
        | Vector prob =>
            let! e2 := dotQ prob (map (fun x => (x * x)%Qc) eig) in
            let! e := dotQ prob eig in
            Ok (Scalar (e2 - e * e)%Qc)
        | _ => Err TypeError
        end
    | Some _ =>
        let! samples := sample self (OnObservable observable) shot_range bin_size false in
        reduce_samples variance samples
    end.

(* ===================================================================== *)
(** * The device as a state machine *)
(* ===================================================================== *)

(** A method that may mutate the device and may raise: the device after the
    call is returned in both cases. *)
Definition M (K A : Type) : Type := QubitDevice K -> result A * QubitDevice K.

Definition ret {K A : Type} (a : A) : M K A := fun self => (Ok a, self).

Definition raise {K A : Type} (e : error) : M K A := fun self => (Err e, self).

Definition bindM {K A B : Type} (c : M K A) (k : A -> M K B) : M K B :=
  fun self =>
    match c self with
    | (Ok a, self') => k a self'
    | (Err e, self') => (Err e, self')
    end.

Notation "'do!' x ':=' c 'in' k" := (bindM c (fun x => k))
  (at level 10, x pattern, c at level 100, k at level 200).

(** A read-only method. *)
Definition read {K A : Type} (f : QubitDevice K -> result A) : M K A :=
  fun self => (f self, self).

Definition log {K : Type} (e : event) : M K unit :=
  fun self =>
    (Ok tt, mkQubitDevice (wires self) (shots self) (_shot_vector self)
                          (_samples self) (_num_executions self) (kernel self)
                          (history self ++ [e]) (R_DTYPE self) (C_DTYPE self)).

Definition set_kernel {K : Type} (k : K) : M K unit :=
  fun self =>
    (Ok tt, mkQubitDevice (wires self) (shots self) (_shot_vector self)
                          (_samples self) (_num_executions self) k (history self)
                          (R_DTYPE self) (C_DTYPE self)).

Definition set_samples {K : Type} (s : option (list (list Z))) : M K unit :=
  fun self =>
    (Ok tt, mkQubitDevice (wires self) (shots self) (_shot_vector self)
                          s (_num_executions self) (kernel self) (history self)
                          (R_DTYPE self) (C_DTYPE self)).

Definition set_shot_attributes {K : Type} (n : option nat) (v : option (list ShotTuple))
  : M K unit :=
  fun self =>
    (Ok tt, mkQubitDevice (wires self) n v (_samples self) (_num_executions self)
                          (kernel self) (history self) (R_DTYPE self) (C_DTYPE self)).

Definition increment_executions {K : Type} : M K unit :=
  fun self =>
    (Ok tt, mkQubitDevice (wires self) (shots self) (_shot_vector self)
                          (_samples self) (S (_num_executions self)) (kernel self)
                          (history self) (R_DTYPE self) (C_DTYPE self)).

(** [for x in l: acc = body(acc, x)] *)
Fixpoint forM {K A B : Type} (body : B -> A -> M K B) (l : list A) (acc : B) : M K B :=
  match l with
  | [] => ret acc
  | x :: l' => do! acc' := body acc x in forM body l' acc'
  end.

Section Device.

Context {K O : Type} `{!Kernel K O}.

(** [self.reset()]: the samples are dropped and the kernel starts afresh. *)
Definition reset : M K unit :=
  do! _ := log EvReset in
  do! _ := set_samples None in
  fun self => set_kernel (kernel_reset (kernel self)) self.

(** [self.apply(operations, rotations=...)], the abstract method. *)
Definition apply (ops rotations : list operation) : M K unit :=
  do! _ := log (EvApply ops rotations) in
  do! k := read (fun self => kernel_apply ops rotations (kernel self)) in
  set_kernel k.

(** [QubitDevice.sample_basis_states(number_of_states, state_probability)] *)
Definition sample_basis_states (number_of_states : nat) (state_probability : list Qc)
  : M K (list Z) :=
  fun self =>
    match shots self with
    | None => (Err QuantumFunctionError, self)
    | Some shots =>
        let '(r, k) := random_choice number_of_states shots state_probability
                                     (kernel self) in
        match set_kernel k self with
        | (_, self') => (r, self')
        end
    end.

(** [QubitDevice.generate_samples()] *)
Definition generate_samples : M K (list (list Z)) :=
  do! _ := log EvGenerateSamples in
  do! number_of_states := read (fun self => Ok (2 ^ num_wires self)%nat) in
  do! rotated_prob := read (fun self => analytic_probability self None) in
  do! samples := sample_basis_states number_of_states rotated_prob in
  read (fun self => Ok (states_to_binary samples (num_wires self) int64)).

(** Modelled from the spec: [set_shots(self, shots=1)] is not part of the
    sources at hand; the block runs with a single-shot budget, and the shot
    attributes are restored when it is left, also by an exception. *)
Definition set_shots {A : Type} (n : nat) (block : M K A) : M K A :=
  fun self =>
    let original_shots := shots self in
    let original_shot_vector := _shot_vector self in
    match set_shot_attributes (Some n) None self with
    | (_, self1) =>
        match block self1 with
        | (r, self2) =>
            match set_shot_attributes original_shots original_shot_vector self2 with
            | (_, self3) => (r, self3)
            end
        end
    end.

(** [QubitDevice.access_state(wires)] *)
Definition density_matrix (self : QubitDevice K) (ws : list wire) : result O :=
  match kernel_state (kernel self) with
  | None => Err NotImplementedError
  | Some state =>
      let! ws := map_wires self ws in
      reduced_dm state ws (C_DTYPE self)
  end.

Definition access_state (self : QubitDevice K) (wires_arg : option (list wire))
  : result O :=
  if negb returns_state then Err QuantumFunctionError else
  match kernel_state (kernel self) with
  | None => Err QuantumFunctionError
  | Some state =>
      match wires_arg with
      | Some (w :: ws) => density_matrix self (w :: ws)
      | Some [] | None => Ok state
      end
  end.

(** [QubitDevice.vn_entropy(wires, log_base)] *)
Definition vn_entropy (self : QubitDevice K) (ws : list wire) (log_base : option Qc)
  : result O :=
  match access_state self None with
  | Err QuantumFunctionError => Err NotImplementedError
  | Err e => Err e
  | Ok state => math_vn_entropy state ws (C_DTYPE self) log_base
  end.

(** [QubitDevice.mutual_info(wires0, wires1, log_base)] *)
Definition mutual_info (self : QubitDevice K) (ws0 ws1 : list wire)
    (log_base : option Qc) : result O :=
  match access_state self None with
  | Err QuantumFunctionError => Err NotImplementedError
  | Err e => Err e
  | Ok state => math_mutual_info state ws0 ws1 (C_DTYPE self) log_base
  end.

(** The Pauli observables of the shadow protocol, by recipe. *)
Definition obs_list : list string := ["PauliX"; "PauliY"; "PauliZ"].

(** [QubitDevice.classical_shadow(obs, circuit)]; the result is the pair of
    the [bits] and the [recipes], each of shape (shots, wires). *)
Definition classical_shadow (ws : list wire) (seed : option Z)
    (circuit : option QuantumScript) : M K (list (list Z) * list (list Z)) :=
  match circuit with
  | None => raise ValueError
  | Some circuit =>
      do! n_snapshots := read (fun self => Ok (shots self)) in
      set_shots 1
        (let n_qubits := length ws in
         do! mapped_wires := read (fun self => map_wires self ws) in
         do! seed := read (fun self => Ok (match seed with
                                           | Some s => s
                                           | None => os_entropy (kernel self)
                                           end)) in
         do! n_snapshots := read (fun _ => match n_snapshots with
                                           | Some n => Ok n
                                           | None => Err TypeError
                                           end) in
         let recipes := RandomState_randint seed 0 3 n_snapshots n_qubits in
         do! outcomes :=
           forM (fun outcomes t =>
                   do! rotations :=
                     read (fun _ =>
                       let! recipe := getitem recipes t in
                       let! gates :=
                         mapR (fun wire_idx_wire =>
                                 let! r := getitem recipe (fst wire_idx_wire) in
                                 let! name := getitemZ obs_list r in
                                 Ok (compute_diagonalizing_gates name (snd wire_idx_wire)))
                              (combine (seq 0 (length ws)) ws) in
                       Ok (concat gates)) in
                   do! _ := reset in
                   do! _ := apply (operations circuit)
                                  (diagonalizing_gates circuit ++ rotations) in
                   do! samples := generate_samples in
                   do! row := read (fun _ =>
                                      let! first := getitem samples 0 in
                                      mapR (getitem first) mapped_wires) in
                   ret (outcomes ++ [row]))
                (seq 0 n_snapshots) [] in
         ret (map (map (cast int8)) outcomes, map (map (cast int8)) recipes))
  end.

(** [QubitDevice.shadow_expval(obs, circuit)] *)
Definition shadow_expval (H : obs_body) (ws : list wire) (seed : option Z) (k : nat)
    (circuit : option QuantumScript) : M K O :=
  do! br := classical_shadow ws seed circuit in
  read (fun _ => shadow_expval_estimate (fst br) (snd br) ws H k).

(** [QubitDevice._measure(measurement, shot_range, bin_size)] for the
    measurement [CustomMP method_name is_state_measurement obs]. *)
Definition _measure (self : QubitDevice K) (method_name : string)
    (is_state_measurement : bool) (obs : option obs_body)
    (shot_range : option (nat * nat)) (bin_size : option nat) : result O :=
  let measurement := CustomMP method_name is_state_measurement obs in
  match device_method method_name with
  | Some method => method (OnMeasurement measurement) self shot_range bin_size
  | None =>
      let state := match kernel_state (kernel self) with
                   | Some s => Ok s
                   | None => Err NotImplementedError
                   end in
      match shots self with
      | None =>
          if is_state_measurement then
            let! s := state in process_state measurement s (wires self)
          else Err ValueError
      | Some _ =>
          if is_state_measurement then
            let! s := state in process_state measurement s (wires self)
          else
            let! samples := subscriptable (_samples self) in
            process_samples measurement samples (wires self) shot_range bin_size
      end
  end.

(** [self.wires.labels != tuple(range(self.num_wires))] *)
Definition custom_wire_labels (self : QubitDevice K) : bool :=
  negb (bool_decide (wires self = map WInt (arange (num_wires self)))).

(** The value that [obs] is bound to in the statistics loops: the
    observable of the measurement, stamped with its return type, or the
    measurement process itself. *)
Definition obs_of (m : measurement) : sample_target :=
  match mp_obs m with
  | Some o => OnObservable (mkObservable o (mp_return_type m))
  | None => OnMeasurement m
  end.

(** [isinstance(result, np.ndarray)]: everything except the dictionaries of
    counts. *)
Definition is_ndarray (v : value O) : bool :=
  match v with
  | VSample (CountsDict _) | VSample (CountsList _) => false
  | _ => true
  end.

(** The measurements whose result [_statistics_new] casts to the real
    dtype of the device. *)
Definition is_float_result (m : measurement) : bool :=
  match m with
  | ExpectationMP _ | VarianceMP _ | ProbabilityMP _ _ | VnEntropyMP _ _
  | MutualInfoMP _ _ _ | ShadowExpvalMP _ _ _ _ => true
  | _ => false
  end.

(** [self._asarray(result, dtype=d)] on the result of such a measurement:
    an array of numbers, or an object of a collaborator. *)
Definition asarray_value (v : value O) (d : float_dtype) : value O :=
  match v with
  | VArr a => VArr (asarray a d)
  | VOpaque o => VOpaque (asarray_real o d)
  | VSample _ | VShadow _ _ => v
  end.

(** One turn of the loop of [_statistics_new]: the value bound to [result]
    once the measurement [m] has been dispatched.  [previous] is the
    binding left by the earlier turns, which a measurement of no known
    class leaves in place. *)
Definition _statistics_new_dispatch (circuit : QuantumScript)
    (shot_range : option (nat * nat)) (bin_size : option nat)
    (m : measurement) (previous : option (value O)) : M K (value O) :=
  let measurements := measurements circuit in
  let obs := obs_of m in
  match m with
  | ExpectationMP o =>
      read (fun self =>
              let! r := expval self (mkObservable o (mp_return_type m)) shot_range bin_size in
              Ok (VArr r))
  | VarianceMP o =>
      read (fun self =>
              let! r := var self (mkObservable o (mp_return_type m)) shot_range bin_size in
              Ok (VArr r))
  | SampleMP _ _ =>
      read (fun self =>
              let! samples := sample self obs shot_range bin_size false in
              Ok (np_squeeze (VSample samples)))
  | CountsMP _ _ _ =>
      read (fun self =>
              let! r := sample self obs shot_range bin_size true in
              Ok (VSample r))
  | ProbabilityMP _ _ =>
      read (fun self =>
              let! r := probability self (Some (target_wires obs)) shot_range bin_size in
              Ok (VArr r))
  | StateMP ws =>
      if (1 <? length measurements)%nat then raise QuantumFunctionError
      else read (fun self => let! state := access_state self (Some ws) in
                             Ok (VOpaque (asarray_complex state (C_DTYPE self))))
  | VnEntropyMP ws log_base =>
      do! custom := read (fun self => Ok (custom_wire_labels self)) in
      if (custom : bool) then raise QuantumFunctionError
      else read (fun self => let! r := vn_entropy self ws log_base in Ok (VOpaque r))
  | MutualInfoMP ws0 ws1 log_base =>
      do! custom := read (fun self => Ok (custom_wire_labels self)) in
      if (custom : bool) then raise QuantumFunctionError
      else read (fun self => let! r := mutual_info self ws0 ws1 log_base in Ok (VOpaque r))
  | ClassicalShadowMP ws seed =>
      if (1 <? length measurements)%nat then raise QuantumFunctionError
      else
        do! br := classical_shadow ws seed (Some circuit) in
        ret (VShadow (fst br) (snd br))
  | ShadowExpvalMP H ws seed k =>
      if (1 <? length measurements)%nat then raise QuantumFunctionError
      else
        do! r := shadow_expval H ws seed k (Some circuit) in
        ret (VOpaque r)
  | TransformMP method_name =>
      read (fun self => let! r := transform_process method_name circuit self in
                        Ok (VOpaque r))
  | CustomMP method_name is_state_measurement o =>
      read (fun self =>
              let! r := match device_method method_name with
                        | Some method => method obs self shot_range bin_size
                        | None => _measure self method_name is_state_measurement o
                                           shot_range bin_size
                        end in
              Ok (VOpaque r))
  | MidMeasureMP => raise QuantumFunctionError
  | BareMP =>
      match previous with
      | Some result => ret result
      | None => raise NameError
      end
  end.

(** [QubitDevice._statistics_new(circuit, shot_range, bin_size)] *)
Definition _statistics_new (circuit : QuantumScript)
    (shot_range : option (nat * nat)) (bin_size : option nat) : M K (list (value O)) :=
  do! final :=
    forM (fun (acc : list (value O) * option (value O)) m =>
            do! result := _statistics_new_dispatch circuit shot_range bin_size m (snd acc) in
            do! result :=
              read (fun self =>
                      Ok (if is_float_result m then asarray_value result (R_DTYPE self)
                          else result)) in
            do! result :=
              read (fun self =>
                      Ok (if bool_decide (_shot_vector self <> None) && is_ndarray result
                          then np_squeeze result else result)) in
            ret (fst acc ++ [result], Some result))
         (measurements circuit) ([], None) in
  ret (fst final).

(** [QubitDevice.statistics(circuit, shot_range, bin_size)], the legacy
    path, called with a quantum script. *)
Definition statistics_dispatch (circuit : QuantumScript)
    (shot_range : option (nat * nat)) (bin_size : option nat)
    (m : measurement) : M K (list (value O)) :=
  let measurements := measurements circuit in
  let obs := obs_of m in
  match m with
  | ExpectationMP o =>
      read (fun self =>
              let! r := expval self (mkObservable o (mp_return_type m)) shot_range bin_size in
              Ok [VArr r])
  | VarianceMP o =>
      read (fun self =>
              let! r := var self (mkObservable o (mp_return_type m)) shot_range bin_size in
              Ok [VArr r])
  | SampleMP _ _ =>
      read (fun self =>
              let! r := sample self obs shot_range bin_size false in
              Ok [VSample r])
  | CountsMP _ _ _ =>
      read (fun self =>
              let! r := sample self obs shot_range bin_size true in
              Ok [VSample r])
  | ProbabilityMP _ _ =>
      read (fun self =>
              let! r := probability self (Some (target_wires obs)) shot_range bin_size in
              Ok [VArr r])
  | StateMP ws =>
      if (1 <? length measurements)%nat then raise QuantumFunctionError
      else read (fun self => let! state := access_state self (Some ws) in
                             Ok [VOpaque state])
  | VnEntropyMP ws log_base =>
      do! custom := read (fun self => Ok (custom_wire_labels self)) in
      if (custom : bool) then raise QuantumFunctionError
      else
        do! vector := read (fun self => Ok (bool_decide (_shot_vector self <> None))) in
        if (vector : bool) then raise NotImplementedError
        else read (fun self => let! r := vn_entropy self ws log_base in Ok [VOpaque r])
  | MutualInfoMP ws0 ws1 log_base =>
      do! custom := read (fun self => Ok (custom_wire_labels self)) in
      if (custom : bool) then raise QuantumFunctionError
      else
        do! vector := read (fun self => Ok (bool_decide (_shot_vector self <> None))) in
        if (vector : bool) then raise NotImplementedError
        else read (fun self => let! r := mutual_info self ws0 ws1 log_base in
                               Ok [VOpaque r])
  | ClassicalShadowMP ws seed =>
      if (1 <? length measurements)%nat then raise QuantumFunctionError
      else
        do! br := classical_shadow ws seed (Some circuit) in
        ret [VShadow (fst br) (snd br)]
  | ShadowExpvalMP H ws seed k =>
      if (1 <? length measurements)%nat then raise QuantumFunctionError
      else
        do! r := shadow_expval H ws seed k (Some circuit) in
        ret [VOpaque r]
  | TransformMP method_name =>
      read (fun self => let! r := transform_process method_name circuit self in
                        Ok [VOpaque r])
  | CustomMP method_name is_state_measurement o =>
      read (fun self =>
              let! r := _measure self method_name is_state_measurement o
                                 shot_range bin_size in
              Ok [VOpaque r])
  | MidMeasureMP => raise QuantumFunctionError
  | BareMP => ret []
  end.

Definition statistics (circuit : QuantumScript)
    (shot_range : option (nat * nat)) (bin_size : option nat) : M K (list (value O)) :=
  forM (fun results m =>
          do! r := statistics_dispatch circuit shot_range bin_size m in
          ret (results ++ r))
       (measurements circuit) [].

(** [QubitDevice.shot_vec_statistics(circuit)] *)
Definition shot_vec_statistics (circuit : QuantumScript) : M K (list (value O)) :=
  do! shot_vector := read (fun self => subscriptable (_shot_vector self)) in
  do! final :=
    forM (fun (acc : list (value O) * nat) shot_tuple =>
            let s1 := snd acc in
            let s2 := (s1 + st_shots shot_tuple * st_copies shot_tuple)%nat in
            do! r := _statistics_new circuit (Some (s1, s2)) (Some (st_shots shot_tuple)) in
            do! r := read (fun _ => shot_vector_layout circuit shot_tuple r) in
            ret (fst acc ++ r, s2))
         shot_vector ([], 0%nat) in
  ret (fst final).

(** What [_execute_new] returns: the bare result of a single measurement, or
    the tuple of results. *)
Inductive execute_result : Type :=
| Bare (v : value O)
| Tuple (vs : list (value O)).

(** [QubitDevice._execute_new(circuit)] *)
Definition _execute_new (circuit : QuantumScript) : M K execute_result :=
  do! _ := read (fun _ => check_validity (operations circuit) (measurements circuit)) in
  do! _ := apply (operations circuit) (diagonalizing_gates circuit) in
  do! finite := read (fun self => Ok (bool_decide (shots self <> None))) in
  do! _ := (if (finite : bool)
            then do! samples := generate_samples in set_samples (Some samples)
            else ret tt) in
  do! vector := read (fun self => Ok (bool_decide (_shot_vector self <> None))) in
  do! results :=
    (if (vector : bool) then
       do! results := shot_vec_statistics circuit in
       ret (Tuple results)
     else
       do! results := _statistics_new circuit None None in
       if (length (measurements circuit) =? 1)%nat then
         match results with
         | r :: _ => ret (Bare r)
         | [] => raise IndexError
         end
       else ret (Tuple results)) in
  do! _ := increment_executions in
  ret results.

End Device.

(* ===================================================================== *)
(** * Vocabulary of the properties *)
(* ===================================================================== *)

(** The bit of weight [2^k] of [i], as a number. *)
Definition bit_of (i : Z) (k : nat) : Z := if Z.testbit i (Z.of_nat k) then 1 else 0.

(** The bits of [i], least significant first. *)
Definition bits_lsb (n : nat) (i : Z) : list Z := map (bit_of i) (seq 0 n).

(** The value of a list of bits, least significant first. *)
Definition value_lsb (l : list Z) : Z := fold_right (fun b acc => b + 2 * acc) 0 l.

Definition is_bit (b : Z) : Prop := b = 0 \/ b = 1.

(** The largest number of wires for which the powers of two fit [d]. *)
Definition max_wires (d : dtype) : nat :=
  match d with int64 => 63 | uint32 => 32 | int8 => 7 end.

(** The relative frequencies of the indices [0 .. dim-1] in [idx] among [n]
    samples, each the float64 quotient of a count by [n]. *)
Definition freq_vector (n : nat) (idx : list Z) (dim : nat) : list Qc :=
  map (fun k => true_divide (occurrences k idx) n) (arange dim).

(** The relative frequencies, cast to the dtype [d]. *)
Definition rounded_frequencies (d : float_dtype) (n : nat) (idx : list Z) (dim : nat)
  : list Qc :=
  map (round_float d) (freq_vector n idx dim).


(** Writing [g k] at each index [k] of [ks]. *)
Definition write_all (g : Z -> Qc) (ks : list Z) (p : list Qc) : list Qc :=
  fold_left (fun p k => <[Z.to_nat k := g k]> p) ks p.

Definition in_range (dim : nat) (i : Z) : Prop := 0 <= i < Z.of_nat dim.

(** Column [b] of a matrix kept as the list of its rows. *)
Definition col (b : nat) (m : list (list Qc)) : list Qc :=
  map (fun row => nth b row 0%Qc) m.

Definition shape (dim nb : nat) (m : list (list Qc)) : Prop :=
  length m = dim /\ Forall (fun row => length row = nb) m.

(** A sample buffer of [n] wires: rows of [n] bits. *)
Definition well_formed_buffer (n : nat) (rows : list (list Z)) : Prop :=
  Forall (fun row => length row = n /\ Forall is_bit row) rows.

(** The bits of a sample on the wires [ws], in the order of [ws]. *)
Definition restrict_sample (registry ws : list wire) (row : list Z) : list Z :=
  map (fun w => nth (registry_position registry w) row 0) ws.

(** The basis index of each sample, restricted to the wires [ws]. *)
Definition basis_indices (registry ws : list wire) (rows : list (list Z)) : list Z :=
  map (fun row => binary_to_index (restrict_sample registry ws row)) rows.


(** The marginal distribution over the wires [ws], in registry order: the
    full-system vector with every other axis summed out. *)
Definition marginal_axes (registry ws : list wire) (prob : list Qc) : list Qc :=
  reduce_sum (length registry) 0
             (spec_mapped registry (unique_wires registry ws)) prob.

(** The marginal distribution over the wires [ws] in the order of [ws]:
    entry [k] is the total probability of the basis states of the full
    system whose bits on the wires [ws] spell [k], first wire of [ws] most
    significant. *)
Definition marginal_in_order (registry ws : list wire) (prob : list Qc) : list Qc :=
  map (fun k =>
         sumQ (map (fun x =>
                      if decide (restrict_sample registry ws
                                   (rev (bits_lsb (length registry) x))
                                 = rev (bits_lsb (length ws) k))
                      then nth (Z.to_nat x) prob 0%Qc else 0%Qc)
                   (arange (2 ^ length registry))))
      (arange (2 ^ length ws)).

(** The keys of a complete table of counts over [n] wires. *)
Fixpoint bitstring (s : string) : Prop :=
  match s with
  | EmptyString => True
  | String c s' => (c = "0"%char \/ c = "1"%char) /\ bitstring s'
  end.

Definition is_basis_key (n : nat) (key : outcome) : Prop :=
  match key with
  | KStr s => String.length s = n /\ bitstring s
  | KNum _ | KNone => False
  end.

(** The sum of the values of a dictionary of counts. *)
Definition total_counts (d : gmap outcome Z) : Z :=
  map_fold (fun _ v acc => v + acc) 0 d.

(** Counts completeness over [n] wires and [shots] samples. *)
Definition counts_complete (n shots : nat) (d : gmap outcome Z) : Prop :=
  size d = (2 ^ n)%nat
  /\ (forall key, key ∈ dom d -> is_basis_key n key)
  /\ total_counts d = Z.of_nat shots.

(* ===================================================================== *)
(** * A concrete device kernel *)
(* ===================================================================== *)

(** A kernel that stays in the probability distribution it holds, whose
    sampler always draws the basis state of index 0, and whose seeded
    generator counts upwards from the seed.  It serves to run the engine on
    concrete circuits. *)
Definition counting_randint (seed low high : Z) (rows cols : nat) : list (list Z) :=
  map (fun i =>
         map (fun j => low + (seed + Z.of_nat (i * cols + j)) mod (high - low))
             (seq 0 cols))
      (seq 0 rows).

Definition pauli_diagonalizing_gates (name : string) (w : wire) : list operation :=
  if decide (name = "PauliX") then [mkOperation "Hadamard" [w] []]
  else if decide (name = "PauliY") then
    [mkOperation "PauliZ" [w] []; mkOperation "S" [w] []; mkOperation "Hadamard" [w] []]
  else [].

Global Instance fixed_kernel : Kernel (list Qc) Z := {|
  check_validity := fun _ _ => Ok tt;
  kernel_apply := fun _ _ k => Ok k;
  kernel_reset := fun k => k;
  kernel_probability := fun k => Ok k;
  returns_state := true;
  kernel_state := fun _ => Some 0;
  device_method := fun _ => None;
  reduced_dm := fun o _ _ => Ok o;
  math_vn_entropy := fun _ _ _ _ => Ok 0;
  math_mutual_info := fun _ _ _ _ _ => Ok 0;
  asarray_real := fun o _ => o;
  asarray_complex := fun o _ => o;
  random_choice := fun _ shots _ k => (Ok (repeat 0 shots), k);
  os_entropy := fun _ => 0;
  RandomState_randint := counting_randint;
  compute_diagonalizing_gates := pauli_diagonalizing_gates;
  shadow_expval_estimate := fun _ _ _ _ _ => Ok 0;
  transform_process := fun _ _ _ => Ok 0;
  process_state := fun _ o _ => Ok o;
  process_samples := fun _ _ _ _ _ => Ok 0;
  np_squeeze := fun v => v;
  shot_vector_layout := fun _ _ r => Ok r;
|}.

(** Devices with the canonical wire labels [0 .. n-1], and the default
    dtypes of the constructor. *)
Definition canonical_device {K : Type} (n : nat) (shots : option nat)
    (shot_vector : option (list ShotTuple)) (samples : option (list (list Z)))
    (k : K) : QubitDevice K :=
  mkQubitDevice (map WInt (arange n)) shots shot_vector samples 0%nat k []
                float64 complex128.

(** The observable [qml.PauliZ(w)], with the eigenvalues [1, -1]. *)
Definition PauliZ (w : wire) : operator :=
  mkOperator "PauliZ" [w] [] (Some [1%Qc; (-1)%Qc]).

(** The buffer of three samples on two wires of the docstring of
    [_samples_to_counts]. *)
Definition docstring_samples : list (list Z) := [[0; 0]; [0; 0]; [1; 0]].

(** The measurements that cannot be returned together with others. *)
Definition exclusive (m : measurement) : bool :=
  match m with
  | StateMP _ | ClassicalShadowMP _ _ | ShadowExpvalMP _ _ _ _ => true
  | _ => false
  end.

(** The measurements of the classical-shadow protocol. *)
Definition is_shadow (m : measurement) : bool :=
  match m with
  | ClassicalShadowMP _ _ | ShadowExpvalMP _ _ _ _ => true
  | _ => false
  end.

(** The measurements of an entropy of the state. *)
Definition is_entropy (m : measurement) : bool :=
  match m with
  | VnEntropyMP _ _ | MutualInfoMP _ _ _ => true
  | _ => false
  end.

(** The gate [qml.Hadamard(w)]. *)
Definition Hadamard_gate (w : wire) : operation := mkOperation "Hadamard" [w] [].

(** A circuit that returns a classical shadow together with an expectation
    value. *)
Definition shadow_with_expval : QuantumScript :=
  mkQuantumScript [Hadamard_gate (WInt 0)] []
                  [ClassicalShadowMP [WInt 0] (Some 7);
                   ExpectationMP (Single (PauliZ (WInt 0)))].

(** A device of one wire and two shots over the concrete kernel, in the
    basis state of index 0. *)
Definition single_qubit_sampler : QubitDevice (list Qc) :=
  canonical_device 1 (Some 2%nat) None None [1%Qc; 0%Qc].

(** A circuit that returns the Von Neumann entropy of its only wire. *)
Definition entropy_circuit : QuantumScript :=
  mkQuantumScript [] [] [VnEntropyMP [WInt 0] None].

(** A device of one wire with the canonical label, run with the shot
    vector [(1, 1)], over the concrete kernel. *)
Definition shot_vector_device : QubitDevice (list Qc) :=
  canonical_device 1 (Some 1%nat) (Some [mkShotTuple 1 1]) None [1%Qc; 0%Qc].

(** A device of one wire labelled ["a"], run with the shot vector
    [(1, 1)], over the concrete kernel. *)
Definition custom_label_device : QubitDevice (list Qc) :=
  mkQubitDevice [WStr "a"] (Some 1%nat) (Some [mkShotTuple 1 1]) None 0%nat
                [1%Qc; 0%Qc] [] float64 complex128.

(** The same gates as [shadow_with_expval], measured by a classical shadow
    alone; and a circuit without gates measured by the same shadow. *)
Definition shadow_circuit : QuantumScript :=
  mkQuantumScript [Hadamard_gate (WInt 0)] [] [ClassicalShadowMP [WInt 0] (Some 7)].

Definition empty_shadow_circuit : QuantumScript :=
  mkQuantumScript [] [] [ClassicalShadowMP [WInt 0] (Some 7)].

(** A device of two wires and two shots over the concrete kernel, in the
    basis state of index 0, that has run before. *)
Definition two_qubit_sampler : QubitDevice (list Qc) :=
  mkQubitDevice [WInt 0; WInt 1] (Some 2%nat) None (Some [[0; 0]; [0; 0]]) 3%nat
                [1%Qc; 0%Qc; 0%Qc; 0%Qc] [EvReset] float64 complex128.

(** Strictly increasing lists of device indices: wires requested in the
    order of the registry. *)
Fixpoint increasing (l : list nat) : bool :=
  match l with
  | a :: l' =>
      match l' with
      | b :: _ => (a <? b)%nat && increasing l'
      | [] => true
      end
  | [] => true
  end.

(** The eigenvalue of a Pauli observable read off a measured bit. *)
Definition pauli_eigenvalue (b : Z) : Qc := if decide (b = 0) then 1%Qc else (-1)%Qc.

(** The samples of a Pauli observable on the wire [w] added up: the number
    of rows with the bit 0 on that wire minus the number with the bit 1. *)
Definition pauli_total (registry : list wire) (w : wire) (rows : list (list Z)) : Z :=
  fold_right Z.add 0
             (map (fun row => 1 - 2 * nth (registry_position registry w) row 0) rows).

(** The rows that a measurement of the computational basis on the wires
    [ws] reads off the buffer: all the columns when no wire is given. *)
Definition measured_rows (registry ws : list wire) (rows : list (list Z)) : list (list Z) :=
  match ws with
  | [] => rows
  | _ => map (restrict_sample registry ws) rows
  end.

(** The measurements that both statistics paths compute alike: on the path
    of the new return types a [SampleMP] result is squeezed, a measurement
    process of no known class re-appends the previous result, and the device
    method of a custom measurement is given the observable, when there is
    one, where the legacy path gives the measurement process. *)
Definition same_on_both_paths (m : measurement) : bool :=
  match m with
  | SampleMP _ _ | BareMP | CustomMP _ _ (Some _) => false
  | _ => true
  end.

Section Casts.

Context {K O : Type} `{!Kernel K O}.

(** The casts that the path of the new return types applies to the result
    of the measurement [m] and the legacy path does not: a state is cast to
    the complex dtype [c], and the result of a measurement of a real number
    to the real dtype [r]. *)
Definition new_path_cast (r : float_dtype) (c : complex_dtype) (m : measurement)
    (v : value O) : value O :=
  let v := match m, v with
           | StateMP _, VOpaque state => VOpaque (asarray_complex state c)
           | _, _ => v
           end in
  if is_float_result m then asarray_value v r else v.

End Casts.

(** A method that leaves the attribute [f] of the device as it is, whether
    it returns or raises. *)
Definition preserves {K A X : Type} (f : QubitDevice K -> X) (c : M K A) : Prop :=
  forall s, f (snd (c s)) = f s.

(** The dtypes of a device. *)
Definition dtypes {K : Type} (self : QubitDevice K) : float_dtype * complex_dtype :=
  (R_DTYPE self, C_DTYPE self).

(** A circuit of two expectation values and one probability. *)
Definition three_measurements : QuantumScript :=
  mkQuantumScript [Hadamard_gate (WInt 0)] []
                  [ExpectationMP (Single (PauliZ (WInt 0)));
                   ProbabilityMP None [WInt 1];
                   ExpectationMP (Single (PauliZ (WInt 1)))].

(** A device of two wires in analytic mode over the concrete kernel, in the
    basis state of index 1. *)
Definition two_qubit_analytic : QubitDevice (list Qc) :=
  canonical_device 2 None None None [0%Qc; 1%Qc; 0%Qc; 0%Qc].

(** A method that leaves the wire registry and the counter of executions
    as they are, whether it returns or raises. *)
Definition keeps_registry {K A : Type} (c : M K A) : Prop :=
  forall s, wires (snd (c s)) = wires s
            /\ _num_executions (snd (c s)) = _num_executions s.

Section Batch.

Context {K O : Type} `{!Kernel K O}.

(** [QubitDevice._batch_execute_new(circuits)] *)
Definition _batch_execute_new (circuits : list QuantumScript)
  : M K (list (@execute_result O)) :=
  forM (fun results circuit =>
          do! _ := reset in
          do! res := _execute_new circuit in
          ret (results ++ [res]))
       circuits [].

End Batch.

(** The kernel calls of one snapshot of the classical-shadow protocol on a
    circuit: a reset, the circuit with some rotations appended to its
    diagonalizing gates, and one sampling. *)
Definition snapshot_run (circuit : QuantumScript) (run : list event) : Prop :=
  exists rotations,
    run = [EvReset;
           EvApply (operations circuit) (diagonalizing_gates circuit ++ rotations);
           EvGenerateSamples].



(* ===================================================================== *)
(** * The measurement processes [SampleMP] and [VarianceMP] *)
(* ===================================================================== *)

(** What the methods of a measurement process do: return, raise the
    [KeyError] of a wire that [wire_order] does not hold, or raise an
    exception of the engine. *)
Inductive process_result (A : Type) : Type :=
| Returned (a : A)
| KeyError
| Raised (e : error).

Arguments Returned {A} a.
Arguments KeyError {A}.
Arguments Raised {A} e.

Definition lift {A : Type} (r : result A) : process_result A :=
  match r with
  | Ok a => Returned a
  | Err e => Raised e
  end.

(** [dict(zip(keys, range(start, ...)))[w]]: a key met twice keeps its last
    value. *)
Fixpoint dict_zip_get (keys : list wire) (start : nat) (w : wire) : option nat :=
  match keys with
  | [] => None
  | key :: keys' =>
      match dict_zip_get keys' (S start) w with
      | Some i => Some i
      | None => if decide (key = w) then Some start else None
      end
  end.

(** [[wire_map[w] for w in ws]] *)
Fixpoint wire_map_all (wire_order ws : list wire) : option (list nat) :=
  match ws with
  | [] => Some []
  | w :: ws' =>
      match dict_zip_get wire_order 0 w with
      | None => None
      | Some i =>
          match wire_map_all wire_order ws' with
          | None => None
          | Some rest => Some (i :: rest)
          end
      end
  end.

(** The arrays that [process_samples] returns: eigenvalues (of rank 0, 1 or
    2), raw bits of shape (shots, wires), or raw bits in bins, of shape
    (wires, bin_size, num_bins). *)
Inductive processed : Type :=
| Eigen (a : ndarray)
| RawBits (rows : list (list Z))
| RawBins (t : list (list (list Z))).

(** [samples[..., mapped_wires]] on an array of [width] columns: NumPy
    checks every index against the width. *)
Definition select_columns (rows : list (list Z)) (width : nat) (cols : list nat)
  : result (list (list Z)) :=
  if forallb (fun c => (c <? width)%nat) cols
  then Ok (map (fun row => map (fun c => nth c row 0) cols) rows)
  else Err IndexError.

(** [1 - 2 * qml.math.squeeze(samples)] on an array of shape
    (shots, width): the axes of length 1 are dropped. *)
Definition pauli_squeeze (rows : list (list Z)) (width : nat) : ndarray :=
  let value := fun b => Qc_of_Z (cast int64 (1 - 2 * b)) in
  match rows with
  | [row] =>
      match row with
      | [b] => if (width =? 1)%nat then Scalar (value b) else Vector (map value row)
      | _ => Vector (map value row)
      end
  | _ =>
      if (width =? 1)%nat then Vector (map value (concat rows))
      else Matrix (map (map value) rows)
  end.

(** [a.flatten()] *)
Definition flatten (a : ndarray) : list Qc :=
  match a with
  | Scalar x => [x]
  | Vector xs => xs
  | Matrix xss => concat xss
  end.

(** [SampleMP.process_samples(samples, wire_order, shot_range, bin_size)]
    of the measurement process [SampleMP(obs, wires)]; [width] is
    [samples.shape[-1]].  The name of a tensor product is a list of names,
    which the membership test [name in {...}] cannot hash: it raises a
    [TypeError]. *)
Definition SampleMP_process_samples (obs : option obs_body) (mwires : list wire)
    (samples : list (list Z)) (width : nat) (wire_order : list wire)
    (shot_range : option (nat * nat)) (bin_size : option nat)
  : process_result processed :=
  match wire_map_all wire_order (mp_wires (SampleMP obs mwires)) with
  | None => KeyError
  | Some mapped_wires =>
      lift
        (let name := match obs with Some o => obs_name o | None => None end in
         let samples := match shot_range with
                        | Some r => slice samples r
                        | None => samples
                        end in
         let! selected :=
           match mapped_wires with
           | [] => Ok (samples, width)
           | _ => let! s := select_columns samples width mapped_wires in
                  Ok (s, length mapped_wires)
           end in
         let samples := fst selected in
         let num_wires := snd selected in
         match obs with
         | None =>
             match bin_size with
             | None => Ok (RawBits samples)
             | Some bin_size =>
                 let flat := concat (transpose samples) in
                 let! width := infer_dim (length flat) (num_wires * bin_size) in
                 let! planes := reshape_infer_rows flat (bin_size * width) in
                 Ok (RawBins (map (fun plane => chunks bin_size width plane) planes))
             end
         | Some o =>
             let! vals :=
               match name with
               | None => Err TypeError
               | Some _ =>
                   if is_pauli_name name then Ok (pauli_squeeze samples num_wires)
                   else
                     let powers_of_two := powers_of_two_desc num_wires in
                     let indices := map (fun row => dotZ row powers_of_two) samples in
                     let! eig := eigvals o in
                     let! vals := mapR (getitemZ eig) indices in
                     Ok (Vector vals)
               end in
             match bin_size with
             | None => Ok (Eigen vals)
             | Some bin_size =>
                 let! m := reshape_infer_cols (flatten vals) bin_size in
                 Ok (Eigen (Matrix m))
             end
         end)
  end.

(** What [QubitDevice.sample] returns, as an array of a measurement
    process; dictionaries of counts are no arrays. *)
Definition as_processed (s : sample_out) : option processed :=
  match s with
  | Samples1 vals => Some (Eigen (Vector vals))
  | Samples2 rows => Some (RawBits rows)
  | BinnedEig m => Some (Eigen (Matrix m))
  | BinnedRaw t => Some (RawBins t)
  | CountsDict _ | CountsList _ | NoSamples => None
  end.

(** [qml.math.squeeze(qml.math.var(samples, axis))] with [axis = -1]
    without bins and [axis = -2] with bins.  NumPy refuses an axis that the
    array does not have with an [AxisError], which is a [ValueError] (and an
    [IndexError]). *)
Definition variance_along (a : ndarray) (bin_size : option nat) : result ndarray :=
  match bin_size with
  | None =>
      match a with
      | Scalar _ => Err ValueError
      | Vector xs => Ok (Scalar (variance xs))
      | Matrix xss => Ok (squeeze_vector (map variance xss))
      end
  | Some _ =>
      match a with
      | Scalar _ | Vector _ => Err ValueError
      | Matrix xss => Ok (squeeze_vector (map variance (columns xss)))
      end
  end.

(** [VarianceMP.process_samples(samples, wire_order, shot_range, bin_size)]
    of the measurement process [VarianceMP(obs)].  The probabilities of the
    projector branch come from [ProbabilityMP.process_samples], which is
    outside the sources at hand and is a parameter here. *)
Definition VarianceMP_process_samples
    (probs_process_samples :
       list wire -> list (list Z) -> nat -> list wire -> option (nat * nat) ->
       option nat -> process_result ndarray)
    (obs : obs_body) (samples : list (list Z)) (width : nat) (wire_order : list wire)
    (shot_range : option (nat * nat)) (bin_size : option nat)
  : process_result ndarray :=
  if decide (obs_name obs = Some "Projector") then
    match projector_index obs with
    | Err e => Raised e
    | Ok idx =>
        match probs_process_samples (obs_wires obs) samples width wire_order
                                    shot_range bin_size with
        | Returned probs =>
            lift (let! p := index_array probs idx in
                  match p with
                  | Scalar x => Ok (Scalar (x - x * x)%Qc)
                  | Vector xs => Ok (Vector (map (fun x => (x - x * x)%Qc) xs))
                  | Matrix _ => Err TypeError
                  end)
        | KeyError => KeyError
        | Raised e => Raised e
        end
    end
  else
    match SampleMP_process_samples (Some obs) [] samples width wire_order
                                   shot_range bin_size with
    | Returned (Eigen a) => lift (variance_along a bin_size)
    | Returned _ => Raised TypeError
    | KeyError => KeyError
    | Raised e => Raised e
    end.

(** The rows of a buffer in [shot_range], all of them without a range. *)
Definition in_shot_range (buffer : list (list Z)) (shot_range : option (nat * nat))
  : list (list Z) :=
  match shot_range with
  | Some r => slice buffer r
  | None => buffer
  end.


(** A kernel in the manner of a hardware backend: it samples, and it holds
    no state to return. *)
Definition sampling_kernel : Kernel (list Qc) Z := {|
  check_validity := fun _ _ => Ok tt;
  kernel_apply := fun _ _ k => Ok k;
  kernel_reset := fun k => k;
  kernel_probability := fun k => Ok k;
  returns_state := false;
  kernel_state := fun _ => None;
  device_method := fun _ => None;
  reduced_dm := fun o _ _ => Ok o;
  math_vn_entropy := fun _ _ _ _ => Ok 0;
  math_mutual_info := fun _ _ _ _ _ => Ok 0;
  asarray_real := fun o _ => o;
  asarray_complex := fun o _ => o;
  random_choice := fun _ shots _ k => (Ok (repeat 0 shots), k);
  os_entropy := fun _ => 0;
  RandomState_randint := counting_randint;
  compute_diagonalizing_gates := pauli_diagonalizing_gates;
  shadow_expval_estimate := fun _ _ _ _ _ => Ok 0;
  transform_process := fun _ _ _ => Ok 0;
  process_state := fun _ o _ => Ok o;
  process_samples := fun _ _ _ _ _ => Ok 0;
  np_squeeze := fun v => v;
  shot_vector_layout := fun _ _ r => Ok r;
|}.

(* ===================================================================== *)
(** * Floating-point rounding *)
(* ===================================================================== *)

Section Rounding.

Local Open Scope Q_scope.


Lemma qpow2_pos (e : Z) : 0 < 2 ^ e.
Proof. apply Qpower_0_lt. reflexivity. Qed.


Lemma qpow2_plus (a b : Z) : 2 ^ (a + b) == 2 ^ a * 2 ^ b.
Proof. apply Qpower_plus. discriminate. Qed.

Lemma qpow2_Z (n : Z) : (0 <= n)%Z -> 2 ^ n == inject_Z (2 ^ n).
Proof. intros H. rewrite Zpower_Qpower by assumption. reflexivity. Qed.

Lemma qpow2_le (a b : Z) : (a <= b)%Z -> 2 ^ a <= 2 ^ b.
Proof. intros H. apply Qpower_le_compat_l; [assumption|discriminate]. Qed.

Lemma qpow2_lt_inv (a b : Z) : 2 ^ a < 2 ^ b -> (a < b)%Z.
Proof. intros H. apply (Qpower_lt_compat_l_inv 2); [assumption|reflexivity]. Qed.

Lemma qpow2_le_inv (a b : Z) : 2 ^ a <= 2 ^ b -> (a <= b)%Z.
Proof. intros H. apply (Qpower_le_compat_l_inv 2); [assumption|reflexivity]. Qed.

Lemma qpow2_cancel (q : Z) : 2 ^ (- q) * 2 ^ q == 1.
Proof. rewrite <- qpow2_plus. replace (- q + q)%Z with 0%Z by lia. reflexivity. Qed.

Lemma div_qpow2 (a : Q) (q : Z) : a / 2 ^ q == a * 2 ^ (- q).
Proof. unfold Qdiv. rewrite Qpower_opp. reflexivity. Qed.

Lemma round_half_even_comp (t u : Q) : t == u -> round_half_even t = round_half_even u.
Proof.
  intros E. unfold round_half_even.
  rewrite (Qfloor_comp _ _ E).
  assert (E' : t - inject_Z (Qfloor u) == u - inject_Z (Qfloor u)) by (rewrite E; reflexivity).
  rewrite (Qcompare_comp _ _ E' _ _ (Qeq_refl _)). reflexivity.
Qed.

Lemma round_half_even_Z (z : Z) : round_half_even (inject_Z z) = z.
Proof.
  unfold round_half_even. rewrite Qfloor_Z.
  assert (E : inject_Z z - inject_Z z == 0) by ring.
  rewrite (Qcompare_comp _ _ E _ _ (Qeq_refl _)). reflexivity.
Qed.

Lemma round_half_even_cases (t : Q) :
  round_half_even t = Qfloor t \/
  (round_half_even t = (Qfloor t + 1)%Z /\ 1 # 2 <= t - inject_Z (Qfloor t)).
Proof.
  unfold round_half_even.
  destruct (Qcompare_spec (t - inject_Z (Qfloor t)) (1 # 2)) as [E|L|G].
  - destruct (Z.even (Qfloor t)); [left; reflexivity|right; split; [reflexivity|]].
    rewrite E. apply Qle_refl.
  - left; reflexivity.
  - right; split; [reflexivity|]. apply Qlt_le_weak, G.
Qed.

Lemma round_half_even_le (t : Q) (J : Z) : t <= inject_Z J -> (round_half_even t <= J)%Z.
Proof.
  intros H.
  assert (F : (Qfloor t <= J)%Z).
  { rewrite <- (Qfloor_Z J). apply Qfloor_resp_le, H. }
  destruct (round_half_even_cases t) as [-> | [-> Hr]]; [exact F|].
  destruct (Z.eq_dec (Qfloor t) J) as [E|N]; [|lia].
  exfalso. rewrite E in Hr. lra.
Qed.

Lemma round_half_even_ge (t : Q) (J : Z) : inject_Z J <= t -> (J <= round_half_even t)%Z.
Proof.
  intros H.
  assert (F : (J <= Qfloor t)%Z).
  { rewrite <- (Qfloor_Z J). apply Qfloor_resp_le, H. }
  destruct (round_half_even_cases t) as [-> | [-> _]]; lia.
Qed.


(** [ilog2 t] is the exponent of the binade of [t]. *)
Lemma Zlog2_bounds (n : Z) : (0 < n)%Z -> (2 ^ Z.log2 n <= n < 2 ^ (Z.log2 n + 1))%Z.
Proof. intros H. pose proof (Z.log2_spec n H). replace (Z.log2 n + 1)%Z with (Z.succ (Z.log2 n)) by lia. lia. Qed.

Lemma Qmake_div (n : Z) (d : positive) : n # d == inject_Z n / inject_Z (Zpos d).
Proof. apply Qmake_Qdiv. Qed.

Lemma ilog2_spec (t : Q) : 0 < t -> 2 ^ ilog2 t <= t /\ t < 2 ^ (ilog2 t + 1).
Proof.
  intros Ht. destruct t as [n d].
  assert (Hn : (0 < n)%Z).
  { unfold Qlt in Ht. simpl in Ht. lia. }
  unfold ilog2. cbn [Qnum Qden].
  set (a := Z.log2 n). set (b := Z.log2 (Zpos d)).
  pose proof (Zlog2_bounds n Hn) as [Ha1 Ha2]. fold a in Ha1, Ha2.
  pose proof (Zlog2_bounds (Zpos d) eq_refl) as [Hb1 Hb2]. fold b in Hb1, Hb2.
  assert (A0 : (0 <= a)%Z) by apply Z.log2_nonneg.
  assert (B0 : (0 <= b)%Z) by apply Z.log2_nonneg.
  assert (Qa1 : 2 ^ a <= inject_Z n).
  { rewrite qpow2_Z by lia. rewrite <- Zle_Qle. exact Ha1. }
  assert (Qa2 : inject_Z n < 2 ^ (a + 1)).
  { rewrite qpow2_Z by lia. rewrite <- Zlt_Qlt. exact Ha2. }
  assert (Qb1 : 2 ^ b <= inject_Z (Zpos d)).
  { rewrite qpow2_Z by lia. rewrite <- Zle_Qle. exact Hb1. }
  assert (Qb2 : inject_Z (Zpos d) < 2 ^ (b + 1)).
  { rewrite qpow2_Z by lia. rewrite <- Zlt_Qlt. exact Hb2. }
  assert (Dpos : 0 < inject_Z (Zpos d)) by reflexivity.
  assert (E : n # d == inject_Z n / inject_Z (Zpos d)) by apply Qmake_Qdiv.
  (* n / d is between 2^(a-b-1) and 2^(a-b+1) *)
  assert (Lo : 2 ^ (a - b - 1) < n # d).
  { rewrite E. apply Qlt_shift_div_l; [exact Dpos|].
    eapply Qlt_le_trans; [|exact Qa1].
    replace a with ((a - b - 1) + (b + 1))%Z at 2 by lia.
    rewrite qpow2_plus. apply Qmult_lt_l; [apply qpow2_pos|exact Qb2]. }
  assert (Hi : n # d < 2 ^ (a - b + 1)).
  { rewrite E. apply Qlt_shift_div_r; [exact Dpos|].
    eapply Qlt_le_trans; [exact Qa2|].
    replace (a + 1)%Z with ((a - b + 1) + b)%Z by lia.
    rewrite qpow2_plus. apply Qmult_le_l; [apply qpow2_pos|exact Qb1]. }
  destruct (Qle_bool (2 ^ (a - b)) (n # d)) eqn:T.
  - apply Qle_bool_iff in T. split; [exact T|exact Hi].
  - assert (T' : ~ 2 ^ (a - b) <= n # d).
    { intros C. apply Qle_bool_iff in C. congruence. }
    apply Qnot_le_lt in T'. split.
    + apply Qlt_le_weak, Lo.
    + replace (a - b - 1 + 1)%Z with (a - b)%Z by lia. exact T'.
Qed.

Lemma ilog2_unique (t : Q) (e : Z) : 2 ^ e <= t -> t < 2 ^ (e + 1) -> ilog2 t = e.
Proof.
  intros L U.
  assert (Ht : 0 < t) by (eapply Qlt_le_trans; [apply qpow2_pos|exact L]).
  destruct (ilog2_spec t Ht) as [L' U'].
  assert ((ilog2 t < e + 1)%Z) by (apply qpow2_lt_inv; lra).
  assert ((e < ilog2 t + 1)%Z) by (apply qpow2_lt_inv; lra).
  lia.
Qed.

Lemma ilog2_comp (t u : Q) : 0 < t -> t == u -> ilog2 t = ilog2 u.
Proof.
  intros Ht E. symmetry. destruct (ilog2_spec t Ht) as [L U].
  apply ilog2_unique; rewrite <- E; assumption.
Qed.

Lemma precision_pos (d : float_dtype) : (0 < precision d)%Z.
Proof. destruct d; reflexivity. Qed.

Lemma least_exponent_neg (d : float_dtype) : (least_exponent d <= - precision d)%Z.
Proof. destruct d; vm_compute; discriminate. Qed.

Lemma Qabs_pos_eq (x : Q) : (0 <= Qnum x)%Z -> Qabs x = x.
Proof. destruct x as [n d]. simpl. intros H. rewrite Z.abs_eq by assumption. reflexivity. Qed.

Lemma Qnum_pos (x : Q) : 0 < x <-> (0 < Qnum x)%Z.
Proof. destruct x as [n d]. unfold Qlt. simpl. lia. Qed.

Lemma Qnum_zero (x : Q) : x == 0 <-> Qnum x = 0%Z.
Proof. destruct x as [n d]. unfold Qeq. simpl. lia. Qed.

Lemma roundQ_zero (d : float_dtype) (x : Q) : x == 0 -> roundQ d x == 0.
Proof.
  intros H. apply Qnum_zero in H. unfold roundQ. rewrite H. simpl Z.sgn.
  rewrite Z.mul_0_l. ring.
Qed.

Lemma roundQ_pos (d : float_dtype) (x : Q) :
  0 < x ->
  roundQ d x == inject_Z (round_half_even (x / 2 ^ quantum d x)) * 2 ^ quantum d x.
Proof.
  intros H. apply Qnum_pos in H. unfold roundQ.
  rewrite Qabs_pos_eq by lia.
  rewrite (Z.sgn_pos _ H), Z.mul_1_l. reflexivity.
Qed.

Lemma roundQ_opp (d : float_dtype) (x : Q) : roundQ d (- x) == - roundQ d x.
Proof.
  unfold roundQ.
  assert (E : Qabs (- x) = Qabs x).
  { destruct x as [n dd]. simpl. rewrite Z.abs_opp. reflexivity. }
  rewrite E. destruct x as [n dd]. cbn [Qnum Qopp].
  rewrite Z.sgn_opp, Z.mul_opp_l, inject_Z_opp. ring.
Qed.

Lemma quantum_comp (d : float_dtype) (t u : Q) : 0 < t -> t == u -> quantum d t = quantum d u.
Proof. intros Ht E. unfold quantum. rewrite (ilog2_comp t u Ht E). reflexivity. Qed.

Lemma roundQ_comp (d : float_dtype) (x y : Q) : x == y -> roundQ d x == roundQ d y.
Proof.
  revert x y.
  assert (P : forall x y, 0 < x -> x == y -> roundQ d x == roundQ d y).
  { intros x y Hx E.
    assert (Hy : 0 < y) by (rewrite <- E; exact Hx).
    rewrite (roundQ_pos d x Hx), (roundQ_pos d y Hy).
    rewrite (quantum_comp d x y Hx E).
    assert (E' : x / 2 ^ quantum d y == y / 2 ^ quantum d y) by (rewrite E; reflexivity).
    rewrite (round_half_even_comp _ _ E'). reflexivity. }
  intros x y E.
  destruct (Qlt_le_dec 0 x) as [Hx|Hx]; [apply P; assumption|].
  destruct (Qeq_dec x 0) as [Z0|NZ].
  - rewrite (roundQ_zero d x Z0). symmetry. apply roundQ_zero. rewrite <- E. exact Z0.
  - assert (Hn : 0 < - x) by lra.
    assert (En : - x == - y) by (rewrite E; reflexivity).
    pose proof (P (- x) (- y) Hn En) as R.
    rewrite !roundQ_opp in R. lra.
Qed.

Lemma quantum_le (d : float_dtype) (x : Q) (e : Z) :
  0 < x -> x < 2 ^ (e + precision d) -> (least_exponent d <= e)%Z ->
  (quantum d x <= e)%Z.
Proof.
  intros Hx U He. destruct (ilog2_spec x Hx) as [L _].
  assert ((ilog2 x < e + precision d)%Z) by (apply qpow2_lt_inv; lra).
  unfold quantum. lia.
Qed.

Lemma roundQ_exact_pos (d : float_dtype) (M k : Z) (x : Q) :
  (0 < M < 2 ^ precision d)%Z -> (least_exponent d <= k)%Z ->
  x == inject_Z M * 2 ^ k -> roundQ d x == x.
Proof.
  intros HM Hk E.
  assert (Hx : 0 < x).
  { rewrite E. apply Qmult_lt_0_compat; [|apply qpow2_pos].
    rewrite <- (Zlt_Qlt 0). lia. }
  assert (Hq : (quantum d x <= k)%Z).
  { apply quantum_le; [exact Hx| |exact Hk].
    rewrite E. rewrite Z.add_comm, qpow2_plus.
    apply Qmult_lt_r; [apply qpow2_pos|].
    rewrite qpow2_Z by (pose proof (precision_pos d); lia).
    rewrite <- Zlt_Qlt. lia. }
  rewrite (roundQ_pos d x Hx).
  set (q := quantum d x) in *.
  assert (T : x / 2 ^ q == inject_Z (M * 2 ^ (k - q))).
  { rewrite div_qpow2, E, inject_Z_mult, <- qpow2_Z by lia.
    replace (k - q)%Z with (k + - q)%Z by lia. rewrite qpow2_plus. ring. }
  rewrite (round_half_even_comp _ _ T), round_half_even_Z.
  rewrite E, inject_Z_mult, <- qpow2_Z by lia.
  replace k with ((k - q) + q)%Z at 2 by lia. rewrite qpow2_plus. ring.
Qed.

Lemma roundQ_exact (d : float_dtype) (M k : Z) (x : Q) :
  (Z.abs M < 2 ^ precision d)%Z -> (least_exponent d <= k)%Z ->
  x == inject_Z M * 2 ^ k -> roundQ d x == x.
Proof.
  intros HM Hk E.
  destruct (Z.lt_trichotomy M 0) as [N|[Z0|P]].
  - assert (E' : - x == inject_Z (- M) * 2 ^ k) by (rewrite E, inject_Z_opp; ring).
    pose proof (roundQ_exact_pos d (- M) k (- x) ltac:(lia) Hk E') as R.
    rewrite roundQ_opp in R. lra.
  - subst M. assert (x == 0) by (rewrite E; ring).
    rewrite (roundQ_zero d x H). symmetry. exact H.
  - apply (roundQ_exact_pos d M k); [lia|assumption|assumption].
Qed.

Lemma roundQ_nonneg (d : float_dtype) (x : Q) : 0 <= x -> 0 <= roundQ d x.
Proof.
  intros H. destruct (Qeq_dec x 0) as [Z0|NZ].
  - rewrite (roundQ_zero d x Z0). apply Qle_refl.
  - assert (Hx : 0 < x) by lra.
    rewrite (roundQ_pos d x Hx).
    apply Qmult_le_0_compat; [|apply Qlt_le_weak, qpow2_pos].
    rewrite <- (Zle_Qle 0). apply round_half_even_ge.
    apply Qle_shift_div_l; [apply qpow2_pos|]. change (inject_Z 0) with 0. lra.
Qed.

Lemma quantum_unit (d : float_dtype) (x : Q) : 0 < x -> x <= 1 -> (quantum d x <= 0)%Z.
Proof.
  intros Hx H1. destruct (ilog2_spec x Hx) as [L _].
  assert ((ilog2 x <= 0)%Z).
  { apply qpow2_le_inv. change (2 ^ 0) with 1. lra. }
  pose proof (precision_pos d). pose proof (least_exponent_neg d).
  unfold quantum. lia.
Qed.

Lemma roundQ_le_1 (d : float_dtype) (x : Q) : 0 <= x -> x <= 1 -> roundQ d x <= 1.
Proof.
  intros H0 H1. destruct (Qeq_dec x 0) as [Z0|NZ].
  - rewrite (roundQ_zero d x Z0). discriminate.
  - assert (Hx : 0 < x) by lra.
    rewrite (roundQ_pos d x Hx).
    pose proof (quantum_unit d x Hx H1) as Hq.
    set (q := quantum d x) in *.
    assert (B : (round_half_even (x / 2 ^ q) <= 2 ^ (- q))%Z).
    { apply round_half_even_le. rewrite <- qpow2_Z by lia.
      rewrite div_qpow2. pose proof (qpow2_pos (- q)).
      setoid_replace (2 ^ (- q)) with (1 * 2 ^ (- q)) using relation Qeq at 2 by ring.
      apply Qmult_le_r; assumption. }
    rewrite Zle_Qle in B. rewrite <- qpow2_Z in B by lia.
    rewrite <- (qpow2_cancel q).
    apply Qmult_le_r; [apply qpow2_pos|exact B].
Qed.


Lemma roundQ_grid (d : float_dtype) (x : Q) :
  0 < x ->
  exists M k, (0 <= M <= 2 ^ precision d)%Z /\ (least_exponent d <= k)%Z
              /\ roundQ d x == inject_Z M * 2 ^ k.
Proof.
  intros Hx. exists (round_half_even (x / 2 ^ quantum d x)), (quantum d x).
  destruct (ilog2_spec x Hx) as [L U].
  pose proof (precision_pos d) as Pp.
  split; [split|split].
  - apply round_half_even_ge. change (inject_Z 0) with 0.
    apply Qle_shift_div_l; [apply qpow2_pos|]. lra.
  - apply round_half_even_le. rewrite <- qpow2_Z by lia.
    apply Qlt_le_weak. apply Qlt_shift_div_r; [apply qpow2_pos|].
    rewrite <- qpow2_plus.
    eapply Qlt_le_trans; [exact U|]. apply qpow2_le. unfold quantum. lia.
  - unfold quantum. lia.
  - apply roundQ_pos, Hx.
Qed.

Lemma roundQ_idempotent (d : float_dtype) (x : Q) : roundQ d (roundQ d x) == roundQ d x.
Proof.
  assert (P : forall y, 0 < y -> roundQ d (roundQ d y) == roundQ d y).
  { intros y Hy. destruct (roundQ_grid d y Hy) as (M & k & [M0 M1] & Hk & E).
    pose proof (precision_pos d) as Pp.
    destruct (Z.eq_dec M (2 ^ precision d)%Z) as [Top|NTop].
    - apply (roundQ_exact d (2 ^ (precision d - 1))%Z (k + 1)%Z).
      + rewrite Z.abs_eq by (apply Z.pow_nonneg; lia).
        apply Z.pow_lt_mono_r; lia.
      + lia.
      + rewrite E, Top, <- !qpow2_Z by lia. rewrite <- !qpow2_plus.
        replace (precision d - 1 + (k + 1))%Z with (precision d + k)%Z by lia.
        reflexivity.
    - apply (roundQ_exact d M k); [lia|exact Hk|exact E]. }
  destruct (Qlt_le_dec 0 x) as [Hx|Hx]; [apply P, Hx|].
  destruct (Qeq_dec x 0) as [Z0|NZ].
  - rewrite (roundQ_comp d _ _ (roundQ_zero d x Z0)). rewrite (roundQ_zero d x Z0).
    apply roundQ_zero. reflexivity.
  - assert (Hn : 0 < - x) by lra.
    pose proof (P (- x) Hn) as R.
    rewrite (roundQ_comp d _ _ (roundQ_opp d x)) in R.
    rewrite !roundQ_opp in R. lra.
Qed.

End Rounding.

Section RoundingQc.

Local Open Scope Qc_scope.


Lemma this_round_float (d : float_dtype) (x : Qc) : (this (round_float d x) == roundQ d x)%Q.
Proof. unfold round_float. exact (Qred_correct (roundQ d x)). Qed.

Lemma round_float_exact (d : float_dtype) (M k : Z) (x : Qc) :
  (Z.abs M < 2 ^ precision d)%Z -> (least_exponent d <= k)%Z ->
  (this x == inject_Z M * 2 ^ k)%Q -> round_float d x = x.
Proof.
  intros HM Hk E. apply Qc_is_canon. rewrite this_round_float.
  apply (roundQ_exact d M k); assumption.
Qed.

Lemma round_float_Z (d : float_dtype) (z : Z) :
  (Z.abs z < 2 ^ precision d)%Z -> round_float d (Qc_of_Z z) = Qc_of_Z z.
Proof.
  intros H. apply (round_float_exact d z 0); [exact H| |].
  - pose proof (precision_pos d). pose proof (least_exponent_neg d). lia.
  - simpl. ring.
Qed.

Lemma round_float_0 (d : float_dtype) : round_float d 0 = 0.
Proof.
  apply (round_float_exact d 0 0).
  - pose proof (precision_pos d). simpl. apply Z.pow_pos_nonneg; lia.
  - pose proof (precision_pos d). pose proof (least_exponent_neg d). lia.
  - reflexivity.
Qed.


Lemma round_float_opp (d : float_dtype) (x : Qc) : round_float d (- x) = - round_float d x.
Proof.
  apply Qc_is_canon. rewrite this_round_float.
  assert (E : (this (- x) == - this x)%Q) by exact (Qred_correct (- this x)).
  rewrite (roundQ_comp d _ _ E), roundQ_opp.
  transitivity (- this (round_float d x))%Q.
  - rewrite this_round_float. reflexivity.
  - symmetry. exact (Qred_correct (- this (round_float d x))).
Qed.

Lemma round_float_nonneg (d : float_dtype) (x : Qc) : 0 <= x -> 0 <= round_float d x.
Proof.
  intros H. unfold Qcle. rewrite this_round_float. apply roundQ_nonneg. exact H.
Qed.

Lemma round_float_le_1 (d : float_dtype) (x : Qc) : 0 <= x -> x <= 1 -> round_float d x <= 1.
Proof.
  intros H0 H1. unfold Qcle. rewrite this_round_float. apply roundQ_le_1; assumption.
Qed.

Lemma round_float_idempotent (d : float_dtype) (x : Qc) :
  round_float d (round_float d x) = round_float d x.
Proof.
  apply Qc_is_canon. rewrite this_round_float.
  rewrite (roundQ_comp d _ _ (this_round_float d x)).
  rewrite roundQ_idempotent. symmetry. apply this_round_float.
Qed.


End RoundingQc.

(** ** The exception monad *)

Lemma mapR_ok {A B : Type} (f : A -> result B) (g : A -> B) (l : list A) :
  (forall x, x ∈ l -> f x = Ok (g x)) -> mapR f l = Ok (map g l).
Proof.
  induction l as [|x l IH]; intros Hf; simpl; [reflexivity|].
  rewrite (Hf x) by (apply elem_of_cons; left; reflexivity). simpl.
  rewrite IH by (intros y Hy; apply Hf, elem_of_cons; right; exact Hy).
  reflexivity.
Qed.

Lemma mapR_ok_length {A B : Type} (f : A -> result B) (l : list A) (l' : list B) :
  mapR f l = Ok l' -> length l' = length l.
Proof.
  revert l'. induction l as [|x l IH]; intros l' H; simpl in H.
  - injection H as <-. reflexivity.
  - destruct (f x) as [y|e]; simpl in H; [|discriminate].
    destruct (mapR f l) as [ys|e]; simpl in H; [|discriminate].
    injection H as <-. simpl. f_equal. apply IH. reflexivity.
Qed.

Lemma getitem_ok {A : Type} (l : list A) (i : nat) (d : A) :
  (i < length l)%nat -> getitem l i = Ok (nth i l d).
Proof.
  intros Hi. unfold getitem.
  destruct (nth_error l i) as [x|] eqn:E.
  - f_equal. symmetry. apply nth_error_nth. exact E.
  - apply nth_error_None in E. lia.
Qed.

(** ** Sorting by key *)

Lemma insert_sorted_perm {A : Type} (k : nat) (x : A) (l : list (nat * A)) :
  Permutation (insert_sorted k x l) ((k, x) :: l).
Proof.
  induction l as [|[k' y] l IH]; simpl; [reflexivity|].
  destruct (k <=? k')%nat; [reflexivity|].
  rewrite IH. apply perm_swap.
Qed.

Lemma sort_by_key_perm {A : Type} (l : list (nat * A)) :
  Permutation (sort_by_key l) (map snd l).
Proof.
  unfold sort_by_key. induction l as [|[k x] l IH]; simpl; [reflexivity|].
  rewrite insert_sorted_perm. simpl. constructor. exact IH.
Qed.

Lemma map_snd_combine {A B : Type} (l : list A) (l' : list B) :
  length l = length l' -> map snd (combine l l') = l'.
Proof.
  revert l'. induction l as [|x l IH]; intros [|y l'] H; simpl in *; try lia; [reflexivity|].
  f_equal. apply IH. lia.
Qed.

Lemma argsort_perm (xs : list nat) : Permutation (argsort xs) (seq 0 (length xs)).
Proof.
  unfold argsort. rewrite sort_by_key_perm.
  rewrite map_snd_combine; [reflexivity|]. rewrite length_seq. reflexivity.
Qed.

Lemma argsort_length (xs : list nat) : length (argsort xs) = length xs.
Proof. rewrite (Permutation_length (argsort_perm xs)). apply length_seq. Qed.

Lemma argsort_lt (xs : list nat) (i : nat) : i ∈ argsort xs -> (i < length xs)%nat.
Proof.
  rewrite (argsort_perm xs), elem_of_seq. lia.
Qed.

Lemma argsort_NoDup (xs : list nat) : NoDup (argsort xs).
Proof. rewrite (argsort_perm xs). apply NoDup_seq. Qed.

(** ** The registry *)

Lemma wire_index_In (w : wire) (registry : list wire) :
  w ∈ registry -> exists i, wire_index w registry = Some i.
Proof.
  induction registry as [|w' r IH]; intros H; [by apply elem_of_nil in H|].
  simpl. destruct (decide (w = w')) as [->|Hne]; [eauto|].
  apply elem_of_cons in H as [->|H]; [congruence|].
  destruct (IH H) as [i ->]. eauto.
Qed.

Lemma wire_index_lt (w : wire) (registry : list wire) (i : nat) :
  wire_index w registry = Some i -> (i < length registry)%nat.
Proof.
  revert i. induction registry as [|w' r IH]; intros i H; simpl in H; [discriminate|].
  destruct (decide (w = w')); [injection H as <-; simpl; lia|].
  destruct (wire_index w r) as [j|]; [|discriminate].
  injection H as <-. simpl. specialize (IH j eq_refl). lia.
Qed.

Lemma wire_index_nth (w : wire) (registry : list wire) (i : nat) :
  wire_index w registry = Some i -> nth_error registry i = Some w.
Proof.
  revert i. induction registry as [|w' r IH]; intros i H; simpl in H; [discriminate|].
  destruct (decide (w = w')) as [->|]; [injection H as <-; reflexivity|].
  destruct (wire_index w r) as [j|]; [|discriminate].
  injection H as <-. simpl. apply IH. reflexivity.
Qed.

Section Registry.
Context {K : Type} (self : QubitDevice K).

Lemma map_wires_ok (ws : list wire) :
  ws ⊆ wires self ->
  map_wires self ws = Ok (spec_mapped (wires self) ws).
Proof.
  intros Hsub. unfold map_wires, spec_mapped. apply mapR_ok.
  intros w Hw. destruct (wire_index_In w (wires self) (Hsub w Hw)) as [i Hi].
  unfold registry_position. rewrite Hi. reflexivity.
Qed.

Lemma order_wires_ok (ws : list wire) :
  ws ⊆ wires self ->
  order_wires self ws = Ok (spec_ordered (wires self) ws).
Proof.
  intros Hsub. unfold order_wires, spec_ordered.
  rewrite (mapR_ok _ (registry_position (wires self))); [reflexivity|].
  intros w Hw. destruct (wire_index_In w (wires self) (Hsub w Hw)) as [i Hi].
  unfold registry_position. rewrite Hi. reflexivity.
Qed.

Lemma spec_ordered_perm (ws : list wire) :
  Permutation (spec_ordered (wires self) ws) ws.
Proof.
  unfold spec_ordered. rewrite sort_by_key_perm.
  rewrite map_snd_combine; [reflexivity|]. apply length_map.
Qed.

Lemma permute_for_observable_perm (ws : list wire) :
  Permutation (permute_for_observable (wires self) ws) ws.
Proof.
  unfold permute_for_observable, spec_perm.
  set (ordered := spec_ordered (wires self) ws).
  assert (Hlen : length (spec_mapped (wires self) ws) = length ordered).
  { unfold spec_mapped. rewrite length_map.
    symmetry. apply Permutation_length, spec_ordered_perm. }
  rewrite (Permutation_map _ (argsort_perm _)). rewrite Hlen.
  rewrite <- (spec_ordered_perm ws). fold ordered.
  clear. induction ordered as [|x l IH] using rev_ind; [reflexivity|].
  rewrite length_app. simpl. rewrite Nat.add_1_r, seq_S, map_app. simpl.
  rewrite app_nth2, Nat.sub_diag by lia. simpl.
  apply Permutation_app; [|reflexivity].
  etransitivity; [|exact IH]. apply Permutation_refl'.
  apply map_ext_in. intros i Hi. apply in_seq in Hi.
  apply app_nth1. lia.
Qed.

Lemma permute_wires_ok (ws : list wire) :
  NoDup ws ->
  ws ⊆ wires self ->
  _permute_wires self ws = Ok (permute_for_observable (wires self) ws).
Proof.
  intros Hnd Hsub. unfold _permute_wires.
  rewrite order_wires_ok by exact Hsub. simpl.
  rewrite map_wires_ok by exact Hsub. simpl.
  rewrite (mapR_ok _ (fun i => nth i (spec_ordered (wires self) ws) (WInt 0))).
  - simpl. fold (spec_perm (wires self) ws).
    fold (permute_for_observable (wires self) ws).
    unfold Wires. destruct (decide _) as [|Hdup]; [reflexivity|].
    exfalso. apply Hdup.
    rewrite permute_for_observable_perm. exact Hnd.
  - intros i Hi. apply getitem_ok. apply argsort_lt in Hi.
    rewrite (Permutation_length (spec_ordered_perm ws)).
    unfold spec_mapped in Hi. rewrite length_map in Hi. exact Hi.
Qed.

(** C1.  For the wires [ws] of an observable, all of them in the registry
    of the device, [_permute_wires] returns the list of the four steps:
    with [ordered] the wires in registry order, [mapped] their registry
    indices as written and [perm = argsort(mapped)], it is [ordered]
    re-indexed by [perm].  That list holds the wires of the observable, each
    once. *)
Theorem permute_wires_four_steps (ws : list wire) :
  NoDup ws ->
  ws ⊆ wires self ->
  let ordered := spec_ordered (wires self) ws in
  let mapped := spec_mapped (wires self) ws in
  let perm := argsort mapped in
  order_wires self ws = Ok ordered
  /\ map_wires self ws = Ok mapped
  /\ _permute_wires self ws = Ok (map (fun i => nth i ordered (WInt 0)) perm)
  /\ Permutation (map (fun i => nth i ordered (WInt 0)) perm) ws.
Proof.
  intros Hnd Hsub ordered mapped perm.
  split; [apply order_wires_ok; exact Hsub|].
  split; [apply map_wires_ok; exact Hsub|].
  split; [apply permute_wires_ok; assumption|].
  apply permute_for_observable_perm.
Qed.

End Registry.

Lemma permute_wires_four_steps_witness :
  order_wires (canonical_device 3 None None None tt) [WInt 2; WInt 0]
  = Ok [WInt 0; WInt 2]
  /\ map_wires (canonical_device 3 None None None tt) [WInt 2; WInt 0]
     = Ok [2%nat; 0%nat]
  /\ _permute_wires (canonical_device 3 None None None tt) [WInt 2; WInt 0]
     = Ok [WInt 2; WInt 0]
  /\ Permutation [WInt 2; WInt 0] [WInt 2; WInt 0].
Proof.
  refine (permute_wires_four_steps (canonical_device 3 None None None tt)
            [WInt 2; WInt 0] _ _).
  - apply (bool_decide_unpack _). vm_compute. exact I.
  - apply (bool_decide_unpack _). vm_compute. exact I.
Defined.

(* ===================================================================== *)
(** * Basis states: indices and bit vectors *)
(* ===================================================================== *)

Lemma land_pow2 (i : Z) (k : nat) :
  Z.land i (2 ^ Z.of_nat k) = if Z.testbit i (Z.of_nat k) then 2 ^ Z.of_nat k else 0.
Proof.
  apply Z.bits_inj'. intros m Hm.
  rewrite Z.land_spec, Z.pow2_bits_eqb by lia.
  destruct (Z.testbit i (Z.of_nat k)) eqn:E.
  - rewrite Z.pow2_bits_eqb by lia.
    destruct (Z.eqb_spec (Z.of_nat k) m) as [<-|]; [rewrite E|rewrite andb_false_r]; reflexivity.
  - rewrite Z.bits_0.
    destruct (Z.eqb_spec (Z.of_nat k) m) as [<-|]; [rewrite E|rewrite andb_false_r]; reflexivity.
Qed.

Lemma shl_one (d : dtype) (k : nat) :
  (k < max_wires d)%nat -> shl d 1 (Z.of_nat k) = 2 ^ Z.of_nat k.
Proof.
  intros Hk. unfold shl.
  assert (Hpos : 0 < 2 ^ Z.of_nat k) by (apply Z.pow_pos_nonneg; lia).
  rewrite Z.shiftl_1_l.
  destruct d; simpl in *.
  - destruct (Z.ltb_spec (Z.of_nat k) 64) as [_|]; [|lia].
    assert (2 ^ Z.of_nat k <= 2 ^ 62) by (apply Z.pow_le_mono_r; lia).
    rewrite Z.mod_small; lia.
  - destruct (Z.ltb_spec (Z.of_nat k) 32) as [_|]; [|lia].
    assert (2 ^ Z.of_nat k <= 2 ^ 31) by (apply Z.pow_le_mono_r; lia).
    rewrite Z.mod_small; lia.
  - destruct (Z.ltb_spec (Z.of_nat k) 8) as [_|]; [|lia].
    assert (2 ^ Z.of_nat k <= 2 ^ 6) by (apply Z.pow_le_mono_r; lia).
    rewrite Z.mod_small; lia.
Qed.

(** A row of [states_to_binary] lists the bits most significant first. *)
Lemma states_to_binary_rows (d : dtype) (n : nat) (samples : list Z) :
  (n <= max_wires d)%nat ->
  states_to_binary samples n d = map (fun i => rev (bits_lsb n i)) samples.
Proof.
  intros Hn. unfold states_to_binary, arange, bits_lsb.
  rewrite !map_map. apply map_ext. intros i. f_equal.
  rewrite !map_map. apply map_ext_in. intros k Hk. apply in_seq in Hk.
  rewrite shl_one by lia. rewrite land_pow2. unfold bit_of.
  assert (0 < 2 ^ Z.of_nat k) by (apply Z.pow_pos_nonneg; lia).
  destruct (Z.testbit i (Z.of_nat k)); [destruct (Z.ltb_spec 0 (2 ^ Z.of_nat k)); [reflexivity|lia]|reflexivity].
Qed.

Lemma bits_lsb_S (n : nat) (i : Z) :
  bits_lsb (S n) i = bit_of i 0 :: bits_lsb n (i / 2).
Proof.
  unfold bits_lsb. simpl. f_equal.
  rewrite <- seq_shift, map_map. apply map_ext. intros k.
  unfold bit_of. rewrite Nat2Z.inj_succ, <- Z.div2_div, Z.div2_spec, Z.shiftr_spec by lia.
  rewrite Z.add_1_r. reflexivity.
Qed.

Lemma bits_lsb_length (n : nat) (i : Z) : length (bits_lsb n i) = n.
Proof. unfold bits_lsb. rewrite length_map, length_seq. reflexivity. Qed.

Lemma bit_of_is_bit (i : Z) (k : nat) : is_bit (bit_of i k).
Proof. unfold is_bit, bit_of. destruct (Z.testbit _ _); auto. Qed.

Lemma bits_lsb_are_bits (n : nat) (i : Z) : Forall is_bit (bits_lsb n i).
Proof.
  unfold bits_lsb. apply Forall_forall. intros b Hb.
  apply list_elem_of_In, in_map_iff in Hb as (k & <- & _). apply bit_of_is_bit.
Qed.

Lemma bit_of_0 (i : Z) : bit_of i 0 = i mod 2.
Proof.
  unfold bit_of. change (Z.of_nat 0) with 0. rewrite <- Z.bit0_mod.
  destruct (Z.testbit i 0); reflexivity.
Qed.

Lemma value_lsb_bits (n : nat) (i : Z) : value_lsb (bits_lsb n i) = i mod 2 ^ Z.of_nat n.
Proof.
  revert i. induction n as [|n IH]; intros i.
  - simpl. rewrite Z.mod_1_r. reflexivity.
  - rewrite bits_lsb_S. simpl value_lsb. rewrite IH, bit_of_0.
    rewrite Nat2Z.inj_succ, Z.pow_succ_r by lia.
    assert (0 < 2 ^ Z.of_nat n) by (apply Z.pow_pos_nonneg; lia).
    rewrite (Z.rem_mul_r i 2 (2 ^ Z.of_nat n)) by lia. reflexivity.
Qed.

Lemma value_lsb_bounds (l : list Z) :
  Forall is_bit l -> 0 <= value_lsb l < 2 ^ Z.of_nat (length l).
Proof.
  induction 1 as [|b l Hb _ IH]; simpl value_lsb.
  - simpl. lia.
  - rewrite length_cons, Nat2Z.inj_succ, Z.pow_succ_r by lia. destruct Hb; lia.
Qed.

Lemma bits_lsb_value (l : list Z) :
  Forall is_bit l -> bits_lsb (length l) (value_lsb l) = l.
Proof.
  induction 1 as [|b l Hb _ IH]; [reflexivity|].
  rewrite length_cons, bits_lsb_S. simpl value_lsb. f_equal.
  - rewrite bit_of_0. destruct Hb as [->| ->]; Z.div_mod_to_equations; lia.
  - replace ((b + 2 * value_lsb l) / 2) with (value_lsb l); [exact IH|].
    destruct Hb as [->| ->]; Z.div_mod_to_equations; lia.
Qed.

(** The weighted sum against ascending powers of two is the value, least
    significant bit first. *)
Lemma weighted_sum_lsb (l : list Z) (s : nat) :
  fold_right Z.add 0 (zip_with Z.mul l (map (fun k => 2 ^ Z.of_nat k) (seq s (length l))))
  = 2 ^ Z.of_nat s * value_lsb l.
Proof.
  revert s. induction l as [|b l IH]; intros s; simpl.
  - lia.
  - rewrite IH. rewrite Nat2Z.inj_succ, Z.pow_succ_r by lia. lia.
Qed.

Lemma zip_with_rev {A B C : Type} (f : A -> B -> C) (l : list A) (l' : list B) :
  length l = length l' ->
  zip_with f (rev l) (rev l') = rev (zip_with f l l').
Proof.
  revert l'. induction l as [|x l IH]; intros [|y l'] H; simpl in *; try lia; [reflexivity|].
  rewrite zip_with_app by (rewrite !length_rev; lia).
  rewrite IH by lia. reflexivity.
Qed.

Lemma sum_rev (l : list Z) : fold_right Z.add 0 (rev l) = fold_right Z.add 0 l.
Proof.
  induction l as [|x l IH]; [reflexivity|]. simpl.
  rewrite fold_right_app. simpl. rewrite <- IH.
  generalize (rev l). intros r. induction r as [|y r IHr]; simpl; lia.
Qed.

Lemma powers_of_two_desc_small (n : nat) :
  (n <= 63)%nat ->
  powers_of_two_desc n = rev (map (fun k => 2 ^ Z.of_nat k) (seq 0 n)).
Proof.
  intros Hn. unfold powers_of_two_desc, arange. f_equal.
  rewrite map_map. apply map_ext_in. intros k Hk. apply in_seq in Hk.
  unfold cast.
  assert (0 < 2 ^ Z.of_nat k) by (apply Z.pow_pos_nonneg; lia).
  assert (2 ^ Z.of_nat k <= 2 ^ 62) by (apply Z.pow_le_mono_r; lia).
  rewrite Z.mod_small; lia.
Qed.

(** [binary_to_index] reads its argument most significant bit first. *)
Lemma binary_to_index_msb (l : list Z) :
  (length l <= 63)%nat -> Forall is_bit l ->
  binary_to_index (rev l) = value_lsb l.
Proof.
  intros Hn Hbits. unfold binary_to_index, dotZ.
  rewrite length_rev, powers_of_two_desc_small by exact Hn.
  rewrite zip_with_rev by (rewrite length_map, length_seq; reflexivity).
  rewrite sum_rev, weighted_sum_lsb. simpl (2 ^ Z.of_nat 0).
  pose proof (value_lsb_bounds l Hbits) as Hb.
  assert (2 ^ Z.of_nat (length l) <= 2 ^ 63) by (apply Z.pow_le_mono_r; lia).
  unfold cast. rewrite Z.mod_small; lia.
Qed.

Lemma round_trip_index (n : nat) (i : Z) :
  (n <= 63)%nat -> 0 <= i < 2 ^ Z.of_nat n ->
  map binary_to_index (states_to_binary [i] n int64) = [i].
Proof.
  intros Hn Hi. rewrite states_to_binary_rows by exact Hn. simpl. f_equal.
  rewrite binary_to_index_msb.
  - rewrite value_lsb_bits. apply Z.mod_small. exact Hi.
  - rewrite bits_lsb_length. exact Hn.
  - apply bits_lsb_are_bits.
Qed.

Lemma round_trip_bits_lsb (l : list Z) :
  (length l <= 63)%nat -> Forall is_bit l ->
  states_to_binary [binary_to_index (rev l)] (length l) int64 = [rev l].
Proof.
  intros Hn Hbits. rewrite states_to_binary_rows by exact Hn. simpl. f_equal.
  rewrite binary_to_index_msb, bits_lsb_value by assumption. reflexivity.
Qed.

Lemma round_trip_bits (bits : list Z) :
  (length bits <= 63)%nat -> Forall is_bit bits ->
  states_to_binary [binary_to_index bits] (length bits) int64 = [bits].
Proof.
  intros Hn Hbits.
  assert (Hr : Forall is_bit (rev bits)).
  { apply Forall_forall. intros b Hb.
    apply list_elem_of_In, in_rev, list_elem_of_In in Hb.
    eapply Forall_forall in Hbits; eauto. }
  pose proof (round_trip_bits_lsb (rev bits)) as H.
  rewrite length_rev, rev_involutive in H. apply H; assumption.
Qed.

(** C8.  Round trip of the basis conversion: for at most ten wires, an
    index below [2^n] survives the conversion to a bit vector by
    [states_to_binary] (first wire most significant) and back by the
    big-endian weighting, and so does a vector of [n] bits the other way
    round. *)
Theorem basis_conversion_round_trip (n : nat) (Hn : (n <= 10)%nat) :
  (forall i : Z, 0 <= i < 2 ^ Z.of_nat n ->
     map binary_to_index (states_to_binary [i] n int64) = [i])
  /\ (forall bits : list Z, length bits = n -> Forall is_bit bits ->
        states_to_binary [binary_to_index bits] n int64 = [bits]).
Proof.
  split.
  - intros i Hi. apply round_trip_index; [lia|exact Hi].
  - intros bits <- Hbits. apply round_trip_bits; [lia|exact Hbits].
Qed.

Lemma basis_conversion_round_trip_witness :
  (3 <= 10)%nat
  /\ map binary_to_index (states_to_binary [5] 3 int64) = [5]
  /\ states_to_binary [binary_to_index [1; 0; 1]] 3 int64 = [[1; 0; 1]].
Proof.
  assert (H : (3 <= 10)%nat) by lia.
  split; [exact H|].
  destruct (basis_conversion_round_trip 3 H) as [H1 H2].
  split.
  - apply H1. lia.
  - apply H2; [reflexivity|]. repeat constructor; unfold is_bit; lia.
Defined.

(* ===================================================================== *)
(** * Counting occurrences *)
(* ===================================================================== *)

Section Occurrences.
Context {A : Type} `{EqDecision A}.

Lemma occurrences_cons (k x : A) (xs : list A) :
  occurrences k (x :: xs) = ((if decide (x = k) then 1 else 0) + occurrences k xs)%nat.
Proof.
  unfold occurrences. rewrite filter_cons.
  destruct (decide (x = k)); reflexivity.
Qed.

Lemma occurrences_not_in (k : A) (xs : list A) : k ∉ xs -> occurrences k xs = 0%nat.
Proof.
  induction xs as [|x xs IH]; intros Hk; [reflexivity|].
  rewrite occurrences_cons. apply not_elem_of_cons in Hk as [Hne Hk].
  destruct (decide (x = k)); [congruence|]. rewrite IH by exact Hk. reflexivity.
Qed.

(** How often [x] is met in a list without duplicates. *)
Lemma sum_indicator (x : A) (l : list A) :
  NoDup l -> x ∈ l ->
  sum_list_with (fun k => if decide (x = k) then 1%nat else 0%nat) l = 1%nat.
Proof.
  induction 1 as [|y l Hy Hnd IH]; intros Hx; [by apply elem_of_nil in Hx|].
  simpl. destruct (decide (x = y)) as [->|Hne].
  - assert (sum_list_with (fun k => if decide (y = k) then 1%nat else 0%nat) l = 0%nat) as ->;
      [|reflexivity].
    clear IH Hx Hnd. induction l as [|z l IHl]; [reflexivity|].
    simpl. apply not_elem_of_cons in Hy as [Hz Hy].
    destruct (decide (y = z)); [congruence|]. apply IHl. exact Hy.
  - apply elem_of_cons in Hx as [->|Hx]; [congruence|]. rewrite IH by exact Hx. reflexivity.
Qed.

(** The multiplicities of a family of distinct values that covers the list
    add up to its length. *)
Lemma sum_occurrences_cover (l : list A) (xs : list A) :
  NoDup l -> xs ⊆ l ->
  sum_list_with (fun k => occurrences k xs) l = length xs.
Proof.
  intros Hnd. induction xs as [|x xs IH]; intros Hsub.
  - clear. induction l as [|y l IHl]; [reflexivity|]. simpl. exact IHl.
  - assert (Hx : x ∈ l) by (apply Hsub; left).
    assert (Hxs : xs ⊆ l) by (intros y Hy; apply Hsub; right; exact Hy).
    specialize (IH Hxs). simpl length.
    pose proof (sum_indicator x l Hnd Hx) as Hone.
    transitivity (sum_list_with (fun k => if decide (x = k) then 1%nat else 0%nat) l
                  + sum_list_with (fun k => occurrences k xs) l)%nat; [|lia].
    clear. induction l as [|y l IHl]; [reflexivity|]. simpl.
    rewrite occurrences_cons, IHl. lia.
Qed.

End Occurrences.

(* ===================================================================== *)
(** * Exact arithmetic *)
(* ===================================================================== *)

Lemma Qc_of_nat_add (a b : nat) : Qc_of_nat (a + b) = (Qc_of_nat a + Qc_of_nat b)%Qc.
Proof. unfold Qc_of_nat. rewrite Nat2Z.inj_add. apply Z2Qc_inj_add. Qed.

Lemma Qc_of_nat_0 : Qc_of_nat 0 = 0%Qc.
Proof. apply Z2Qc_inj_0. Qed.

Lemma Qc_of_nat_nonzero (n : nat) : n <> 0%nat -> Qc_of_nat n <> 0%Qc.
Proof.
  intros Hn H. unfold Qc_of_nat in H. rewrite <- Z2Qc_inj_0 in H.
  apply Z2Qc_inj in H. lia.
Qed.

Lemma Qcdiv_0_l (x : Qc) : (0 / x = 0)%Qc.
Proof. unfold Qcdiv. apply Qcmult_0_l. Qed.





(* ===================================================================== *)
(** * Histograms of basis indices *)
(* ===================================================================== *)

Lemma setitemZ_in_range {A : Type} (l : list A) (i : Z) (x : A) :
  in_range (length l) i -> setitemZ l i x = Ok (<[Z.to_nat i := x]> l).
Proof.
  intros [H0 H1]. unfold setitemZ.
  destruct (Z.leb_spec 0 i); [|lia]. destruct (Z.ltb_spec i (Z.of_nat (length l))); [|lia].
  reflexivity.
Qed.

Lemma getitemZ_in_range {A : Type} (l : list A) (i : Z) (d : A) :
  in_range (length l) i -> getitemZ l i = Ok (nth (Z.to_nat i) l d).
Proof.
  intros [H0 H1]. unfold getitemZ.
  destruct (Z.leb_spec 0 i); [|lia]. destruct (Z.ltb_spec i (Z.of_nat (length l))); [|lia].
  simpl. apply getitem_ok. lia.
Qed.

Lemma repeat_replicate {A : Type} (x : A) (n : nat) : repeat x n = replicate n x.
Proof. induction n as [|n IH]; simpl; [reflexivity|]. rewrite IH. reflexivity. Qed.

Lemma Forall_remove_dups {A : Type} `{EqDecision A} (P : A -> Prop) (l : list A) :
  Forall P l -> Forall P (remove_dups l).
Proof.
  rewrite !Forall_forall. intros H x Hx. apply H. apply elem_of_remove_dups. exact Hx.
Qed.

Lemma write_all_length (g : Z -> Qc) (ks : list Z) (p : list Qc) :
  length (write_all g ks p) = length p.
Proof.
  unfold write_all. revert p. induction ks as [|k ks IH]; intros p; [reflexivity|].
  simpl. rewrite IH, length_insert. reflexivity.
Qed.

Lemma write_all_lookup (g : Z -> Qc) (ks : list Z) (p : list Qc) (j : nat) :
  NoDup ks -> Forall (in_range (length p)) ks -> (j < length p)%nat ->
  write_all g ks p !! j
  = if decide (Z.of_nat j ∈ ks) then Some (g (Z.of_nat j)) else p !! j.
Proof.
  unfold write_all. intros Hnd. revert p.
  induction Hnd as [|k ks Hk Hnd IH]; intros p Hr Hj.
  - cbn [fold_left]. case_decide as H; [by apply elem_of_nil in H|reflexivity].
  - apply Forall_cons in Hr as [[Hk0 Hk1] Hr]. cbn [fold_left].
    rewrite IH by (rewrite ?length_insert; assumption).
    destruct (decide (Z.of_nat j = k)) as [<-|Hne].
    + destruct (decide (Z.of_nat j ∈ ks)); [contradiction|].
      destruct (decide (Z.of_nat j ∈ Z.of_nat j :: ks)) as [_|H]; [|exfalso; apply H; left].
      rewrite Nat2Z.id. apply list_lookup_insert_eq. exact Hj.
    + destruct (decide (Z.of_nat j ∈ ks)) as [Hin|Hnin].
      * destruct (decide (Z.of_nat j ∈ k :: ks)) as [_|H]; [reflexivity|].
        exfalso. apply H. right. exact Hin.
      * destruct (decide (Z.of_nat j ∈ k :: ks)) as [H|_].
        { apply elem_of_cons in H as [?|?]; congruence. }
        apply list_lookup_insert_ne. lia.
Qed.

(** The loop of [_count_unbinned_samples] writes in place. *)
Lemma count_loop (n : nat) (f : Z -> nat) (ks : list Z) (p : list Qc) :
  Forall (in_range (length p)) ks ->
  fold_left
    (fun acc entry =>
       let! prob := acc in
       setitemZ prob (fst entry) (true_divide (snd entry) n))
    (map (fun k => (k, f k)) ks) (Ok p)
  = Ok (write_all (fun k => true_divide (f k) n) ks p).
Proof.
  revert p. induction ks as [|k ks IH]; intros p Hr; [reflexivity|].
  apply Forall_cons in Hr as [Hk Hr]. simpl.
  rewrite setitemZ_in_range by exact Hk.
  rewrite IH by (rewrite length_insert; exact Hr). reflexivity.
Qed.

Lemma true_divide_0 (n : nat) : true_divide 0 n = 0%Qc.
Proof. unfold true_divide. rewrite Qc_of_nat_0, Qcdiv_0_l. apply round_float_0. Qed.

Lemma freq_vector_length (n : nat) (idx : list Z) (dim : nat) :
  length (freq_vector n idx dim) = dim.
Proof. unfold freq_vector, arange. rewrite !length_map, length_seq. reflexivity. Qed.

Lemma freq_vector_lookup (n : nat) (idx : list Z) (dim j : nat) :
  (j < dim)%nat ->
  freq_vector n idx dim !! j = Some (true_divide (occurrences (Z.of_nat j) idx) n).
Proof.
  intros Hj. unfold freq_vector, arange.
  change (map ?f ?l) with (f <$> l).
  rewrite !list_lookup_fmap, lookup_seq_lt by exact Hj. reflexivity.
Qed.

(** Writing the counts of the distinct values of [idx] into a zero vector
    gives the relative frequencies. *)
Lemma write_counts (n : nat) (idx : list Z) (dim : nat) :
  Forall (in_range dim) idx ->
  write_all (fun k => true_divide (occurrences k idx) n) (remove_dups idx)
            (repeat 0%Qc dim)
  = freq_vector n idx dim.
Proof.
  intros Hr. apply list_eq. intros j.
  destruct (decide (j < dim)%nat) as [Hj|Hj].
  - rewrite write_all_lookup.
    + rewrite freq_vector_lookup by exact Hj.
      destruct (decide (Z.of_nat j ∈ remove_dups idx)) as [_|Hnin]; [reflexivity|].
      rewrite elem_of_remove_dups in Hnin.
      rewrite occurrences_not_in by exact Hnin.
      rewrite true_divide_0.
      rewrite repeat_replicate. apply lookup_replicate_2. exact Hj.
    + apply NoDup_remove_dups.
    + rewrite repeat_length. apply Forall_remove_dups. exact Hr.
    + rewrite repeat_length. exact Hj.
  - rewrite !lookup_ge_None_2; [reflexivity| |].
    + rewrite freq_vector_length. lia.
    + rewrite write_all_length, repeat_length. lia.
Qed.

Lemma count_unbinned_samples_ok (indices : list Z) (dim : nat) :
  Forall (in_range dim) indices ->
  _count_unbinned_samples indices dim
  = Ok (freq_vector (length indices) indices dim).
Proof.
  intros Hr. unfold _count_unbinned_samples, np_unique.
  rewrite (count_loop _ (fun k => occurrences k indices)).
  - rewrite write_counts by exact Hr. reflexivity.
  - rewrite repeat_length. apply Forall_remove_dups. exact Hr.
Qed.



(** ** Binned histograms *)

Lemma col_insert (b i : nat) (r : list Qc) (m : list (list Qc)) :
  col b (<[i := r]> m) = <[i := nth b r 0%Qc]> (col b m).
Proof. unfold col. apply (list_fmap_insert (fun row => nth b row 0%Qc)). Qed.

Lemma nth_insert_eq (b : nat) (x : Qc) (row : list Qc) :
  (b < length row)%nat -> nth b (<[b := x]> row) 0%Qc = x.
Proof. intros Hb. rewrite nth_lookup, list_lookup_insert_eq by exact Hb. reflexivity. Qed.

Lemma nth_insert_ne (b b' : nat) (x : Qc) (row : list Qc) :
  b' <> b -> nth b' (<[b := x]> row) 0%Qc = nth b' row 0%Qc.
Proof. intros Hb. rewrite !nth_lookup, list_lookup_insert_ne by congruence. reflexivity. Qed.

Lemma col_lookup (b i : nat) (m : list (list Qc)) (row : list Qc) :
  m !! i = Some row -> col b m !! i = Some (nth b row 0%Qc).
Proof.
  intros H. unfold col. change (map ?f ?l) with (f <$> l).
  rewrite list_lookup_fmap, H. reflexivity.
Qed.

Lemma shape_insert (dim nb i : nat) (r : list Qc) (m : list (list Qc)) :
  shape dim nb m -> length r = nb -> shape dim nb (<[i := r]> m).
Proof.
  intros [Hl Hr] Hlen. split; [rewrite length_insert; exact Hl|].
  apply Forall_insert; assumption.
Qed.

Lemma setitem2_ok (dim nb : nat) (m : list (list Qc)) (k : Z) (b : nat) (x : Qc) :
  shape dim nb m -> in_range dim k -> (b < nb)%nat ->
  exists m', setitem2 m k b x = Ok m'
             /\ shape dim nb m'
             /\ col b m' = <[Z.to_nat k := x]> (col b m)
             /\ (forall b', b' <> b -> col b' m' = col b' m).
Proof.
  intros Hs Hk Hb. destruct Hs as [Hl Hrows].
  assert (Hk' : in_range (length m) k) by (rewrite Hl; exact Hk).
  destruct (lookup_lt_is_Some_2 m (Z.to_nat k)) as [row Hrow];
    [destruct Hk'; lia|].
  assert (Hlen : length row = nb).
  { rewrite Forall_forall in Hrows. apply Hrows. eapply list_elem_of_lookup_2. exact Hrow. }
  exists (<[Z.to_nat k := <[b := x]> row]> m).
  unfold setitem2. rewrite (getitemZ_in_range m k []) by exact Hk'. simpl.
  rewrite (nth_lookup_Some _ _ _ _ Hrow).
  destruct (Nat.ltb_spec b (length row)) as [_|]; [|lia].
  rewrite setitemZ_in_range by exact Hk'.
  split; [reflexivity|]. split; [|split].
  - apply shape_insert; [split; assumption|]. rewrite length_insert. exact Hlen.
  - rewrite col_insert, nth_insert_eq by lia. reflexivity.
  - intros b' Hb'. rewrite col_insert, nth_insert_ne by exact Hb'.
    apply list_insert_id. apply col_lookup. exact Hrow.
Qed.

(** The inner loop of [_count_binned_samples] writes column [b] in place and
    leaves the other columns alone. *)
Lemma bin_loop (n : nat) (f : Z -> nat) (dim nb b : nat) (ks : list Z)
    (m : list (list Qc)) :
  shape dim nb m -> Forall (in_range dim) ks -> (b < nb)%nat ->
  exists m',
    fold_left
      (fun acc' uc =>
         let! prob := acc' in
         setitem2 prob (fst uc) b (true_divide (snd uc) n))
      (map (fun k => (k, f k)) ks) (Ok m) = Ok m'
    /\ shape dim nb m'
    /\ col b m' = write_all (fun k => true_divide (f k) n) ks (col b m)
    /\ (forall b', b' <> b -> col b' m' = col b' m).
Proof.
  intros Hs Hr Hb. revert m Hs. induction ks as [|k ks IH]; intros m Hs.
  - exists m. repeat split; try apply Hs; reflexivity.
  - apply Forall_cons in Hr as [Hk Hr].
    destruct (setitem2_ok dim nb m k b (true_divide (f k) n) Hs Hk Hb)
      as (m1 & E1 & Hs1 & Hc1 & Ho1).
    destruct (IH Hr m1 Hs1) as (m' & E' & Hs' & Hc' & Ho').
    exists m'. cbn [map fold_left fst snd bind]. rewrite E1.
    split; [exact E'|]. split; [exact Hs'|]. split.
    + rewrite Hc', Hc1. reflexivity.
    + intros b' Hb'. rewrite Ho', Ho1 by exact Hb'. reflexivity.
Qed.

Lemma col_zero (dim nb b : nat) : col b (repeat (repeat 0%Qc nb) dim) = repeat 0%Qc dim.
Proof.
  unfold col. induction dim as [|dim IH]; [reflexivity|].
  simpl. rewrite IH. f_equal. apply nth_repeat.
Qed.

Lemma shape_zero (dim nb : nat) : shape dim nb (repeat (repeat 0%Qc nb) dim).
Proof.
  split; [apply repeat_length|].
  apply Forall_forall. intros row Hrow.
  apply list_elem_of_In, repeat_spec in Hrow. subst. apply repeat_length.
Qed.

(** The outer loop over the bins, numbered from [s]. *)
Lemma bins_loop (bin_size dim nb : nat) (bins : list (list Z)) (s : nat)
    (m : list (list Qc)) :
  shape dim nb m ->
  Forall (Forall (in_range dim)) bins ->
  (s + length bins <= nb)%nat ->
  (forall b, (s <= b)%nat -> col b m = repeat 0%Qc dim) ->
  exists m',
    fold_left
      (fun acc entry =>
         let b := fst entry in
         let idx := snd entry in
         fold_left
           (fun acc' uc =>
              let! prob := acc' in
              setitem2 prob (fst uc) b (true_divide (snd uc) bin_size))
           (np_unique idx) acc)
      (combine (seq s (length bins)) bins) (Ok m) = Ok m'
    /\ shape dim nb m'
    /\ (forall b, (b < s)%nat -> col b m' = col b m)
    /\ (forall j idx, bins !! j = Some idx ->
          col (s + j) m' = freq_vector bin_size idx dim).
Proof.
  intros Hs Hr. revert s m Hs.
  induction Hr as [|idx bins Hidx Hr IH]; intros s m Hs Hlen Hzero.
  - exists m. split; [reflexivity|]. split; [exact Hs|]. split; [reflexivity|].
    intros j idx Hj. rewrite lookup_nil in Hj. discriminate.
  - simpl in Hlen.
    destruct (bin_loop bin_size (fun k => occurrences k idx) dim nb s
                       (remove_dups idx) m Hs (Forall_remove_dups _ _ Hidx))
      as (m1 & E1 & Hs1 & Hc1 & Ho1); [lia|].
    destruct (IH (S s) m1 Hs1) as (m' & E' & Hs' & Hlow & Hcols); [lia| |].
    { intros b Hb. rewrite Ho1 by lia. apply Hzero. lia. }
    exists m'. split.
    + cbn [length seq combine fold_left]. cbv beta zeta. cbn [fst snd].
      unfold np_unique. rewrite E1. exact E'.
    + split; [exact Hs'|]. split.
      * intros b Hb. rewrite Hlow by lia. apply Ho1. lia.
      * intros [|j] idx' Hj.
        { simpl in Hj. injection Hj as <-. rewrite Nat.add_0_r, Hlow by lia.
          rewrite Hc1, Hzero by lia. apply write_counts. exact Hidx. }
        { simpl in Hj. rewrite <- Nat.add_succ_comm. apply Hcols. exact Hj. }
Qed.

(** ** Reshaping into bins *)

Lemma chunks_length {A : Type} (n w : nat) (xs : list A) : length (chunks n w xs) = n.
Proof. revert xs. induction n as [|n IH]; intros xs; simpl; [reflexivity|]. rewrite IH. reflexivity. Qed.

Lemma chunks_Forall {A : Type} (P : A -> Prop) (n w : nat) (xs : list A) :
  Forall P xs -> Forall (Forall P) (chunks n w xs).
Proof.
  revert xs. induction n as [|n IH]; intros xs H; simpl; constructor.
  - apply Forall_take. exact H.
  - apply IH. apply Forall_drop. exact H.
Qed.

Lemma chunks_widths {A : Type} (n w : nat) (xs : list A) :
  length xs = (n * w)%nat -> Forall (fun c => length c = w) (chunks n w xs).
Proof.
  revert xs. induction n as [|n IH]; intros xs H; simpl; constructor.
  - rewrite length_take. lia.
  - apply IH. rewrite length_drop. lia.
Qed.

Lemma count_binned_samples_ok (indices : list Z) (dim bin_size num_bins : nat) :
  Forall (in_range dim) indices ->
  length indices = (num_bins * bin_size)%nat ->
  exists m, _count_binned_samples indices dim bin_size num_bins = Ok m
            /\ shape dim num_bins m
            /\ (forall b idx, chunks num_bins bin_size indices !! b = Some idx ->
                  col b m = freq_vector bin_size idx dim).
Proof.
  intros Hr Hlen. unfold _count_binned_samples, reshape_rows.
  rewrite Hlen, Nat.eqb_refl. cbn [bind].
  destruct (bins_loop bin_size dim num_bins (chunks num_bins bin_size indices) 0
                      (repeat (repeat 0%Qc num_bins) dim))
    as (m & E & Hs & _ & Hcols).
  - apply shape_zero.
  - apply chunks_Forall. exact Hr.
  - rewrite chunks_length. lia.
  - intros b _. apply col_zero.
  - exists m. split; [exact E|]. split; [exact Hs|]. exact Hcols.
Qed.

(* ===================================================================== *)
(** * Estimated probabilities *)
(* ===================================================================== *)

Lemma Wires_ok (ws : list wire) : NoDup ws -> Wires ws = Ok ws.
Proof. intros H. unfold Wires. destruct (decide (NoDup ws)); [reflexivity|contradiction]. Qed.

Lemma registry_position_lt (registry : list wire) (w : wire) :
  w ∈ registry -> (registry_position registry w < length registry)%nat.
Proof.
  intros Hw. destruct (wire_index_In w registry Hw) as [i Hi].
  unfold registry_position. rewrite Hi. simpl. eapply wire_index_lt. exact Hi.
Qed.

Lemma take_columns_ok (n : nat) (rows : list (list Z)) (cols : list nat) :
  Forall (fun row => length row = n) rows ->
  Forall (fun c => (c < n)%nat) cols ->
  take_columns rows cols = Ok (map (fun row => map (fun c => nth c row 0) cols) rows).
Proof.
  intros Hrows Hcols. unfold take_columns. apply mapR_ok.
  intros row Hrow. apply mapR_ok. intros c Hc. apply getitem_ok.
  rewrite Forall_forall in Hrows. rewrite Forall_forall in Hcols.
  rewrite (Hrows row Hrow). apply Hcols. exact Hc.
Qed.

Lemma is_bit_nth (row : list Z) (c : nat) : Forall is_bit row -> is_bit (nth c row 0).
Proof.
  intros H. destruct (nth_in_or_default c row 0) as [Hin| ->]; [|left; reflexivity].
  rewrite Forall_forall in H. apply H, list_elem_of_In, Hin.
Qed.

Lemma restrict_sample_bits (registry ws : list wire) (row : list Z) :
  Forall is_bit row -> Forall is_bit (restrict_sample registry ws row).
Proof.
  intros H. unfold restrict_sample. apply Forall_forall. intros b Hb.
  apply list_elem_of_In, in_map_iff in Hb as (w & <- & _). apply is_bit_nth. exact H.
Qed.

Lemma binary_to_index_range (bits : list Z) :
  (length bits <= 63)%nat -> Forall is_bit bits ->
  in_range (2 ^ length bits) (binary_to_index bits).
Proof.
  intros Hn Hbits.
  assert (Hr : Forall is_bit (rev bits)).
  { apply Forall_forall. intros b Hb.
    apply list_elem_of_In, in_rev, list_elem_of_In in Hb.
    rewrite Forall_forall in Hbits. auto. }
  pose proof (binary_to_index_msb (rev bits)) as H.
  rewrite rev_involutive, length_rev in H. rewrite H by assumption.
  pose proof (value_lsb_bounds (rev bits) Hr) as Hb. rewrite length_rev in Hb.
  unfold in_range. rewrite Nat2Z.inj_pow. exact Hb.
Qed.

Lemma basis_indices_range (registry ws : list wire) (rows : list (list Z)) (n : nat) :
  (length ws <= 63)%nat -> well_formed_buffer n rows ->
  Forall (in_range (2 ^ length ws)) (basis_indices registry ws rows).
Proof.
  intros Hn Hwf. unfold basis_indices. apply Forall_forall. intros i Hi.
  apply list_elem_of_In, in_map_iff in Hi as (row & <- & Hrow).
  unfold well_formed_buffer in Hwf. rewrite Forall_forall in Hwf.
  destruct (Hwf row) as [_ Hbits]; [apply list_elem_of_In, Hrow|].
  pose proof (binary_to_index_range (restrict_sample registry ws row)) as H.
  assert (Hl : length (restrict_sample registry ws row) = length ws)
    by (unfold restrict_sample; apply length_map).
  rewrite Hl in H. apply H; [exact Hn|]. apply restrict_sample_bits. exact Hbits.
Qed.

Section Estimate.
Context {K : Type} (self : QubitDevice K).

(** The indices that [estimate_probability] derives from the buffer. *)
Lemma estimate_probability_unfold (wires_arg : option (list wire))
    (shot_range : option (nat * nat)) (bin_size : option nat) (rows : list (list Z)) :
  let ws := wires_or wires_arg (wires self) in
  NoDup ws -> ws ⊆ wires self ->
  selected_samples self shot_range = Ok rows ->
  well_formed_buffer (num_wires self) rows ->
  estimate_probability self wires_arg shot_range bin_size
  = let indices := basis_indices (wires self) ws rows in
    let dim := (2 ^ length ws)%nat in
    match bin_size with
    | Some bin_size =>
        if (bin_size =? 0)%nat then Err ZeroDivisionError else
        let! prob := _count_binned_samples indices dim bin_size (length rows / bin_size) in
        Ok (asarray (Matrix prob) (R_DTYPE self))
    | None =>
        let! prob := _count_unbinned_samples indices dim in
        Ok (asarray (Vector prob) (R_DTYPE self))
    end.
Proof.
  intros ws Hnd Hsub Hsel Hwf. unfold estimate_probability. fold ws.
  rewrite Wires_ok by exact Hnd. cbn [bind].
  rewrite map_wires_ok by exact Hsub. cbn [bind].
  rewrite Hsel. cbn [bind].
  rewrite (take_columns_ok (num_wires self)).
  - cbn [bind]. unfold spec_mapped. rewrite !length_map.
    assert (Hidx : map (fun row => dotZ row (powers_of_two_desc (length ws)))
                       (map (fun row => map (fun c => nth c row 0)
                                            (map (registry_position (wires self)) ws)) rows)
                   = basis_indices (wires self) ws rows).
    { unfold basis_indices, binary_to_index, restrict_sample. rewrite map_map.
      apply map_ext. intros row. rewrite !map_map, length_map. reflexivity. }
    rewrite Hidx. reflexivity.
  - unfold well_formed_buffer in Hwf. eapply Forall_impl; [exact Hwf|]. intros row [H _]. exact H.
  - unfold spec_mapped. apply Forall_forall. intros c Hc.
    apply list_elem_of_In, in_map_iff in Hc as (w & <- & Hw).
    apply registry_position_lt, Hsub, list_elem_of_In, Hw.
Qed.

End Estimate.


(** ** Rounded relative frequencies *)

Lemma this_Qc_of_nat (n : nat) : (this (Qc_of_nat n) == inject_Z (Z.of_nat n))%Q.
Proof. reflexivity. Qed.

Lemma this_Qcdiv (a b : Qc) : (this (a / b)%Qc == this a / this b)%Q.
Proof.
  unfold Qcdiv, Qcmult, Qcinv. cbn [this Q2Qc].
  rewrite Qred_correct, Qred_correct. reflexivity.
Qed.



Lemma this_Qcmult (a b : Qc) : (this (a * b)%Qc == this a * this b)%Q.
Proof. exact (Qred_correct _). Qed.








Section Frequencies.

Variables (d : float_dtype) (idx : list Z) (dim : nat).
Hypothesis in_dim : Forall (in_range dim) idx.

Lemma rounded_frequencies_length (n : nat) : length (rounded_frequencies d n idx dim) = dim.
Proof. unfold rounded_frequencies. rewrite length_map. apply freq_vector_length. Qed.

Lemma rounded_frequencies_lookup (n k : nat) :
  (k < dim)%nat ->
  rounded_frequencies d n idx dim !! k
  = Some (round_float d (true_divide (occurrences (Z.of_nat k) idx) n)).
Proof.
  intros Hk. unfold rounded_frequencies. change (map ?f ?l) with (f <$> l).
  rewrite list_lookup_fmap, freq_vector_lookup by exact Hk. reflexivity.
Qed.






End Frequencies.




Lemma shape_cast (d : float_dtype) (dim nb : nat) (m : list (list Qc)) :
  shape dim nb m -> shape dim nb (map (map (round_float d)) m).
Proof.
  intros [Hl Hr]. split; [rewrite length_map; exact Hl|].
  apply Forall_forall. intros row Hrow.
  apply list_elem_of_In, in_map_iff in Hrow as (r & <- & Hin).
  rewrite length_map. rewrite Forall_forall in Hr. apply Hr, list_elem_of_In, Hin.
Qed.




(* ===================================================================== *)
(** * Marginal probabilities *)
(* ===================================================================== *)

Lemma wires_or_registry (registry : list wire) :
  wires_or None registry = registry
  /\ wires_or (Some []) registry = registry
  /\ wires_or (Some registry) registry = registry.
Proof. repeat split; destruct registry; reflexivity. Qed.

(** [probability] and [estimate_probability] treat a [wires] argument that
    is [None] or an empty collection as a request for every wire of the
    Device Wire Registry. *)
Lemma probability_wires_or {K O : Type} `{!Kernel K O}
    (self : QubitDevice K) (shot_range : option (nat * nat)) (bin_size : option nat) :
  probability self None shot_range bin_size
    = probability self (Some (wires self)) shot_range bin_size
  /\ probability self (Some []) shot_range bin_size
    = probability self (Some (wires self)) shot_range bin_size
  /\ estimate_probability self None shot_range bin_size
    = estimate_probability self (Some (wires self)) shot_range bin_size
  /\ estimate_probability self (Some []) shot_range bin_size
    = estimate_probability self (Some (wires self)) shot_range bin_size.
Proof.
  destruct (wires_or_registry (wires self)) as (H1 & H2 & H3).
  unfold probability, estimate_probability.
  rewrite H1, H2. repeat rewrite H3. repeat split; reflexivity.
Qed.

(** ** Summing out axes *)

Lemma reduce_sum_length (n axis : nat) (inactive : list nat) (prob : list Qc) :
  length prob = (2 ^ n)%nat ->
  length (reduce_sum n axis inactive prob)
  = (2 ^ length (filter (fun a => a ∉ inactive) (seq axis n)))%nat.
Proof.
  revert axis prob. induction n as [|n IH]; intros axis prob Hlen.
  - simpl. exact Hlen.
  - cbn [reduce_sum seq]. rewrite Hlen, Nat.pow_succ_r'.
    replace (2 * 2 ^ n / 2)%nat with (2 ^ n)%nat by (rewrite Nat.mul_comm, Nat.div_mul; lia).
    assert (Hlo : length (firstn (2 ^ n) prob) = (2 ^ n)%nat)
      by (rewrite length_firstn, Hlen, Nat.pow_succ_r'; lia).
    assert (Hhi : length (skipn (2 ^ n) prob) = (2 ^ n)%nat)
      by (rewrite length_skipn, Hlen, Nat.pow_succ_r'; lia).
    rewrite filter_cons.
    destruct (decide (axis ∈ inactive)) as [Hin|Hnin].
    + destruct (decide (axis ∉ inactive)); [contradiction|].
      rewrite length_zip_with, !IH by assumption. lia.
    + destruct (decide (axis ∉ inactive)); [|contradiction].
      rewrite length_app, !IH by assumption. cbn [length]. rewrite Nat.pow_succ_r'. lia.
Qed.

Lemma reduce_sum_nothing (n axis : nat) (prob : list Qc) :
  reduce_sum n axis [] prob = prob.
Proof.
  revert axis prob. induction n as [|n IH]; intros axis prob; [reflexivity|].
  cbn [reduce_sum]. destruct (decide (axis ∈ [])) as [H|_]; [by apply elem_of_nil in H|].
  rewrite !IH. apply firstn_skipn.
Qed.

(** ** The registry without duplicates *)

Lemma wire_index_lookup (registry : list wire) (i : nat) (w : wire) :
  NoDup registry -> registry !! i = Some w -> wire_index w registry = Some i.
Proof.
  intros Hnd. revert i. induction Hnd as [|w' r Hw' Hnd IH]; intros i Hi.
  - rewrite lookup_nil in Hi. discriminate.
  - simpl. destruct i as [|i]; simpl in Hi.
    + injection Hi as ->. destruct (decide (w = w)); [reflexivity|congruence].
    + destruct (decide (w = w')) as [->|_].
      * exfalso. apply Hw'. eapply list_elem_of_lookup_2. exact Hi.
      * rewrite (IH i Hi). reflexivity.
Qed.

Lemma wire_index_inj (registry : list wire) (w w' : wire) (i : nat) :
  wire_index w registry = Some i -> wire_index w' registry = Some i -> w = w'.
Proof.
  intros H H'. apply wire_index_nth in H. apply wire_index_nth in H'. congruence.
Qed.

Lemma registry_position_inj (registry : list wire) (w w' : wire) :
  w ∈ registry -> w' ∈ registry ->
  registry_position registry w = registry_position registry w' -> w = w'.
Proof.
  intros Hw Hw' E. destruct (wire_index_In w registry Hw) as [i Hi].
  destruct (wire_index_In w' registry Hw') as [i' Hi'].
  unfold registry_position in E. rewrite Hi, Hi' in E. simpl in E. subst i'.
  eapply wire_index_inj; eassumption.
Qed.

(** The axes that stay after summing out every wire but those of [ws]. *)
Lemma active_axes (registry ws : list wire) (a : nat) :
  NoDup registry -> ws ⊆ registry ->
  (a < length registry)%nat ->
  a ∉ spec_mapped registry (unique_wires registry ws)
  <-> a ∈ spec_mapped registry ws.
Proof.
  intros Hnd Hsub Ha.
  destruct (lookup_lt_is_Some_2 registry a Ha) as [w Hw].
  pose proof (wire_index_lookup registry a w Hnd Hw) as Hidx.
  assert (Hpos : registry_position registry w = a)
    by (unfold registry_position; rewrite Hidx; reflexivity).
  assert (Hwin : w ∈ registry) by (eapply list_elem_of_lookup_2; exact Hw).
  assert (Huniq : unique_wires registry ws = filter (fun w => w ∉ ws) registry).
  { unfold unique_wires.
    assert (filter (fun w => w ∉ registry) ws = []) as ->; [|apply app_nil_r].
    clear -Hsub. induction ws as [|x ws IH]; [reflexivity|].
    rewrite filter_cons. destruct (decide (x ∉ registry)) as [Hx|_].
    - exfalso. apply Hx, Hsub. left.
    - apply IH. intros y Hy. apply Hsub. right. exact Hy. }
  rewrite Huniq. unfold spec_mapped. split.
  - intros Hnin. destruct (decide (w ∈ ws)) as [Hin|Hout].
    + apply list_elem_of_In, in_map_iff. exists w. split; [exact Hpos|].
      apply list_elem_of_In. exact Hin.
    + exfalso. apply Hnin. apply list_elem_of_In, in_map_iff. exists w.
      split; [exact Hpos|]. apply list_elem_of_In, list_elem_of_filter. split; assumption.
  - intros Hin Hbad.
    apply list_elem_of_In, in_map_iff in Hin as (w1 & E1 & Hw1).
    apply list_elem_of_In, in_map_iff in Hbad as (w2 & E2 & Hw2).
    apply list_elem_of_In in Hw1. apply list_elem_of_In, list_elem_of_filter in Hw2 as [Hw2 Hw2'].
    assert (w1 = w2).
    { apply (registry_position_inj registry); [apply Hsub; exact Hw1|exact Hw2'|congruence]. }
    subst. contradiction.
Qed.

Lemma spec_mapped_NoDup (registry ws : list wire) :
  NoDup ws -> ws ⊆ registry -> NoDup (spec_mapped registry ws).
Proof.
  intros Hnd Hsub. unfold spec_mapped.
  apply (NoDup_fmap_2_strong (registry_position registry)); [|exact Hnd].
  intros w w' Hw Hw' E. apply (registry_position_inj registry); auto.
Qed.

Lemma unique_wires_subset (registry ws : list wire) :
  ws ⊆ registry -> unique_wires registry ws ⊆ registry.
Proof.
  intros Hsub w Hw. unfold unique_wires in Hw.
  apply elem_of_app in Hw as [Hw|Hw]; apply list_elem_of_filter in Hw as [H1 H2]; auto.
Qed.

(** Summing out the complement of [ws] leaves [2^|ws|] entries. *)
Lemma marginal_length (registry ws : list wire) (prob : list Qc) :
  NoDup registry -> NoDup ws -> ws ⊆ registry ->
  length prob = (2 ^ length registry)%nat ->
  length (reduce_sum (length registry) 0
                     (spec_mapped registry (unique_wires registry ws)) prob)
  = (2 ^ length ws)%nat.
Proof.
  intros Hnd Hws Hsub Hlen. rewrite reduce_sum_length by exact Hlen. f_equal.
  transitivity (length (spec_mapped registry ws));
    [|unfold spec_mapped; apply length_map].
  apply Permutation_length, NoDup_Permutation.
  - apply NoDup_filter, NoDup_seq.
  - apply spec_mapped_NoDup; assumption.
  - intros a. rewrite list_elem_of_filter, elem_of_seq. split.
    + intros [Hnin Ha]. apply active_axes in Hnin; [exact Hnin|assumption..|lia].
    + intros Hin.
      assert (Ha : (a < length registry)%nat).
      { unfold spec_mapped in Hin. apply list_elem_of_In, in_map_iff in Hin as (w & <- & Hw).
        apply registry_position_lt, Hsub, list_elem_of_In, Hw. }
      split; [|lia]. apply active_axes; assumption.
Qed.

(* ===================================================================== *)
(** * Expectation values of two-wire tensor products *)
(* ===================================================================== *)







Section TwoWires.
Context {K O : Type} `{!Kernel K O} (self : QubitDevice K).
Context (u v : wire) (prob : list Qc).
Hypothesis registry_NoDup : NoDup (wires self).
Hypothesis u_registered : u ∈ wires self.
Hypothesis v_registered : v ∈ wires self.
Hypothesis u_v_distinct : u <> v.
Hypothesis prob_length : length prob = (2 ^ num_wires self)%nat.





End TwoWires.

Section WireOrder.
Context {K O : Type} `{!Kernel K O} (self : QubitDevice K).
Context (u v : wire) (prob : list Qc) (A B : operator) (a0 a1 b0 b1 : Qc).
Hypothesis analytic : shots self = None.
Hypothesis registry_NoDup : NoDup (wires self).
Hypothesis u_registered : u ∈ wires self.
Hypothesis v_registered : v ∈ wires self.
Hypothesis u_v_distinct : u <> v.
Hypothesis kernel_prob : kernel_probability (kernel self) = Ok prob.
Hypothesis prob_length : length prob = (2 ^ num_wires self)%nat.
Hypothesis A_wires : op_wires A = [u].
Hypothesis B_wires : op_wires B = [v].
Hypothesis A_eigvals : op_eigvals A = Some [a0; a1].
Hypothesis B_eigvals : op_eigvals B = Some [b0; b1].


End WireOrder.

Section Invariance.
Context {K O : Type} `{!Kernel K O} (self : QubitDevice K).


End Invariance.


(* ===================================================================== *)
(** * The order of the entries of a marginal *)
(* ===================================================================== *)

(** Two lists of exact numbers are equal when their underlying fractions
    are. *)
Lemma Qc_list_eq (l1 l2 : list Qc) : map this l1 = map this l2 -> l1 = l2.
Proof.
  revert l2. induction l1 as [|x l1 IH]; intros [|y l2] H; simpl in H; try discriminate.
  - reflexivity.
  - injection H as Hx Hl. f_equal; [|apply IH; exact Hl].
    apply Qc_is_canon. rewrite Hx. reflexivity.
Qed.

(** The example of the docstring of [marginal_prob]: on the device wires
    [[0, 1, 2]], the request [[2, 0]] answers the entries that the kets
    |00>, |10>, |01>, |11> label in registry order (wire 0, wire 2), which
    are the entries 00, 01, 10, 11 in the requested order (wire 2, wire 0). *)
Lemma marginal_prob_docstring_example (p0 p1 p2 p3 p4 p5 p6 p7 : Qc) :
  marginal_prob (canonical_device 3 None None None tt)
                [p0; p1; p2; p3; p4; p5; p6; p7] (Some [WInt 2; WInt 0])
  = Ok [p0 + p2; p4 + p6; p1 + p3; p5 + p7]%Qc.
Proof. reflexivity. Qed.

(** C4, at the failing input.  On the device wires [[0, 1, 2]] and the basis
    state |100> (wire 0 set), the request [[1, 2, 0]] should put the whole
    weight on the entry 001 (wire 1 = 0, wire 2 = 0, wire 0 = 1), index 1.
    [marginal_prob] puts it on index 2, the entry of the order
    (wire 2, wire 0, wire 1). *)
Theorem marginal_prob_three_cycle_order :
  let self := canonical_device 3 None None None tt in
  let prob := [0; 0; 0; 0; 1; 0; 0; 0]%Qc in
  marginal_prob self prob (Some [WInt 1; WInt 2; WInt 0])
    = Ok [0; 0; 1; 0; 0; 0; 0; 0]%Qc
  /\ marginal_in_order (wires self) [WInt 1; WInt 2; WInt 0] prob
    = [0; 1; 0; 0; 0; 0; 0; 0]%Qc
  /\ marginal_in_order (wires self) [WInt 2; WInt 0; WInt 1] prob
    = [0; 0; 1; 0; 0; 0; 0; 0]%Qc
  /\ marginal_prob self prob (Some [WInt 1; WInt 2; WInt 0])
    <> Ok (marginal_in_order (wires self) [WInt 1; WInt 2; WInt 0] prob).
Proof.
  cbv zeta.
  assert (H1 : marginal_in_order (wires (canonical_device 3 None None None tt))
                 [WInt 1; WInt 2; WInt 0] [0; 0; 0; 0; 1; 0; 0; 0]%Qc
               = [0; 1; 0; 0; 0; 0; 0; 0]%Qc)
    by (apply Qc_list_eq; vm_compute; reflexivity).
  split; [reflexivity|]. split; [exact H1|].
  split; [apply Qc_list_eq; vm_compute; reflexivity|].
  rewrite H1. intros H.
  apply (f_equal (fun r => match r with Ok l => map this l | Err _ => [] end)) in H.
  vm_compute in H. discriminate.
Qed.

(** For the request [[2, 0]] of the docstring the two orders agree. *)
Lemma marginal_prob_docstring_in_order :
  let self := canonical_device 3 None None None tt in
  let prob := map Qc_of_Z [1; 2; 3; 4; 5; 6; 7; 8] in
  marginal_prob self prob (Some [WInt 2; WInt 0])
  = Ok (marginal_in_order (wires self) [WInt 2; WInt 0] prob).
Proof.
  cbv zeta. cbn [map]. rewrite marginal_prob_docstring_example.
  apply (f_equal Ok). apply Qc_list_eq. vm_compute. reflexivity.
Qed.

(* ===================================================================== *)
(** * The table of basis states *)
(* ===================================================================== *)

Lemma product01_length (n : nat) : length (product01 n) = (2 ^ n)%nat.
Proof.
  induction n as [|n IH]; [reflexivity|].
  cbn [product01]. rewrite length_app, !length_map, IH, Nat.pow_succ_r'. lia.
Qed.

Lemma product01_spec (n : nat) (row : list Z) :
  row ∈ product01 n <-> length row = n /\ Forall is_bit row.
Proof.
  revert row. induction n as [|n IH]; intros row.
  - simpl. rewrite list_elem_of_singleton. split.
    + intros ->. split; [reflexivity|constructor].
    + intros [H _]. destruct row; [reflexivity|discriminate].
  - cbn [product01]. rewrite elem_of_app. split.
    + intros [H|H]; apply list_elem_of_In, in_map_iff in H as (r & <- & Hr);
        apply list_elem_of_In, IH in Hr as [Hl Hb];
        (split; [simpl; congruence|constructor; [unfold is_bit; lia|exact Hb]]).
    + intros [Hl Hb]. destruct row as [|b row]; [discriminate|].
      apply Forall_cons in Hb as [Hb0 Hb]. simpl in Hl.
      assert (Hr : row ∈ product01 n) by (apply IH; split; [lia|exact Hb]).
      destruct Hb0 as [->| ->]; [left|right];
        apply list_elem_of_In, in_map_iff; exists row; split; auto;
        apply list_elem_of_In; exact Hr.
Qed.

Lemma product01_NoDup (n : nat) : NoDup (product01 n).
Proof.
  induction n as [|n IH]; [apply NoDup_singleton|].
  cbn [product01]. apply NoDup_app. split; [|split].
  - apply (NoDup_fmap_2 (cons 0)); exact IH.
  - intros row H0 H1.
    apply list_elem_of_In, in_map_iff in H0 as (r0 & <- & _).
    apply list_elem_of_In, in_map_iff in H1 as (r1 & E & _). discriminate.
  - apply (NoDup_fmap_2 (cons 1)); exact IH.
Qed.

(** The rows of [product01] are the indices in binary, most significant bit
    first. *)
Lemma bits_lsb_snoc (n : nat) (i : Z) :
  bits_lsb (S n) i = bits_lsb n i ++ [bit_of i n].
Proof. unfold bits_lsb. rewrite seq_S, map_app. reflexivity. Qed.

Lemma bit_of_low (n k : nat) (j : Z) :
  (k < n)%nat -> bit_of (j + 2 ^ Z.of_nat n) k = bit_of j k.
Proof.
  intros Hk. unfold bit_of.
  rewrite <- (Z.mod_pow2_bits_low (j + 2 ^ Z.of_nat n) (Z.of_nat n)) by lia.
  rewrite <- (Z.mod_pow2_bits_low j (Z.of_nat n) (Z.of_nat k)) by lia.
  rewrite <- (Z.mul_1_l (2 ^ Z.of_nat n)) at 1.
  rewrite Z.mod_add by (apply Z.pow_nonzero; lia). reflexivity.
Qed.

Lemma bit_of_top_clear (n : nat) (j : Z) :
  0 <= j < 2 ^ Z.of_nat n -> bit_of j n = 0.
Proof.
  intros Hj. unfold bit_of.
  destruct (Z.testbit j (Z.of_nat n)) eqn:E; [|reflexivity].
  apply Z.testbit_true in E; [|lia]. rewrite Z.div_small in E by exact Hj. discriminate.
Qed.

Lemma bit_of_top_set (n : nat) (j : Z) :
  0 <= j < 2 ^ Z.of_nat n -> bit_of (j + 2 ^ Z.of_nat n) n = 1.
Proof.
  intros Hj. unfold bit_of.
  destruct (Z.testbit (j + 2 ^ Z.of_nat n) (Z.of_nat n)) eqn:E; [reflexivity|].
  apply Z.testbit_false in E; [|lia].
  rewrite <- (Z.mul_1_l (2 ^ Z.of_nat n)) in E at 1.
  rewrite Z.div_add, Z.div_small in E by (first [exact Hj | apply Z.pow_nonzero; lia]).
  discriminate.
Qed.

Lemma bits_lsb_low (n : nat) (j : Z) :
  bits_lsb n (j + 2 ^ Z.of_nat n) = bits_lsb n j.
Proof.
  unfold bits_lsb. apply map_ext_in. intros k Hk. apply in_seq in Hk.
  apply bit_of_low. lia.
Qed.

Lemma arange_double (m : nat) :
  arange (m + m) = arange m ++ map (fun j => j + Z.of_nat m) (arange m).
Proof.
  unfold arange. rewrite seq_app, map_app. f_equal.
  rewrite map_map. simpl.
  rewrite <- (Nat.add_0_l m) at 1. rewrite <- (Nat.add_comm m 0).
  rewrite <- fmap_add_seq. change (fmap ?f ?l) with (map f l).
  rewrite map_map. apply map_ext. intros k. lia.
Qed.

Lemma arange_range (m : nat) (i : Z) : In i (arange m) -> 0 <= i < Z.of_nat m.
Proof.
  unfold arange. intros H. apply in_map_iff in H as (k & <- & Hk).
  apply in_seq in Hk. lia.
Qed.

Lemma product01_rows (n : nat) :
  product01 n = map (fun i => rev (bits_lsb n i)) (arange (2 ^ n)).
Proof.
  induction n as [|n IH]; [reflexivity|].
  cbn [product01]. rewrite Nat.pow_succ_r'.
  replace (2 * 2 ^ n)%nat with (2 ^ n + 2 ^ n)%nat by lia.
  rewrite arange_double, map_app, map_map, IH, !map_map. f_equal.
  - apply map_ext_in. intros i Hi. apply arange_range in Hi.
    rewrite Nat2Z.inj_pow in Hi.
    rewrite bits_lsb_snoc, rev_app_distr. simpl.
    rewrite bit_of_top_clear by exact Hi. reflexivity.
  - apply map_ext_in. intros i Hi. apply arange_range in Hi.
    rewrite !Nat2Z.inj_pow in *.
    rewrite bits_lsb_snoc, rev_app_distr. simpl.
    change (Z.of_nat 2) with 2.
    rewrite bit_of_top_set, bits_lsb_low by exact Hi. reflexivity.
Qed.

Lemma generate_basis_states_ok (n : nat) :
  (0 < n)%nat -> generate_basis_states n = Ok (product01 n).
Proof.
  intros Hn. unfold generate_basis_states.
  destruct ((2 <? n)%nat && (n <? 32)%nat) eqn:E.
  - apply andb_true_iff in E as [H2 H32].
    apply Nat.ltb_lt in H2. apply Nat.ltb_lt in H32.
    f_equal. rewrite states_to_binary_rows by (simpl; lia).
    rewrite product01_rows, map_map. apply map_ext_in. intros i Hi.
    apply arange_range in Hi. rewrite Nat2Z.inj_pow in Hi. change (Z.of_nat 2) with 2 in Hi.
    assert (2 ^ Z.of_nat n <= 2 ^ 31) by (apply Z.pow_le_mono_r; lia).
    unfold cast. rewrite Z.mod_small; [reflexivity|lia].
  - destruct (Nat.eqb_spec n 0); [lia|reflexivity].
Qed.

(* ===================================================================== *)
(** * Dictionaries of counts *)
(* ===================================================================== *)

Lemma row_to_string_cons (b : Z) (row : list Z) :
  row_to_string (b :: row) = py_str b +:+ row_to_string row.
Proof. reflexivity. Qed.

Lemma row_to_string_bit (b : Z) (row : list Z) :
  is_bit b ->
  row_to_string (b :: row)
  = String (if decide (b = 0) then "0"%char else "1"%char) (row_to_string row).
Proof. intros [->| ->]; reflexivity. Qed.

Lemma row_to_string_key (row : list Z) :
  Forall is_bit row -> is_basis_key (length row) (KStr (row_to_string row)).
Proof.
  induction 1 as [|b row Hb _ IH]; [split; [reflexivity|exact I]|].
  rewrite row_to_string_bit by exact Hb. destruct IH as [Hl Hs].
  split; [simpl; rewrite Hl; reflexivity|].
  split; [destruct (decide (b = 0)); auto|exact Hs].
Qed.

Lemma row_to_string_inj (r1 r2 : list Z) :
  Forall is_bit r1 -> Forall is_bit r2 ->
  row_to_string r1 = row_to_string r2 -> r1 = r2.
Proof.
  intros H1. revert r2. induction H1 as [|b1 r1 Hb1 _ IH]; intros r2 H2 E.
  - destruct H2 as [|b2 r2 Hb2 _]; [reflexivity|].
    rewrite row_to_string_bit in E by exact Hb2. discriminate.
  - destruct H2 as [|b2 r2 Hb2 H2].
    + rewrite row_to_string_bit in E by exact Hb1. discriminate.
    + rewrite !row_to_string_bit in E by assumption. injection E as Ec Er.
      f_equal; [|apply IH; assumption].
      destruct Hb1 as [->| ->], Hb2 as [->| ->]; try reflexivity;
        repeat (destruct (decide _) in Ec; try lia); discriminate.
Qed.

Section Dict.
Context {V : Type}.

Lemma init_lookup (v : V) (l : list outcome) (d : gmap outcome V) (key : outcome) :
  fold_left (fun d k => <[k := v]> d) l d !! key
  = if decide (key ∈ l) then Some v else d !! key.
Proof.
  revert d. induction l as [|k l IH]; intros d; cbn [fold_left].
  - destruct (decide (key ∈ [])) as [H|_]; [by apply elem_of_nil in H|reflexivity].
  - rewrite IH. destruct (decide (key ∈ l)) as [Hl|Hl].
    + destruct (decide (key ∈ k :: l)) as [_|H]; [reflexivity|].
      exfalso. apply H. right. exact Hl.
    + rewrite lookup_insert. destruct (decide (k = key)) as [->|Hne].
      * destruct (decide (key ∈ key :: l)) as [_|H]; [reflexivity|].
        exfalso. apply H. left.
      * destruct (decide (key ∈ k :: l)) as [H|_]; [|reflexivity].
        apply elem_of_cons in H as [?|?]; [congruence|contradiction].
Qed.

Lemma assign_lookup (g : outcome -> V) (f : outcome -> nat) (h : outcome -> nat -> V)
    (ks : list outcome) (d : gmap outcome V) (key : outcome) :
  fold_left (fun d sc => <[fst sc := h (fst sc) (snd sc)]> d)
            (map (fun k => (k, f k)) ks) d !! key
  = if decide (key ∈ ks) then Some (h key (f key)) else d !! key.
Proof.
  revert d. induction ks as [|k ks IH]; intros d; cbn [fold_left map fst snd].
  - destruct (decide (key ∈ [])) as [H|_]; [by apply elem_of_nil in H|reflexivity].
  - rewrite IH. destruct (decide (key ∈ ks)) as [Hl|Hl].
    + destruct (decide (key ∈ k :: ks)) as [_|H]; [reflexivity|].
      exfalso. apply H. right. exact Hl.
    + rewrite lookup_insert. destruct (decide (k = key)) as [->|Hne].
      * destruct (decide (key ∈ key :: ks)) as [_|H]; [reflexivity|].
        exfalso. apply H. left.
      * destruct (decide (key ∈ k :: ks)) as [H|_]; [|reflexivity].
        apply elem_of_cons in H as [?|?]; [congruence|contradiction].
Qed.

End Dict.

(** The table with the value [g k] at each key [k] of [l]. *)
Lemma table_lookup (g : outcome -> Z) (l : list outcome) (key : outcome) :
  (list_to_map (map (fun k => (k, g k)) l) : gmap outcome Z) !! key
  = if decide (key ∈ l) then Some (g key) else None.
Proof.
  induction l as [|k l IH]; cbn [map].
  - rewrite list_to_map_nil, lookup_empty.
    destruct (decide (key ∈ [])) as [H|_]; [by apply elem_of_nil in H|reflexivity].
  - rewrite list_to_map_cons, lookup_insert, IH.
    destruct (decide (k = key)) as [->|Hne].
    + destruct (decide (key ∈ key :: l)) as [_|H]; [reflexivity|].
      exfalso. apply H. left.
    + destruct (decide (key ∈ l)) as [Hl|Hl];
        destruct (decide (key ∈ k :: l)) as [H|H]; try reflexivity.
      * exfalso. apply H. right. exact Hl.
      * apply elem_of_cons in H as [?|?]; [congruence|contradiction].
Qed.

Lemma table_size (g : outcome -> Z) (l : list outcome) :
  NoDup l -> size (list_to_map (map (fun k => (k, g k)) l) : gmap outcome Z) = length l.
Proof.
  intros Hnd. rewrite map_size_list_to_map.
  - rewrite length_map. reflexivity.
  - replace ((map (fun k => (k, g k)) l).*1) with l; [exact Hnd|].
    clear Hnd. induction l as [|k l IH]; [reflexivity|].
    cbn [map fmap list_fmap]. f_equal. exact IH.
Qed.

Lemma table_total (g : outcome -> Z) (l : list outcome) :
  NoDup l ->
  total_counts (list_to_map (map (fun k => (k, g k)) l))
  = fold_right Z.add 0 (map g l).
Proof.
  unfold total_counts. induction 1 as [|k l Hk Hnd IH]; cbn [map fold_right].
  - rewrite list_to_map_nil. apply map_fold_empty.
  - rewrite list_to_map_cons, map_fold_insert_L.
    + rewrite IH. reflexivity.
    + intros. lia.
    + rewrite table_lookup. destruct (decide (k ∈ l)); [contradiction|reflexivity].
Qed.

Lemma sum_of_nat (f : outcome -> nat) (l : list outcome) :
  fold_right Z.add 0 (map (fun k => Z.of_nat (f k)) l) = Z.of_nat (sum_list_with f l).
Proof. induction l as [|k l IH]; simpl; [reflexivity|]. rewrite IH. lia. Qed.

(** The dictionary that the loop of [_samples_to_counts] builds when every
    sample is one of the prepared outcomes. *)
Lemma counts_table (outcomes samples : list outcome) :
  samples ⊆ outcomes ->
  fold_left (fun d sc => <[fst sc := Z.of_nat (snd sc)]> d)
            (np_unique samples)
            (fold_left (fun d k => <[k := 0]> d) outcomes (∅ : gmap outcome Z))
  = list_to_map (map (fun k => (k, Z.of_nat (occurrences k samples))) outcomes).
Proof.
  intros Hsub. apply map_eq. intros key. unfold np_unique.
  rewrite (assign_lookup (fun _ => 0) (fun k => occurrences k samples)
                         (fun _ c => Z.of_nat c)).
  rewrite init_lookup, table_lookup, lookup_empty.
  destruct (decide (key ∈ remove_dups samples)) as [Hin|Hnin].
  - rewrite elem_of_remove_dups in Hin.
    destruct (decide (key ∈ outcomes)) as [_|H]; [reflexivity|].
    exfalso. apply H, Hsub, Hin.
  - rewrite elem_of_remove_dups in Hnin.
    destruct (decide (key ∈ outcomes)); [|reflexivity].
    rewrite occurrences_not_in by exact Hnin. reflexivity.
Qed.

Lemma counts_table_complete (n : nat) (outcomes samples : list outcome) :
  NoDup outcomes -> length outcomes = (2 ^ n)%nat ->
  Forall (is_basis_key n) outcomes ->
  samples ⊆ outcomes ->
  counts_complete n (length samples)
    (list_to_map (map (fun k => (k, Z.of_nat (occurrences k samples))) outcomes)).
Proof.
  intros Hnd Hlen Hkeys Hsub. split; [|split].
  - rewrite table_size by exact Hnd. exact Hlen.
  - intros key Hkey. apply elem_of_dom in Hkey as [v Hv].
    rewrite table_lookup in Hv. destruct (decide (key ∈ outcomes)) as [Hin|]; [|discriminate].
    rewrite Forall_forall in Hkeys. apply Hkeys, Hin.
  - rewrite table_total by exact Hnd.
    rewrite (sum_of_nat (fun k => occurrences k samples)).
    rewrite sum_occurrences_cover by assumption. reflexivity.
Qed.

Lemma basis_keys_NoDup (n : nat) :
  NoDup (map (fun outcome => KStr (row_to_string outcome)) (product01 n)).
Proof.
  apply (NoDup_fmap_2_strong (fun outcome => KStr (row_to_string outcome))).
  - intros r1 r2 H1 H2 E. injection E as E.
    apply product01_spec in H1 as [_ H1]. apply product01_spec in H2 as [_ H2].
    apply row_to_string_inj; assumption.
  - apply product01_NoDup.
Qed.

Lemma samples_to_counts_all (n : nat) (rows : list (list Z))
    (mobs : option obs_body) (ws : list wire) :
  (0 < n)%nat ->
  well_formed_buffer n rows ->
  exists d,
    _samples_to_counts (Raw rows) (OnMeasurement (CountsMP mobs ws true)) n = Ok d
    /\ counts_complete n (length rows) d.
Proof.
  intros Hn Hrows. unfold _samples_to_counts.
  rewrite generate_basis_states_ok by exact Hn. cbn [bind fst snd].
  eexists. split; [reflexivity|].
  assert (Hsub : map (fun sample => KStr (row_to_string sample)) rows
                 ⊆ map (fun outcome => KStr (row_to_string outcome)) (product01 n)).
  { intros key Hkey. apply list_elem_of_In, in_map_iff in Hkey as (row & <- & Hrow).
    apply list_elem_of_In. apply in_map_iff. exists row. split; [reflexivity|].
    apply list_elem_of_In, product01_spec.
    unfold well_formed_buffer in Hrows. rewrite Forall_forall in Hrows.
    apply Hrows, list_elem_of_In, Hrow. }
  rewrite counts_table by exact Hsub.
  rewrite <- (length_map (fun sample => KStr (row_to_string sample)) rows).
  apply counts_table_complete.
  - apply basis_keys_NoDup.
  - rewrite length_map. apply product01_length.
  - apply Forall_forall. intros key Hkey.
    apply list_elem_of_In, in_map_iff in Hkey as (row & <- & Hrow).
    apply list_elem_of_In, product01_spec in Hrow as [Hlen Hbits].
    rewrite <- Hlen. apply row_to_string_key. exact Hbits.
  - exact Hsub.
Qed.

Lemma sub_samples_selected {K : Type} (self : QubitDevice K)
    (shot_range : option (nat * nat)) (rows : list (list Z)) :
  selected_samples self shot_range = Ok rows ->
  sub_samples_of self shot_range = Ok (Some rows).
Proof.
  unfold selected_samples, sub_samples_of.
  destruct (_samples self) as [rows0|]; [|discriminate].
  destruct shot_range; intros E; injection E as <-; reflexivity.
Qed.

(** C7 (amended): counts of the computational basis with all outcomes.
    For a counts measurement without an observable and with the
    all-outcomes flag, on wires [ws] of the registry (all the wires of the
    device when [ws] is empty), over a buffer of well-formed samples,
    [sample] returns a dictionary with exactly [2^n] keys, each an
    [n]-character string of the characters 0 and 1, whose values sum to the
    number of selected samples. *)
Theorem counts_all_outcomes_complete {K : Type} (self : QubitDevice K)
    (ws : list wire) (shot_range : option (nat * nat)) (rows : list (list Z)) :
  ws ⊆ wires self ->
  (0 < num_wires self)%nat ->
  selected_samples self shot_range = Ok rows ->
  well_formed_buffer (num_wires self) rows ->
  exists d,
    sample self (OnMeasurement (CountsMP None ws true)) shot_range None true
    = Ok (CountsDict d)
    /\ counts_complete (if (0 <? length ws)%nat then length ws else num_wires self)
                       (length rows) d.
Proof.
  intros Hsub Hpos Hsel Hwf. unfold sample.
  change (target_wires (OnMeasurement (CountsMP None ws true))) with ws.
  rewrite (map_wires_ok self ws Hsub). cbn [bind].
  rewrite (sub_samples_selected self shot_range rows Hsel). cbn [bind].
  change (mp_wires (CountsMP None ws true)) with ws.
  assert (Hlen : length (spec_mapped (wires self) ws) = length ws)
    by (unfold spec_mapped; apply length_map).
  rewrite Hlen.
  destruct (decide (ws = [])) as [->|Hne].
  - cbn [length Nat.eqb negb Nat.ltb Nat.leb].
    destruct (samples_to_counts_all (num_wires self) rows None [] Hpos Hwf)
      as (d & Hd & Hc).
    exists d. split; [|exact Hc]. cbn [bind]. rewrite Hd. reflexivity.
  - assert (Hn : (0 < length ws)%nat) by (destruct ws; [contradiction|simpl; lia]).
    replace (length ws =? 0)%nat with false by (symmetry; apply Nat.eqb_neq; lia).
    replace (0 <? length ws)%nat with true by (symmetry; apply Nat.ltb_lt; lia).
    cbn [negb subscriptable bind].
    rewrite (take_columns_ok (num_wires self)).
    + cbn [bind].
      set (rows' := map _ rows).
      assert (Hwf' : well_formed_buffer (length ws) rows').
      { apply Forall_forall. intros row' Hrow'.
        apply list_elem_of_In, in_map_iff in Hrow' as (row & <- & Hrow).
        rewrite length_map, Hlen. split; [reflexivity|].
        apply Forall_forall. intros b Hb.
        apply list_elem_of_In, in_map_iff in Hb as (c & <- & _).
        apply is_bit_nth. unfold well_formed_buffer in Hwf.
        rewrite Forall_forall in Hwf. apply (Hwf row). apply list_elem_of_In, Hrow. }
      destruct (samples_to_counts_all (length ws) rows' None ws Hn Hwf')
        as (d & Hd & Hc).
      exists d. rewrite Hd. cbn [bind]. split; [reflexivity|].
      replace (length rows) with (length rows'); [exact Hc|].
      unfold rows'. apply length_map.
    + eapply Forall_impl; [exact Hwf|]. intros row [H _]. exact H.
    + apply Forall_forall. intros c Hc. unfold spec_mapped in Hc.
      apply list_elem_of_In, in_map_iff in Hc as (w0 & <- & Hw0).
      apply registry_position_lt, Hsub, list_elem_of_In, Hw0.
Qed.

Lemma counts_all_outcomes_complete_witness :
  exists d,
    sample (canonical_device 2 (Some 3%nat) None (Some docstring_samples) tt)
           (OnMeasurement (CountsMP None [WInt 1; WInt 0] true)) None None true
    = Ok (CountsDict d)
    /\ counts_complete 2 3 d.
Proof.
  apply (counts_all_outcomes_complete
           (canonical_device 2 (Some 3%nat) None (Some docstring_samples) tt)
           [WInt 1; WInt 0] None docstring_samples).
  - apply (bool_decide_unpack _). vm_compute. exact I.
  - vm_compute. lia.
  - reflexivity.
  - unfold well_formed_buffer, is_bit. apply (bool_decide_unpack _). vm_compute. exact I.
Defined.

(** C7 (as stated) fails for counts of an observable: with the all-outcomes
    flag, the counts of [PauliZ(0) @ PauliZ(1)] over three samples on two
    wires are keyed by the eigenvalues, a dictionary of two keys and not of
    four bit strings. *)
Lemma counts_of_observable_eigenvalue_keys :
  exists d,
    sample (canonical_device 2 (Some 3%nat) None (Some docstring_samples) tt)
           (obs_of (CountsMP (Some (Tensor [PauliZ (WInt 0); PauliZ (WInt 1)])) [] true))
           None None true
    = Ok (CountsDict d)
    /\ size d = 2%nat
    /\ ~ counts_complete 2 3 d.
Proof.
  eexists. split; [vm_compute; reflexivity|].
  split; [vm_compute; reflexivity|].
  intros [Hsize _]. vm_compute in Hsize. discriminate.
Qed.

(* ===================================================================== *)
(** * The statistics loops *)
(* ===================================================================== *)

Lemma is_Err_inv {A : Type} (r : result A) : is_Err r -> exists e, r = Err e.
Proof. destruct r as [a|e]; [contradiction|]. intros _. exists e. reflexivity. Qed.

Lemma bindM_Err {K A B : Type} (c : M K A) (k : A -> M K B) (self : QubitDevice K) :
  is_Err (fst (c self)) ->
  is_Err (fst (bindM c k self)) /\ snd (bindM c k self) = snd (c self).
Proof.
  unfold bindM. destruct (c self) as [[a|e] self']; cbn [fst snd]; [contradiction|].
  intros _. split; [exact I|reflexivity].
Qed.

(** A loop fails as soon as one of its turns fails in every state that the
    earlier turns can leave. *)
Lemma forM_fails {K A B : Type} (Inv : QubitDevice K -> Prop)
    (body : B -> A -> M K B) (l : list A) (x : A) :
  x ∈ l ->
  (forall acc y s, y ∈ l -> Inv s -> Inv (snd (body acc y s))) ->
  (forall acc s, Inv s -> is_Err (fst (body acc x s))) ->
  forall acc s, Inv s ->
    is_Err (fst (forM body l acc s)) /\ Inv (snd (forM body l acc s)).
Proof.
  intros Hx Hinv Hfail. induction l as [|y l IH]; [by apply elem_of_nil in Hx|].
  intros acc s Hs. cbn [forM]. unfold bindM.
  destruct (body acc y s) as [[acc'|e] s'] eqn:E.
  - assert (Hs' : Inv s') by (specialize (Hinv acc y s); rewrite E in Hinv;
                              apply Hinv; [left|exact Hs]).
    apply elem_of_cons in Hx as [->|Hx].
    + specialize (Hfail acc s Hs). rewrite E in Hfail. contradiction.
    + apply IH; [exact Hx| |exact Hs'].
      intros acc0 y0 s0 Hy0. apply Hinv. right. exact Hy0.
  - cbn [fst snd]. split; [exact I|].
    specialize (Hinv acc y s). rewrite E in Hinv. apply Hinv; [left|exact Hs].
Qed.

Section Engine.

Context {K O : Type} `{!Kernel K O}.

(** With more than one measurement in the circuit, no turn of the loops
    touches the device: the shadow protocol, the only dispatch that drives
    the kernel, is refused. *)
Lemma statistics_new_dispatch_pure (circuit : QuantumScript)
    (shot_range : option (nat * nat)) (bin_size : option nat)
    (m : measurement) (previous : option (value O)) (self : QubitDevice K) :
  (1 < length (measurements circuit))%nat ->
  snd (_statistics_new_dispatch circuit shot_range bin_size m previous self) = self.
Proof.
  intros Hlen. apply Nat.ltb_lt in Hlen.
  destruct m; unfold _statistics_new_dispatch; rewrite ?Hlen;
    try reflexivity.
  - unfold bindM, read. cbn [fst snd]. destruct (custom_wire_labels self); reflexivity.
  - unfold bindM, read. cbn [fst snd]. destruct (custom_wire_labels self); reflexivity.
  - destruct previous; reflexivity.
Qed.

Lemma statistics_dispatch_pure (circuit : QuantumScript)
    (shot_range : option (nat * nat)) (bin_size : option nat)
    (m : measurement) (self : QubitDevice K) :
  (1 < length (measurements circuit))%nat ->
  snd (statistics_dispatch circuit shot_range bin_size m self) = self.
Proof.
  intros Hlen. apply Nat.ltb_lt in Hlen.
  destruct m; unfold statistics_dispatch; rewrite ?Hlen;
    try reflexivity.
  - unfold bindM, read, raise. cbn [fst snd].
    destruct (custom_wire_labels self); [reflexivity|].
    destruct (bool_decide (_shot_vector self <> None)); reflexivity.
  - unfold bindM, read, raise. cbn [fst snd].
    destruct (custom_wire_labels self); [reflexivity|].
    destruct (bool_decide (_shot_vector self <> None)); reflexivity.
Qed.

(** The turn of [_statistics_new], with the squeeze that follows the
    dispatch. *)
Lemma statistics_new_turn_Err (circuit : QuantumScript)
    (shot_range : option (nat * nat)) (bin_size : option nat)
    (m : measurement) (acc : list (value O) * option (value O)) (self : QubitDevice K)
    (k : value O -> M K (list (value O) * option (value O))) :
  is_Err (fst (_statistics_new_dispatch circuit shot_range bin_size m (snd acc) self)) ->
  is_Err (fst (bindM (_statistics_new_dispatch circuit shot_range bin_size m (snd acc)) k
                     self)).
Proof. intros H. apply bindM_Err. exact H. Qed.

Lemma statistics_new_turn_pure (circuit : QuantumScript)
    (shot_range : option (nat * nat)) (bin_size : option nat)
    (m : measurement) (acc : list (value O) * option (value O)) (self : QubitDevice K) :
  (1 < length (measurements circuit))%nat ->
  snd ((do! result := _statistics_new_dispatch circuit shot_range bin_size m (snd acc) in
        do! result :=
          read (fun self =>
                  Ok (if is_float_result m then asarray_value result (R_DTYPE self)
                      else result)) in
        do! result :=
          read (fun self =>
                  Ok (if bool_decide (_shot_vector self <> None) && is_ndarray result
                      then np_squeeze result else result)) in
        ret (fst acc ++ [result], Some result)) self) = self.
Proof.
  intros Hlen.
  pose proof (statistics_new_dispatch_pure circuit shot_range bin_size m (snd acc) self Hlen)
    as Hpure.
  unfold bindM at 1.
  destruct (_statistics_new_dispatch circuit shot_range bin_size m (snd acc) self)
    as [[r|e] s']; cbn [snd] in Hpure; subst s'; reflexivity.
Qed.

Lemma exclusive_dispatch_new (circuit : QuantumScript)
    (shot_range : option (nat * nat)) (bin_size : option nat)
    (m : measurement) (previous : option (value O)) (self : QubitDevice K) :
  (1 < length (measurements circuit))%nat ->
  exclusive m = true ->
  _statistics_new_dispatch circuit shot_range bin_size m previous self
  = (Err QuantumFunctionError, self).
Proof.
  intros Hlen Hm. apply Nat.ltb_lt in Hlen.
  destruct m; try discriminate; unfold _statistics_new_dispatch; rewrite Hlen; reflexivity.
Qed.

Lemma exclusive_dispatch (circuit : QuantumScript)
    (shot_range : option (nat * nat)) (bin_size : option nat)
    (m : measurement) (self : QubitDevice K) :
  (1 < length (measurements circuit))%nat ->
  exclusive m = true ->
  statistics_dispatch circuit shot_range bin_size m self
  = (Err QuantumFunctionError, self).
Proof.
  intros Hlen Hm. apply Nat.ltb_lt in Hlen.
  destruct m; try discriminate; unfold statistics_dispatch; rewrite Hlen; reflexivity.
Qed.

(** [_statistics_new] on a circuit that combines an exclusive measurement
    with another one. *)
Lemma statistics_new_exclusive (circuit : QuantumScript)
    (shot_range : option (nat * nat)) (bin_size : option nat)
    (m : measurement) (self : QubitDevice K) :
  (1 < length (measurements circuit))%nat ->
  m ∈ measurements circuit ->
  exclusive m = true ->
  is_Err (fst (_statistics_new circuit shot_range bin_size self))
  /\ snd (_statistics_new circuit shot_range bin_size self) = self.
Proof.
  intros Hlen Hm Hex. unfold _statistics_new.
  match goal with |- context [forM ?b ?l ?a] =>
    pose proof (forM_fails (fun s => s = self) b l m Hm) as Hloop end.
  cbv beta in Hloop.
  destruct (Hloop) with (acc := (@nil (value O), @None (value O))) (s := self)
    as [Herr Hsame].
  - intros acc y s _ ->. apply statistics_new_turn_pure. exact Hlen.
  - intros acc s ->. apply bindM_Err.
    rewrite exclusive_dispatch_new by assumption. exact I.
  - reflexivity.
  - pose proof (bindM_Err _ (fun final => ret (fst final)) self Herr) as [H1 H2].
    split; [exact H1|]. rewrite H2. exact Hsame.
Qed.

Lemma statistics_exclusive (circuit : QuantumScript)
    (shot_range : option (nat * nat)) (bin_size : option nat)
    (m : measurement) (self : QubitDevice K) :
  (1 < length (measurements circuit))%nat ->
  m ∈ measurements circuit ->
  exclusive m = true ->
  is_Err (fst (statistics circuit shot_range bin_size self))
  /\ snd (statistics circuit shot_range bin_size self) = self.
Proof.
  intros Hlen Hm Hex. unfold statistics.
  apply (forM_fails (fun s => s = self) _ _ m Hm).
  - intros acc y s _ ->.
    pose proof (statistics_dispatch_pure circuit shot_range bin_size y self Hlen) as Hpure.
    unfold bindM.
    destruct (statistics_dispatch circuit shot_range bin_size y self) as [[r|e] s'];
      cbn [snd] in Hpure; subst s'; reflexivity.
  - intros acc s ->. apply bindM_Err.
    rewrite exclusive_dispatch by assumption. exact I.
  - reflexivity.
Qed.

End Engine.


Ltac step_matches :=
  repeat (match goal with
          | |- context [match ?c with _ => _ end] => destruct c
          end; cbn [fst snd history _shot_vector _num_executions]).

Lemma bindM_read_Ok {K A B : Type} (f : QubitDevice K -> result A) (k : A -> M K B)
    (self : QubitDevice K) (a : A) :
  f self = Ok a -> bindM (read f) k self = k a self.
Proof. intros E. unfold bindM, read. rewrite E. reflexivity. Qed.

Section Execution.

Context {K O : Type} `{!Kernel K O}.

Lemma sample_basis_states_frame (n : nat) (p : list Qc) (s : QubitDevice K) :
  history (snd (sample_basis_states n p s)) = history s
  /\ _shot_vector (snd (sample_basis_states n p s)) = _shot_vector s
  /\ _num_executions (snd (sample_basis_states n p s)) = _num_executions s.
Proof.
  unfold sample_basis_states. destruct (shots s) as [sh|]; [|repeat split; reflexivity].
  destruct (random_choice n sh p (kernel s)) as [r k]. repeat split; reflexivity.
Qed.

Lemma generate_samples_frame (s : QubitDevice K) :
  history (snd (generate_samples s)) = history s ++ [EvGenerateSamples]
  /\ _shot_vector (snd (generate_samples s)) = _shot_vector s
  /\ _num_executions (snd (generate_samples s)) = _num_executions s.
Proof.
  unfold generate_samples, bindM, log, read. cbn [fst snd].
  destruct (analytic_probability _ None) as [prob|e]; [|repeat split; reflexivity].
  match goal with |- context [sample_basis_states ?n ?p ?s1] =>
    destruct (sample_basis_states_frame n p s1) as (Hh & Hv & Hn);
    destruct (sample_basis_states n p s1) as [[smp|e] s2] end;
    cbn [fst snd history _shot_vector _num_executions] in *; repeat split; assumption.
Qed.

Lemma apply_frame (ops rotations : list operation) (s : QubitDevice K) :
  history (snd (apply ops rotations s)) = history s ++ [EvApply ops rotations]
  /\ _shot_vector (snd (apply ops rotations s)) = _shot_vector s
  /\ _num_executions (snd (apply ops rotations s)) = _num_executions s.
Proof.
  unfold apply, bindM, log, read, set_kernel.
  cbn [fst snd history _shot_vector shots kernel].
  step_matches; repeat split; reflexivity.
Qed.

Lemma shot_vec_statistics_exclusive (circuit : QuantumScript)
    (m : measurement) (self : QubitDevice K) (t : ShotTuple) (ts : list ShotTuple) :
  (1 < length (measurements circuit))%nat ->
  m ∈ measurements circuit ->
  exclusive m = true ->
  _shot_vector self = Some (t :: ts) ->
  is_Err (fst (shot_vec_statistics circuit self))
  /\ snd (shot_vec_statistics circuit self) = self.
Proof.
  intros Hlen Hm Hex Hv. unfold shot_vec_statistics.
  rewrite (bindM_read_Ok _ _ self (t :: ts)) by (rewrite Hv; reflexivity).
  match goal with |- context [forM ?b ?l ?a] =>
    pose proof (forM_fails (fun s => s = self) b l t) as Hloop end.
  cbv beta in Hloop.
  destruct Hloop with (acc := (@nil (value O), 0%nat)) (s := self) as [Herr Hsame].
  - left.
  - intros acc y s _ ->.
    destruct (statistics_new_exclusive circuit
                (Some (snd acc, (snd acc + st_shots y * st_copies y)%nat))
                (Some (st_shots y)) m self Hlen Hm Hex) as [H1 H2].
    destruct (bindM_Err (_statistics_new circuit
                (Some (snd acc, (snd acc + st_shots y * st_copies y)%nat))
                (Some (st_shots y)))
              (fun r => do! r := read (fun _ => shot_vector_layout circuit y r) in
                        ret (fst acc ++ r, (snd acc + st_shots y * st_copies y)%nat))
              self H1) as [_ H3].
    rewrite H3. exact H2.
  - intros acc s ->. apply bindM_Err.
    apply (statistics_new_exclusive circuit _ _ m self Hlen Hm Hex).
  - reflexivity.
  - pose proof (bindM_Err _ (fun final => ret (fst final)) self Herr) as [H1 H2].
    split; [exact H1|]. etransitivity; [exact H2|exact Hsame].
Qed.

End Execution.

Lemma bindM_cases {K A B : Type} (c : M K A) (k : A -> M K B) (self : QubitDevice K) :
  (exists a s', c self = (Ok a, s') /\ bindM c k self = k a s')
  \/ (exists e s', c self = (Err e, s') /\ bindM c k self = (Err e, s')).
Proof.
  unfold bindM. destruct (c self) as [[a|e] s'].
  - left. exists a, s'. split; reflexivity.
  - right. exists e, s'. split; reflexivity.
Qed.

(* ===================================================================== *)
(** * Executions that combine exclusive measurements *)
(* ===================================================================== *)

Ltac bind_step a s' E :=
  match goal with
  | |- context [bindM ?c ?k ?s] =>
      destruct (bindM_cases c k s) as [(a & s' & E & ->)|(? & s' & E & ->)];
      cbv beta
  end.

Section Exclusive.

Context {K O : Type} `{!Kernel K O}.

(** The statistics step of [_execute_new], from the state [s] left by the
    application of the gates and the sampling. *)
Lemma execute_statistics_exclusive (circuit : QuantumScript) (m : measurement)
    (s : QubitDevice K) (k : @execute_result O -> M K (@execute_result O)) :
  (1 < length (measurements circuit))%nat ->
  m ∈ measurements circuit ->
  exclusive m = true ->
  _shot_vector s <> Some [] ->
  is_Err (fst ((do! vector := read (fun self => Ok (bool_decide (_shot_vector self <> None))) in
                do! results :=
                  (if (vector : bool) then
                     do! results := shot_vec_statistics circuit in
                     ret (Tuple results)
                   else
                     do! results := _statistics_new circuit None None in
                     if (length (measurements circuit) =? 1)%nat then
                       match results with
                       | r :: _ => ret (Bare r)
                       | [] => raise IndexError
                       end
                     else ret (Tuple results)) in
                k results) s))
  /\ snd ((do! vector := read (fun self => Ok (bool_decide (_shot_vector self <> None))) in
           do! results :=
             (if (vector : bool) then
                do! results := shot_vec_statistics circuit in
                ret (Tuple results)
              else
                do! results := _statistics_new circuit None None in
                if (length (measurements circuit) =? 1)%nat then
                  match results with
                  | r :: _ => ret (Bare r)
                  | [] => raise IndexError
                  end
                else ret (Tuple results)) in
           k results) s) = s.
Proof.
  intros Hlen Hm Hex Hv.
  rewrite (bindM_read_Ok _ _ s (bool_decide (_shot_vector s <> None))) by reflexivity.
  destruct (_shot_vector s) as [[|t ts]|] eqn:Ev.
  - contradiction.
  - rewrite bool_decide_true by discriminate.
    destruct (shot_vec_statistics_exclusive circuit m s t ts Hlen Hm Hex Ev) as [H1 H2].
    destruct (bindM_Err (shot_vec_statistics circuit) (fun results => ret (Tuple results))
                        s H1) as [H3 H4].
    destruct (bindM_Err _ k s H3) as [H5 H6].
    split; [exact H5|]. etransitivity; [exact H6|]. etransitivity; [exact H4|exact H2].
  - rewrite bool_decide_false by (intros H; apply H; reflexivity).
    destruct (statistics_new_exclusive circuit None None m s Hlen Hm Hex) as [H1 H2].
    destruct (bindM_Err (_statistics_new circuit None None)
                (fun results =>
                   if (length (measurements circuit) =? 1)%nat then
                     match results with
                     | r :: _ => ret (Bare r)
                     | [] => raise IndexError
                     end
                   else ret (Tuple results)) s H1) as [H3 H4].
    destruct (bindM_Err _ k s H3) as [H5 H6].
    split; [exact H5|]. etransitivity; [exact H6|]. etransitivity; [exact H4|exact H2].
Qed.

Lemma execute_new_exclusive (circuit : QuantumScript) (m : measurement)
    (self : QubitDevice K) :
  (1 < length (measurements circuit))%nat ->
  m ∈ measurements circuit ->
  exclusive m = true ->
  _shot_vector self <> Some [] ->
  is_Err (fst (_execute_new circuit self))
  /\ _num_executions (snd (_execute_new circuit self)) = _num_executions self
  /\ (check_validity (operations circuit) (measurements circuit) = Ok tt ->
      history (snd (_execute_new circuit self))
      = history self ++ [EvApply (operations circuit) (diagonalizing_gates circuit)]
      \/ history (snd (_execute_new circuit self))
         = history self ++ [EvApply (operations circuit) (diagonalizing_gates circuit);
                            EvGenerateSamples]).
Proof.
  intros Hlen Hm Hex Hv. unfold _execute_new.
  (* the validity check *)
  bind_step u s0 E0; unfold read in E0; injection E0 as Ec <-.
  2:{ cbn [fst snd]. split; [exact I|]. split; [reflexivity|].
      intros Hok. rewrite Hok in Ec. discriminate. }
  (* the gates *)
  pose proof (apply_frame (operations circuit) (diagonalizing_gates circuit) self)
    as (Hh1 & Hv1 & Hn1).
  bind_step u1 s1 E1; rewrite E1 in Hh1, Hv1, Hn1; cbn [snd] in Hh1, Hv1, Hn1.
  2:{ cbn [fst snd]. split; [exact I|]. split; [exact Hn1|]. intros _. left. exact Hh1. }
  (* the samples *)
  rewrite (bindM_read_Ok _ _ s1 (bool_decide (shots s1 <> None))) by reflexivity.
  destruct (bool_decide (shots s1 <> None)).
  - pose proof (generate_samples_frame s1) as (Hh2 & Hv2 & Hn2).
    bind_step u2 s3 E3.
    + (* sampled *)
      unfold bindM in E3. destruct (generate_samples s1) as [[smp|e] s2];
        cbn [snd] in Hh2, Hv2, Hn2; [|discriminate].
      unfold set_samples in E3. injection E3 as _ <-.
      match goal with |- is_Err (fst (?R)) /\ _ =>
        match R with
        | bindM ?c (fun vector => bindM (@?body vector) ?k) ?s =>
            destruct (execute_statistics_exclusive circuit m s k Hlen Hm Hex) as [H1 H2]
        end
      end.
      { cbn [_shot_vector]. rewrite Hv2, Hv1. exact Hv. }
      split; [exact H1|].
      match goal with |- _ /\ (_ -> ?h = _ \/ _) =>
        match h with
        | history ?x => assert (Hx : x = _) by exact H2
        end
      end.
      rewrite Hx. cbn [_num_executions history].
      split; [rewrite Hn2; exact Hn1|].
      intros _. right. rewrite Hh2, Hh1, <- app_assoc. reflexivity.
    + (* the sampler failed *)
      unfold bindM in E3. destruct (generate_samples s1) as [[smp|e] s2];
        cbn [snd] in Hh2, Hv2, Hn2.
      * unfold set_samples in E3. discriminate.
      * injection E3 as _ <-. cbn [fst snd]. split; [exact I|].
        split; [rewrite Hn2; exact Hn1|].
        intros _. right. rewrite Hh2, Hh1, <- app_assoc. reflexivity.
  - bind_step u2 s3 E3; unfold ret in E3; [injection E3 as _ <-|discriminate].
    match goal with |- is_Err (fst (?R)) /\ _ =>
      match R with
      | bindM ?c (fun vector => bindM (@?body vector) ?k) ?s =>
          destruct (execute_statistics_exclusive circuit m s k Hlen Hm Hex) as [H1 H2]
      end
    end.
    { rewrite Hv1. exact Hv. }
    split; [exact H1|].
    match goal with |- _ /\ (_ -> ?h = _ \/ _) =>
      match h with
      | history ?x => assert (Hx : x = _) by exact H2
      end
    end.
    rewrite Hx. split; [exact Hn1|]. intros _. left. exact Hh1.
Qed.

(** C5 (amended): a State, ClassicalShadow or ShadowExpval measurement
    combined with any other measurement makes [_execute_new] raise, on a
    device whose shot vector, if it has one, is not empty.  The refusal comes
    from the statistics step: when the validity check passes, the gates of
    the circuit have been applied by then (and the samples generated, on a
    device with finite shots); nothing else has been asked of the kernel,
    and the execution is not counted. *)
Theorem exclusive_measurement_refused (circuit : QuantumScript) (m : measurement)
    (self : QubitDevice K) :
  (1 < length (measurements circuit))%nat ->
  m ∈ measurements circuit ->
  exclusive m = true ->
  _shot_vector self <> Some [] ->
  exists e self',
    _execute_new circuit self = (Err e, self')
    /\ _num_executions self' = _num_executions self
    /\ (check_validity (operations circuit) (measurements circuit) = Ok tt ->
        history self'
        = history self ++ [EvApply (operations circuit) (diagonalizing_gates circuit)]
        \/ history self'
           = history self ++ [EvApply (operations circuit) (diagonalizing_gates circuit);
                              EvGenerateSamples]).
Proof.
  intros Hlen Hm Hex Hv.
  destruct (execute_new_exclusive circuit m self Hlen Hm Hex Hv) as (Herr & Hn & Hh).
  destruct (_execute_new circuit self) as [[r|e] self']; [contradiction|].
  exists e, self'. split; [reflexivity|]. split; [exact Hn|exact Hh].
Qed.

End Exclusive.

Lemma exclusive_measurement_refused_witness :
  exists e self',
    _execute_new shadow_with_expval single_qubit_sampler = (Err e, self')
    /\ _num_executions self' = 0%nat
    /\ (Ok tt = Ok tt ->
        history self' = [] ++ [EvApply [Hadamard_gate (WInt 0)] []]
        \/ history self' = [] ++ [EvApply [Hadamard_gate (WInt 0)] []; EvGenerateSamples]).
Proof.
  refine (exclusive_measurement_refused (Kernel0 := fixed_kernel) shadow_with_expval
            (ClassicalShadowMP [WInt 0] (Some 7)) single_qubit_sampler _ _ _ _).
  - vm_compute. lia.
  - left.
  - reflexivity.
  - discriminate.
Defined.

(** C5 (as stated) fails: on a finite-shot device, the circuit that returns
    a classical shadow together with an expectation value is refused only
    after its gate has been applied and the samples have been generated. *)
Lemma shadow_refused_after_execution :
  fst (_execute_new shadow_with_expval single_qubit_sampler) = Err QuantumFunctionError
  /\ history (snd (_execute_new shadow_with_expval single_qubit_sampler))
     = [EvApply [Hadamard_gate (WInt 0)] []; EvGenerateSamples]
  /\ history (snd (_execute_new shadow_with_expval single_qubit_sampler))
     <> history single_qubit_sampler.
Proof.
  split; [vm_compute; reflexivity|].
  split; [vm_compute; reflexivity|].
  vm_compute. discriminate.
Qed.

(* ===================================================================== *)
(** * Entropies: wire labels and shot vectors *)
(* ===================================================================== *)

Section Entropy.

Context {K O : Type} `{!Kernel K O}.

Lemma entropy_dispatch_new (circuit : QuantumScript)
    (shot_range : option (nat * nat)) (bin_size : option nat)
    (m : measurement) (previous : option (value O)) (self : QubitDevice K) :
  is_entropy m = true ->
  custom_wire_labels self = true ->
  _statistics_new_dispatch circuit shot_range bin_size m previous self
  = (Err QuantumFunctionError, self).
Proof.
  intros Hm Hc. destruct m; try discriminate;
    unfold _statistics_new_dispatch, bindM, read, raise; rewrite Hc; reflexivity.
Qed.

Lemma entropy_dispatch_legacy (circuit : QuantumScript)
    (shot_range : option (nat * nat)) (bin_size : option nat)
    (m : measurement) (self : QubitDevice K) :
  is_entropy m = true ->
  custom_wire_labels self = true \/ _shot_vector self <> None ->
  exists e, statistics_dispatch circuit shot_range bin_size m self = (Err e, self).
Proof.
  intros Hm Hc. destruct m; try discriminate;
    unfold statistics_dispatch, bindM, read, raise;
    (destruct (custom_wire_labels self); [eexists; reflexivity|]);
    (destruct Hc as [Hc|Hc]; [discriminate|]);
    rewrite bool_decide_true by exact Hc; eexists; reflexivity.
Qed.

Lemma statistics_new_entropy_custom_labels (circuit : QuantumScript)
    (shot_range : option (nat * nat)) (bin_size : option nat)
    (m : measurement) (self : QubitDevice K) :
  m ∈ measurements circuit ->
  is_entropy m = true ->
  custom_wire_labels self = true ->
  is_Err (fst (_statistics_new circuit shot_range bin_size self)).
Proof.
  intros Hm He Hc. unfold _statistics_new.
  match goal with |- context [forM ?b ?l ?a] =>
    pose proof (forM_fails (fun s => s = self) b l m Hm) as Hloop end.
  cbv beta in Hloop.
  destruct Hloop with (acc := (@nil (value O), @None (value O))) (s := self)
    as [Herr _].
  - intros acc y s Hy ->.
    destruct (decide (1 < length (measurements circuit))%nat) as [Hlen|Hlen].
    + apply statistics_new_turn_pure. exact Hlen.
    + assert (y = m) as ->.
      { destruct (measurements circuit) as [|m0 [|m1 l]]; cbn [length] in Hlen.
        - by apply elem_of_nil in Hm.
        - apply list_elem_of_singleton in Hm, Hy. congruence.
        - lia. }
      unfold bindM at 1. rewrite entropy_dispatch_new by assumption. reflexivity.
  - intros acc s ->. apply bindM_Err.
    rewrite entropy_dispatch_new by assumption. exact I.
  - reflexivity.
  - apply (bindM_Err _ (fun final => ret (fst final)) self Herr).
Qed.

Lemma statistics_entropy_refused (circuit : QuantumScript)
    (shot_range : option (nat * nat)) (bin_size : option nat)
    (m : measurement) (self : QubitDevice K) :
  m ∈ measurements circuit ->
  is_entropy m = true ->
  custom_wire_labels self = true \/ _shot_vector self <> None ->
  is_Err (fst (statistics circuit shot_range bin_size self)).
Proof.
  intros Hm He Hc. unfold statistics.
  apply (forM_fails (fun s => s = self) _ _ m Hm).
  - intros acc y s Hy ->.
    destruct (decide (1 < length (measurements circuit))%nat) as [Hlen|Hlen].
    + pose proof (statistics_dispatch_pure circuit shot_range bin_size y self Hlen)
        as Hpure.
      unfold bindM.
      destruct (statistics_dispatch circuit shot_range bin_size y self) as [[r|e] s'];
        cbn [snd] in Hpure; subst s'; reflexivity.
    + assert (y = m) as ->.
      { destruct (measurements circuit) as [|m0 [|m1 l]]; cbn [length] in Hlen.
        - by apply elem_of_nil in Hm.
        - apply list_elem_of_singleton in Hm, Hy. congruence.
        - lia. }
      destruct (entropy_dispatch_legacy circuit shot_range bin_size m self He Hc)
        as [e E].
      unfold bindM. rewrite E. reflexivity.
  - intros acc s ->. apply bindM_Err.
    destruct (entropy_dispatch_legacy circuit shot_range bin_size m self He Hc)
      as [e E].
    rewrite E. exact I.
  - reflexivity.
Qed.

(** C6 (amended): a Von Neumann entropy or mutual information measurement
    makes both statistics paths raise when the device has custom wire
    labels; when the device is run with a shot vector, the legacy path
    [statistics] raises. *)
Theorem entropy_measurement_refused (circuit : QuantumScript)
    (shot_range : option (nat * nat)) (bin_size : option nat)
    (m : measurement) (self : QubitDevice K) :
  m ∈ measurements circuit ->
  is_entropy m = true ->
  (custom_wire_labels self = true \/ _shot_vector self <> None ->
   is_Err (fst (statistics circuit shot_range bin_size self)))
  /\ (custom_wire_labels self = true ->
      is_Err (fst (_statistics_new circuit shot_range bin_size self))).
Proof.
  intros Hm He. split.
  - apply statistics_entropy_refused with m; assumption.
  - apply statistics_new_entropy_custom_labels with m; assumption.
Qed.

End Entropy.

Lemma entropy_measurement_refused_witness :
  is_Err (fst (statistics entropy_circuit None None custom_label_device))
  /\ is_Err (fst (statistics entropy_circuit None None shot_vector_device))
  /\ is_Err (fst (_statistics_new entropy_circuit None None custom_label_device)).
Proof.
  destruct (entropy_measurement_refused (Kernel0 := fixed_kernel) entropy_circuit
              None None (VnEntropyMP [WInt 0] None) custom_label_device)
    as [H1 H2]; [left|reflexivity|].
  destruct (entropy_measurement_refused (Kernel0 := fixed_kernel) entropy_circuit
              None None (VnEntropyMP [WInt 0] None) shot_vector_device)
    as [H3 _]; [left|reflexivity|].
  split; [apply H1; left; reflexivity|].
  split; [apply H3; right; discriminate|].
  apply H2. reflexivity.
Defined.

(** C6 (as stated) fails on the path of the new return types: on a device
    with canonical labels run with a shot vector, [_statistics_new] returns
    the entropy, and so does the execution that goes through it. *)
Lemma entropy_with_shot_vector_computed :
  fst (_statistics_new entropy_circuit None None shot_vector_device) = Ok [VOpaque 0]
  /\ is_Ok (fst (_execute_new entropy_circuit shot_vector_device))
  /\ ~ is_Err (fst (_statistics_new entropy_circuit None None shot_vector_device)).
Proof.
  split; [vm_compute; reflexivity|].
  split; [vm_compute; exact I|].
  vm_compute. intros H. exact H.
Qed.

(* ===================================================================== *)
(** * Classical shadows: the recipes *)
(* ===================================================================== *)

Lemma bindM_Ok_inv {K A B : Type} (c : M K A) (k : A -> M K B)
    (s s'' : QubitDevice K) (b : B) :
  bindM c k s = (Ok b, s'') ->
  exists a s', c s = (Ok a, s') /\ k a s' = (Ok b, s'').
Proof.
  unfold bindM. destruct (c s) as [[a|e] s']; [|discriminate].
  intros E. exists a, s'. split; [reflexivity|exact E].
Qed.

Lemma read_Ok_inv {K A : Type} (f : QubitDevice K -> result A)
    (s s' : QubitDevice K) (a : A) :
  read f s = (Ok a, s') -> f s = Ok a /\ s' = s.
Proof. unfold read. intros E. injection E as E1 E2. split; [exact E1|symmetry; exact E2]. Qed.

Lemma cast_int8_recipe (r : Z) : 0 <= r < 3 -> cast int8 r = r.
Proof.
  intros H. assert (r = 0 \/ r = 1 \/ r = 2) as [->|[->| ->]] by lia; reflexivity.
Qed.

Lemma cast_int8_recipes (recipes : list (list Z)) :
  Forall (Forall (fun r => 0 <= r < 3)) recipes ->
  map (map (cast int8)) recipes = recipes.
Proof.
  induction 1 as [|row rows Hrow _ IH]; [reflexivity|].
  cbn [map]. rewrite IH. f_equal.
  induction Hrow as [|r row Hr _ IHrow]; [reflexivity|].
  cbn [map]. rewrite IHrow, cast_int8_recipe by exact Hr. reflexivity.
Qed.

Section Shadows.

Context {K O : Type} `{!Kernel K O}.

(** The recipes that a successful run of the protocol returns are the
    draws of the generator seeded by the measurement. *)
Lemma classical_shadow_recipes (ws : list wire) (seed : Z) (T : nat)
    (circuit : QuantumScript) (self self' : QubitDevice K)
    (bits recipes : list (list Z)) :
  shots self = Some T ->
  classical_shadow ws (Some seed) (Some circuit) self = (Ok (bits, recipes), self') ->
  recipes = map (map (cast int8)) (RandomState_randint seed 0 3 T (length ws)).
Proof.
  intros Hshots E. unfold classical_shadow in E.
  apply bindM_Ok_inv in E as (n_snapshots & s0 & E0 & E).
  apply read_Ok_inv in E0 as [E0 ->]. injection E0 as <-.
  unfold set_shots in E. cbn [set_shot_attributes] in E.
  match type of E with
  | context [bindM ?c ?k ?s] => destruct (bindM c k s) as [r s2] eqn:Eb
  end.
  injection E as -> _.
  apply bindM_Ok_inv in Eb as (mapped_wires & s1 & _ & Eb).
  apply bindM_Ok_inv in Eb as (seed' & s3 & E1 & Eb).
  apply read_Ok_inv in E1 as [E1 ->]. injection E1 as <-.
  apply bindM_Ok_inv in Eb as (n & s4 & E2 & Eb).
  apply read_Ok_inv in E2 as [E2 ->].
  rewrite Hshots in E2. injection E2 as <-.
  apply bindM_Ok_inv in Eb as (outcomes & s5 & _ & Eb).
  unfold ret in Eb. injection Eb as _ <- _. reflexivity.
Qed.

(** C9.  Two successful runs of the classical-shadow protocol with the same
    seed, the same number of shots and the same measured wires return the
    same recipes, whatever the two circuits and the two states of the device
    are: the recipes are the draws of the generator seeded by the
    measurement, each of them 0, 1 or 2 when the generator keeps to the
    range it is asked for. *)
Theorem shadow_recipes_reproducible (ws : list wire) (seed : Z) (T : nat)
    (circuit1 circuit2 : QuantumScript) (self1 self2 self1' self2' : QubitDevice K)
    (bits1 recipes1 bits2 recipes2 : list (list Z)) :
  shots self1 = Some T ->
  shots self2 = Some T ->
  Forall (Forall (fun r => 0 <= r < 3)) (RandomState_randint seed 0 3 T (length ws)) ->
  classical_shadow ws (Some seed) (Some circuit1) self1 = (Ok (bits1, recipes1), self1') ->
  classical_shadow ws (Some seed) (Some circuit2) self2 = (Ok (bits2, recipes2), self2') ->
  recipes1 = recipes2
  /\ recipes1 = RandomState_randint seed 0 3 T (length ws)
  /\ Forall (Forall (fun r => r = 0 \/ r = 1 \/ r = 2)) recipes1.
Proof.
  intros H1 H2 Hrange E1 E2.
  apply (classical_shadow_recipes ws seed T) in E1; [|exact H1].
  apply (classical_shadow_recipes ws seed T) in E2; [|exact H2].
  rewrite cast_int8_recipes in E1, E2 by exact Hrange. subst recipes1 recipes2.
  split; [reflexivity|]. split; [reflexivity|].
  eapply Forall_impl; [exact Hrange|]. intros row Hrow.
  eapply Forall_impl; [exact Hrow|]. intros r Hr. cbv beta in Hr. lia.
Qed.

End Shadows.

Lemma shadow_recipes_reproducible_witness :
  [[1]; [2]] = [[1]; [2]]
  /\ [[1]; [2]] = counting_randint 7 0 3 2 (length [WInt 0])
  /\ Forall (Forall (fun r => r = 0 \/ r = 1 \/ r = 2)) [[1]; [2]].
Proof.
  refine (shadow_recipes_reproducible (Kernel0 := fixed_kernel) [WInt 0] 7 2
            shadow_circuit empty_shadow_circuit
            single_qubit_sampler two_qubit_sampler
            (snd (classical_shadow [WInt 0] (Some 7) (Some shadow_circuit)
                                   single_qubit_sampler))
            (snd (classical_shadow [WInt 0] (Some 7) (Some empty_shadow_circuit)
                                   two_qubit_sampler))
            [[0]; [0]] [[1]; [2]] [[0]; [0]] [[1]; [2]] _ _ _ _ _).
  - reflexivity.
  - reflexivity.
  - apply (bool_decide_unpack _). vm_compute. exact I.
  - vm_compute. reflexivity.
  - vm_compute. reflexivity.
Defined.

(* ===================================================================== *)
(** * Further properties: basis states and sample buffers *)
(* ===================================================================== *)

Lemma arange_lookup (n i : nat) : (i < n)%nat -> arange n !! i = Some (Z.of_nat i).
Proof.
  intros Hi. unfold arange. change (map ?f ?l) with (f <$> l).
  rewrite list_lookup_fmap, lookup_seq_lt by exact Hi. reflexivity.
Qed.

(** X1.  For every number of wires [n >= 1], on both branches,
    [generate_basis_states] returns the table of the [2^n] basis states in
    increasing order: row [i] holds [n] bits that spell [i], the most
    significant bit first. *)
Theorem generate_basis_states_table (n : nat) :
  (0 < n)%nat ->
  exists rows,
    generate_basis_states n = Ok rows
    /\ length rows = (2 ^ n)%nat
    /\ forall i, (i < 2 ^ n)%nat ->
         exists row, rows !! i = Some row
                     /\ length row = n
                     /\ Forall is_bit row
                     /\ value_lsb (rev row) = Z.of_nat i.
Proof.
  intros Hn. exists (product01 n).
  split; [apply generate_basis_states_ok; exact Hn|].
  split; [apply product01_length|].
  intros i Hi. exists (rev (bits_lsb n (Z.of_nat i))).
  split; [|split; [|split]].
  - rewrite product01_rows. change (map ?f ?l) with (f <$> l).
    rewrite list_lookup_fmap, arange_lookup by exact Hi. reflexivity.
  - rewrite length_rev. apply bits_lsb_length.
  - apply Forall_rev. apply bits_lsb_are_bits.
  - rewrite rev_involutive, value_lsb_bits. apply Z.mod_small.
    split; [lia|]. change 2 with (Z.of_nat 2). rewrite <- Nat2Z.inj_pow. lia.
Qed.

Lemma generate_basis_states_table_witness :
  exists rows,
    generate_basis_states 33 = Ok rows
    /\ length rows = (2 ^ 33)%nat
    /\ forall i, (i < 2 ^ 33)%nat ->
         exists row, rows !! i = Some row
                     /\ length row = 33%nat
                     /\ Forall is_bit row
                     /\ value_lsb (rev row) = Z.of_nat i.
Proof. apply (generate_basis_states_table 33). lia. Defined.

Lemma states_to_binary_shape (samples : list Z) (n : nat) (d : dtype) :
  length (states_to_binary samples n d) = length samples
  /\ well_formed_buffer n (states_to_binary samples n d).
Proof.
  unfold states_to_binary. split; [rewrite !length_map; reflexivity|].
  apply Forall_forall. intros row Hrow.
  apply list_elem_of_In, in_map_iff in Hrow as (r & <- & Hr).
  apply in_map_iff in Hr as (s & <- & _).
  split.
  - rewrite length_rev, !length_map. unfold arange. rewrite length_map, length_seq.
    reflexivity.
  - apply Forall_rev. apply Forall_forall. intros b Hb.
    apply list_elem_of_In, in_map_iff in Hb as (x & <- & _).
    unfold is_bit. destruct (0 <? x); auto.
Qed.

(** X2.  [states_to_binary] turns any array of samples, for any number of
    wires and any dtype, into one row of [n] bits per sample; for up to 63
    wires (the default int64) and samples below [2^n], the dot product with
    the descending powers of two recovers every sample. *)
Theorem states_to_binary_buffer (samples : list Z) (n : nat) :
  (length (states_to_binary samples n int64) = length samples
   /\ well_formed_buffer n (states_to_binary samples n int64))
  /\ ((n <= 63)%nat ->
      Forall (fun s => 0 <= s < 2 ^ Z.of_nat n) samples ->
      map binary_to_index (states_to_binary samples n int64) = samples).
Proof.
  split; [apply states_to_binary_shape|].
  intros Hn Hs. rewrite states_to_binary_rows by exact Hn. rewrite map_map.
  induction Hs as [|s samples Hs _ IH]; [reflexivity|].
  cbn [map]. rewrite IH. f_equal.
  rewrite binary_to_index_msb.
  - rewrite value_lsb_bits. apply Z.mod_small. exact Hs.
  - rewrite bits_lsb_length. exact Hn.
  - apply bits_lsb_are_bits.
Qed.

Lemma states_to_binary_buffer_witness :
  map binary_to_index (states_to_binary [5; 0; 7; 2] 3 int64) = [5; 0; 7; 2].
Proof.
  apply (states_to_binary_buffer [5; 0; 7; 2] 3).
  - lia.
  - apply (bool_decide_unpack _). vm_compute. exact I.
Defined.

(* ===================================================================== *)
(** * Further properties: marginal probabilities *)
(* ===================================================================== *)





(** ** Sorting sorted lists *)

Lemma sort_increasing (l : list nat) (s : nat) :
  increasing l = true ->
  fold_right (fun p acc => insert_sorted (fst p) (snd p) acc) []
             (combine l (seq s (length l)))
  = combine l (seq s (length l)).
Proof.
  revert s. induction l as [|a l IH]; intros s H; [reflexivity|].
  cbn [length seq combine fold_right fst snd].
  destruct l as [|b l']; [reflexivity|].
  cbn [increasing] in H. apply andb_true_iff in H as [Hab H].
  rewrite IH by exact H. cbn [length seq combine insert_sorted].
  apply Nat.ltb_lt in Hab.
  destruct (Nat.leb_spec a b); [reflexivity|lia].
Qed.

Lemma argsort_increasing (l : list nat) :
  increasing l = true -> argsort l = seq 0 (length l).
Proof.
  intros H. unfold argsort, sort_by_key. rewrite sort_increasing by exact H.
  apply map_snd_combine. rewrite length_seq. reflexivity.
Qed.

Lemma increasing_seq (s n : nat) : increasing (seq s n) = true.
Proof.
  revert s. induction n as [|n IH]; intros s; [reflexivity|].
  cbn [seq increasing]. destruct n as [|n']; [reflexivity|].
  specialize (IH (S s)). cbn [seq] in IH |- *.
  apply andb_true_iff. split; [apply Nat.ltb_lt; lia|exact IH].
Qed.

Lemma argsort_argsort_increasing (l : list nat) :
  increasing l = true -> argsort (argsort l) = seq 0 (length l).
Proof.
  intros H. rewrite (argsort_increasing l H).
  rewrite argsort_increasing by apply increasing_seq.
  rewrite length_seq. reflexivity.
Qed.

(** ** Gathering *)

Lemma map_nth_seq (row : list Z) :
  map (fun c => nth c row 0) (seq 0 (length row)) = row.
Proof.
  apply list_eq. intros i. change (map ?f ?l) with (f <$> l).
  rewrite list_lookup_fmap.
  destruct (decide (i < length row)%nat) as [Hi|Hi].
  - rewrite lookup_seq_lt by exact Hi. cbn [fmap option_fmap option_map Nat.add].
    destruct (lookup_lt_is_Some_2 row i Hi) as [x Hx]. rewrite Hx.
    f_equal. apply nth_lookup_Some with (d := 0) in Hx. exact Hx.
  - rewrite lookup_seq_ge by lia. rewrite lookup_ge_None_2 by lia. reflexivity.
Qed.

Lemma basis_table_indices (k : nat) :
  (k <= 63)%nat ->
  map (fun row => dotZ row (powers_of_two_desc k)) (product01 k) = arange (2 ^ k).
Proof.
  intros Hk. rewrite product01_rows, map_map.
  rewrite <- (map_id (arange (2 ^ k))) at 2.
  apply map_ext_in. intros i Hi. apply arange_range in Hi.
  pose proof (binary_to_index_msb (bits_lsb k i)) as H.
  unfold binary_to_index in H. rewrite length_rev, bits_lsb_length in H.
  rewrite H; [|exact Hk|apply bits_lsb_are_bits].
  rewrite value_lsb_bits. apply Z.mod_small.
  rewrite Nat2Z.inj_pow in Hi. exact Hi.
Qed.

Lemma gather_ok (prob : list Qc) (perm : list Z) :
  Forall (in_range (length prob)) perm ->
  mapR (getitemZ prob) perm = Ok (map (fun i => nth (Z.to_nat i) prob 0%Qc) perm).
Proof.
  intros H. apply mapR_ok. intros i Hi. apply getitemZ_in_range.
  rewrite Forall_forall in H. apply H, Hi.
Qed.

Lemma gather_arange (prob : list Qc) :
  map (fun i => nth (Z.to_nat i) prob 0%Qc) (arange (length prob)) = prob.
Proof.
  unfold arange. rewrite map_map.
  apply list_eq. intros i. change (map ?f ?l) with (f <$> l).
  rewrite list_lookup_fmap.
  destruct (decide (i < length prob)%nat) as [Hi|Hi].
  - rewrite lookup_seq_lt by exact Hi. cbn [fmap option_fmap option_map Nat.add].
    rewrite Nat2Z.id.
    destruct (lookup_lt_is_Some_2 prob i Hi) as [x Hx]. rewrite Hx.
    f_equal. apply nth_lookup_Some with (d := 0%Qc) in Hx. exact Hx.
  - rewrite lookup_seq_ge by lia. rewrite lookup_ge_None_2 by lia. reflexivity.
Qed.

Lemma arange_in_range (n : nat) : Forall (in_range n) (arange n).
Proof.
  apply Forall_forall. intros i Hi. apply list_elem_of_In in Hi.
  apply arange_range in Hi. exact Hi.
Qed.

(** ** Permuting the columns of the table of basis states *)


Section Marginal.

Context {K : Type} (self : QubitDevice K).

(** What [marginal_prob] computes for a request of wires: the entries of
    the summed-out vector gathered at the indices that the re-ordered table
    of basis states spells. *)
Lemma marginal_prob_unfold (prob : list Qc) (ws : list wire) :
  NoDup ws -> ws ⊆ wires self -> ws <> [] ->
  length prob = (2 ^ num_wires self)%nat ->
  marginal_prob self prob (Some ws)
  = mapR (getitemZ (marginal_axes (wires self) ws prob))
         (map (fun row => dotZ row (powers_of_two_desc (length ws)))
              (map (fun row =>
                      map (fun c => nth c row 0)
                          (argsort (argsort (spec_mapped (wires self) ws))))
                   (product01 (length ws)))).
Proof.
  intros Hnd Hsub Hne Hlen. unfold marginal_prob.
  rewrite Wires_ok by exact Hnd. cbn [bind].
  rewrite map_wires_ok by exact Hsub. cbn [bind].
  rewrite map_wires_ok by (apply unique_wires_subset; exact Hsub). cbn [bind].
  rewrite Hlen, Nat.eqb_refl. cbn [negb].
  assert (Hk : length (spec_mapped (wires self) ws) = length ws)
    by (unfold spec_mapped; apply length_map).
  rewrite Hk.
  rewrite generate_basis_states_ok by (destruct ws; [contradiction|simpl; lia]).
  cbn [bind].
  rewrite (take_columns_ok (length ws)).
  - cbn [bind]. reflexivity.
  - apply Forall_forall. intros row Hrow. apply product01_spec in Hrow as [H _]. exact H.
  - apply Forall_forall. intros c Hc. apply argsort_lt in Hc.
    rewrite argsort_length, Hk in Hc. exact Hc.
Qed.


Lemma marginal_prob_sorted (prob : list Qc) (ws : list wire) :
  NoDup (wires self) ->
  NoDup ws -> ws ⊆ wires self -> ws <> [] -> (length ws <= 63)%nat ->
  increasing (spec_mapped (wires self) ws) = true ->
  length prob = (2 ^ num_wires self)%nat ->
  marginal_prob self prob (Some ws) = Ok (marginal_axes (wires self) ws prob).
Proof.
  intros Hreg Hnd Hsub Hne Hk Hinc Hlen.
  rewrite marginal_prob_unfold by assumption.
  rewrite argsort_argsort_increasing by exact Hinc.
  unfold spec_mapped at 1. rewrite length_map.
  assert (Hrows : map (fun row => map (fun c => nth c row 0) (seq 0 (length ws)))
                      (product01 (length ws)) = product01 (length ws)).
  { rewrite <- (map_id (product01 (length ws))) at 2.
    apply map_ext_in. intros row Hrow.
    apply list_elem_of_In, product01_spec in Hrow as [Hl _].
    rewrite <- Hl. apply map_nth_seq. }
  rewrite Hrows, basis_table_indices by exact Hk.
  rewrite <- (marginal_length (wires self) ws prob) by assumption.
  fold (marginal_axes (wires self) ws prob).
  rewrite gather_ok by apply arange_in_range.
  rewrite gather_arange. reflexivity.
Qed.

Lemma unique_wires_all : unique_wires (wires self) (wires self) = [].
Proof.
  unfold unique_wires.
  assert (Hf : forall l, l ⊆ wires self -> filter (fun w => w ∉ wires self) l = []).
  { induction l as [|w l IH]; intros Hl; [reflexivity|].
    rewrite filter_cons. destruct (decide (w ∉ wires self)) as [H|_].
    - exfalso. apply H, Hl. left.
    - apply IH. intros x Hx. apply Hl. right. exact Hx. }
  rewrite Hf by reflexivity. reflexivity.
Qed.

(** X4.  For wires requested in the order of the registry,
    [marginal_prob] returns exactly the vector with the other wires summed
    out, entry by entry; requesting every wire in registry order returns
    the vector unchanged. *)
Theorem marginal_prob_registry_order (prob : list Qc) (ws : list wire) :
  NoDup (wires self) ->
  NoDup ws -> ws ⊆ wires self -> ws <> [] -> (length ws <= 63)%nat ->
  increasing (spec_mapped (wires self) ws) = true ->
  length prob = (2 ^ num_wires self)%nat ->
  marginal_prob self prob (Some ws) = Ok (marginal_axes (wires self) ws prob)
  /\ (ws = wires self -> marginal_prob self prob (Some ws) = Ok prob).
Proof.
  intros Hreg Hnd Hsub Hne Hk Hinc Hlen.
  pose proof (marginal_prob_sorted prob ws Hreg Hnd Hsub Hne Hk Hinc Hlen) as Hmain.
  split; [exact Hmain|].
  intros E. rewrite Hmain. f_equal. unfold marginal_axes.
  rewrite E, unique_wires_all. apply reduce_sum_nothing.
Qed.

End Marginal.


Lemma marginal_prob_registry_order_witness :
  marginal_prob (canonical_device 3 None None None tt)
                (map Qc_of_Z [1; 2; 3; 4; 5; 6; 7; 8]) (Some [WInt 0; WInt 2])
  = Ok (marginal_axes (wires (canonical_device 3 None None None tt))
                      [WInt 0; WInt 2] (map Qc_of_Z [1; 2; 3; 4; 5; 6; 7; 8])).
Proof.
  apply (marginal_prob_registry_order (canonical_device 3 None None None tt)
           (map Qc_of_Z [1; 2; 3; 4; 5; 6; 7; 8]) [WInt 0; WInt 2]).
  - apply (bool_decide_unpack _). vm_compute. exact I.
  - apply (bool_decide_unpack _). vm_compute. exact I.
  - apply (bool_decide_unpack _). vm_compute. exact I.
  - discriminate.
  - simpl. lia.
  - reflexivity.
  - reflexivity.
Defined.

(* ===================================================================== *)
(** * Further properties: samples of Pauli observables *)
(* ===================================================================== *)

Lemma Qc_of_nat_S (n : nat) : Qc_of_nat (S n) = (Qc_of_nat n + 1)%Qc.
Proof.
  replace (S n) with (n + 1)%nat by lia. rewrite Qc_of_nat_add. reflexivity.
Qed.

Lemma Qc_of_nat_nonneg (n : nat) : (0 <= Qc_of_nat n)%Qc.
Proof.
  induction n as [|n IH]; [rewrite Qc_of_nat_0; apply Qcle_refl|].
  rewrite Qc_of_nat_S. replace 0%Qc with (0 + 0)%Qc by ring.
  apply Qcplus_le_compat; [exact IH|]. discriminate.
Qed.

Lemma Qc_of_nat_pos (n : nat) : n <> 0%nat -> (0 < Qc_of_nat n)%Qc.
Proof.
  intros Hn. destruct (Qcle_lt_or_eq _ _ (Qc_of_nat_nonneg n)) as [H|H]; [exact H|].
  exfalso. apply (Qc_of_nat_nonzero n Hn). symmetry. exact H.
Qed.

Lemma pauli_eigenvalue_cast (b : Z) :
  is_bit b -> Qc_of_Z (cast int64 (1 - 2 * b)) = pauli_eigenvalue b.
Proof. intros [->| ->]; apply Qc_is_canon; reflexivity. Qed.

Lemma pauli_eigenvalue_square (b : Z) : (pauli_eigenvalue b * pauli_eigenvalue b = 1)%Qc.
Proof. unfold pauli_eigenvalue. destruct (decide (b = 0)); ring. Qed.

Lemma pauli_eigenvalue_bounds (b : Z) :
  (- (1) <= pauli_eigenvalue b)%Qc /\ (pauli_eigenvalue b <= 1)%Qc.
Proof. unfold pauli_eigenvalue. destruct (decide (b = 0)); split; discriminate. Qed.

Lemma pauli_eigenvalue_Z (b : Z) :
  is_bit b -> pauli_eigenvalue b = Qc_of_Z (1 - 2 * b).
Proof. intros [->| ->]; apply Qc_is_canon; reflexivity. Qed.

(** Float64 additions of integers are exact while the partial sums stay
    below [2^53]. *)
Lemma float_sum_integers (zs : list Z) (a : Z) :
  Forall (fun z => -1 <= z <= 1) zs ->
  Z.abs a + Z.of_nat (length zs) < 2 ^ 53 ->
  fold_left (fun acc x => round_float float64 (acc + x)%Qc) (map Qc_of_Z zs) (Qc_of_Z a)
  = Qc_of_Z (a + fold_right Z.add 0 zs).
Proof.
  intros Hz. revert a. induction Hz as [|z zs Hz _ IH]; intros a Ha.
  - cbn [map fold_left fold_right]. rewrite Z.add_0_r. reflexivity.
  - cbn [map fold_left fold_right length] in *.
    rewrite <- Z2Qc_inj_add, round_float_Z by (change (precision float64) with 53; lia).
    rewrite IH by lia. f_equal. lia.
Qed.

Lemma fold_right_add_bounds (zs : list Z) :
  Forall (fun z => -1 <= z <= 1) zs ->
  - Z.of_nat (length zs) <= fold_right Z.add 0 zs <= Z.of_nat (length zs).
Proof.
  induction 1 as [|z zs Hz _ IH]; cbn [fold_right length]; lia.
Qed.

Lemma round_float_unit_interval (d : float_dtype) (x : Qc) :
  (- (1) <= x)%Qc -> (x <= 1)%Qc ->
  (- (1) <= round_float d x)%Qc /\ (round_float d x <= 1)%Qc.
Proof.
  intros L U. destruct (Qclt_le_dec x 0) as [N|P].
  - assert (P0 : (0 <= - x)%Qc).
    { apply Qclt_le_weak in N. apply Qcopp_le_compat in N. exact N. }
    assert (P1 : (- x <= 1)%Qc).
    { apply Qcopp_le_compat in L. rewrite Qcopp_involutive in L. exact L. }
    pose proof (round_float_nonneg d _ P0) as R0.
    pose proof (round_float_le_1 d _ P0 P1) as R1.
    rewrite round_float_opp in R0, R1. split.
    + apply Qcopp_le_compat in R1. rewrite Qcopp_involutive in R1. exact R1.
    + apply Qcopp_le_compat in R0. rewrite Qcopp_involutive in R0.
      eapply Qcle_trans; [exact R0|]. discriminate.
  - split.
    + eapply Qcle_trans; [|apply round_float_nonneg, P]. discriminate.
    + apply round_float_le_1; assumption.
Qed.

(** A quotient of an integer by a larger natural number. *)
Lemma quotient_unit_interval (s : Z) (n : nat) :
  - Z.of_nat n <= s <= Z.of_nat n ->
  (- (1) <= Qc_of_Z s / Qc_of_nat n)%Qc /\ (Qc_of_Z s / Qc_of_nat n <= 1)%Qc.
Proof.
  intros H. unfold Qcle. rewrite this_Qcdiv, this_Qc_of_nat.
  change (this (Qc_of_Z s)) with (inject_Z s). change (this (- (1))%Qc) with (- (1))%Q.
  change (this 1%Qc) with 1%Q.
  destruct n as [|n].
  - assert (s = 0) as -> by lia. split; discriminate.
  - assert (P : (0 < inject_Z (Z.of_nat (S n)))%Q) by (rewrite <- (Zlt_Qlt 0); lia).
    split.
    + apply Qle_shift_div_l; [exact P|].
      setoid_replace (- (1) * inject_Z (Z.of_nat (S n)))%Q
        with (inject_Z (- Z.of_nat (S n))) using relation Qeq by (rewrite inject_Z_opp; ring).
      rewrite <- Zle_Qle. lia.
    + apply Qle_shift_div_r; [exact P|]. rewrite Qmult_1_l, <- Zle_Qle. lia.
Qed.

(** The float64 sum of numbers that are not negative is not negative. *)
Lemma float_sum_nonneg (xs : list Qc) (acc : Qc) :
  Forall (fun x => (0 <= x)%Qc) xs -> (0 <= acc)%Qc ->
  (0 <= fold_left (fun acc x => round_float float64 (acc + x)%Qc) xs acc)%Qc.
Proof.
  intros H. revert acc. induction H as [|x xs Hx _ IH]; intros acc Ha; [exact Ha|].
  cbn [fold_left]. apply IH. apply round_float_nonneg.
  replace 0%Qc with (0 + 0)%Qc by ring. apply Qcplus_le_compat; assumption.
Qed.

Lemma Qcdiv_nonneg (a : Qc) (n : nat) : (0 <= a)%Qc -> (0 <= a / Qc_of_nat n)%Qc.
Proof.
  intros Ha. unfold Qcle in *. rewrite this_Qcdiv, this_Qc_of_nat.
  change (this 0%Qc) with 0%Q in *.
  destruct n as [|n].
  - unfold Qdiv. change (/ inject_Z (Z.of_nat 0))%Q with 0%Q. rewrite Qmult_0_r. apply Qle_refl.
  - apply Qle_shift_div_l; [rewrite <- (Zlt_Qlt 0); lia|]. rewrite Qmult_0_l. exact Ha.
Qed.

(** The estimated variance is never negative. *)
Lemma variance_nonneg (xs : list Qc) : (0 <= variance xs)%Qc.
Proof.
  unfold variance. apply round_float_nonneg, Qcdiv_nonneg.
  unfold float_sum. apply float_sum_nonneg; [|apply Qcle_refl].
  apply Forall_forall. intros y Hy.
  apply list_elem_of_In, in_map_iff in Hy as (a & <- & _).
  apply round_float_nonneg.
  unfold Qcle. rewrite this_Qcmult. change (this 0%Qc) with 0%Q.
  destruct (Qlt_le_dec (this a) 0) as [N|P].
  - setoid_replace (this a * this a)%Q with ((- this a) * (- this a))%Q using relation Qeq by ring.
    apply Qmult_le_0_compat; lra.
  - apply Qmult_le_0_compat; assumption.
Qed.

(** The mean of the samples of a Pauli observable. *)
Lemma mean_pauli (bits : list Z) :
  Forall is_bit bits ->
  Z.of_nat (length bits) < 2 ^ 53 ->
  mean (map pauli_eigenvalue bits)
  = round_float float64 (Qc_of_Z (fold_right Z.add 0%Z (map (fun b => (1 - 2 * b)%Z) bits))
                         / Qc_of_nat (length bits))%Qc.
Proof.
  intros Hb Hn. unfold mean, float_sum. rewrite length_map.
  assert (E : map pauli_eigenvalue bits = map Qc_of_Z (map (fun b => 1 - 2 * b) bits)).
  { rewrite map_map. apply map_ext_in. intros b Hin. apply pauli_eigenvalue_Z.
    rewrite Forall_forall in Hb. apply Hb, list_elem_of_In, Hin. }
  rewrite E. replace 0%Qc with (Qc_of_Z 0) by apply Z2Qc_inj_0.
  rewrite float_sum_integers.
  - rewrite Z.add_0_l. reflexivity.
  - apply Forall_forall. intros z Hz.
    apply list_elem_of_In, in_map_iff in Hz as (b & <- & Hin).
    rewrite Forall_forall in Hb. destruct (Hb b (proj2 (list_elem_of_In _ _) Hin)) as [->| ->]; lia.
  - rewrite length_map. simpl Z.abs. lia.
Qed.

Section PauliSamples.

Context {K : Type} (self : QubitDevice K).
Context (op : operator) (w : wire) (rt : option ObservableReturnTypes).
Context (shot_range : option (nat * nat)) (rows : list (list Z)).
Hypothesis pauli : is_pauli_name (Some (op_name op)) = true.
Hypothesis one_wire : op_wires op = [w].
Hypothesis registered : w ∈ wires self.
Hypothesis selected : selected_samples self shot_range = Ok rows.
Hypothesis well_formed : well_formed_buffer (num_wires self) rows.

Lemma sample_pauli :
  sample self (OnObservable (mkObservable (Single op) rt)) shot_range None false
  = Ok (Samples1
          (map (fun row => pauli_eigenvalue (nth (registry_position (wires self) w) row 0))
               rows)).
Proof.
  unfold sample. cbn [target_wires body obs_wires obs_name]. rewrite one_wire.
  rewrite map_wires_ok by (intros x Hx; apply list_elem_of_singleton in Hx; subst; exact registered).
  cbn [bind]. rewrite (sub_samples_selected self shot_range rows selected). cbn [bind].
  rewrite pauli. unfold spec_mapped. cbn [map getitem nth_error bind subscriptable].
  rewrite (mapR_ok _ (fun row => nth (registry_position (wires self) w) row 0)).
  - cbn [bind length Nat.ltb Nat.leb]. rewrite map_map. do 2 f_equal.
    apply map_ext_in. intros row Hrow. apply pauli_eigenvalue_cast, is_bit_nth.
    unfold well_formed_buffer in well_formed. rewrite Forall_forall in well_formed.
    apply (well_formed row), list_elem_of_In, Hrow.
  - intros row Hrow. apply getitem_ok.
    unfold well_formed_buffer in well_formed. rewrite Forall_forall in well_formed.
    destruct (well_formed row Hrow) as [-> _]. apply registry_position_lt, registered.
Qed.

End PauliSamples.

(** X5.  The samples of a Pauli observable on a registered wire are the
    eigenvalues read off the bits of that wire in the selected shots: [1]
    for the bit 0 and [-1] for the bit 1, one per shot. *)
Theorem sample_pauli_eigenvalues {K : Type} (self : QubitDevice K)
    (op : operator) (w : wire) (rt : option ObservableReturnTypes)
    (shot_range : option (nat * nat)) (rows : list (list Z)) :
  is_pauli_name (Some (op_name op)) = true ->
  op_wires op = [w] ->
  w ∈ wires self ->
  selected_samples self shot_range = Ok rows ->
  well_formed_buffer (num_wires self) rows ->
  exists vals,
    sample self (OnObservable (mkObservable (Single op) rt)) shot_range None false
    = Ok (Samples1 vals)
    /\ length vals = length rows
    /\ forall i row, rows !! i = Some row ->
         vals !! i = Some (if decide (nth (registry_position (wires self) w) row 0 = 0)
                           then 1%Qc else (-1)%Qc).
Proof.
  intros Hp Hw Hreg Hsel Hwf. eexists. split; [|split].
  - apply sample_pauli; eassumption.
  - apply length_map.
  - intros i row Hi. change (map ?f ?l) with (f <$> l).
    rewrite list_lookup_fmap, Hi. reflexivity.
Qed.

Lemma sample_pauli_eigenvalues_witness :
  exists vals,
    sample (canonical_device 2 (Some 3%nat) None (Some docstring_samples) tt)
           (OnObservable (mkObservable (Single (PauliZ (WInt 0))) (Some Sample)))
           None None false
    = Ok (Samples1 vals)
    /\ length vals = length docstring_samples
    /\ forall i row, docstring_samples !! i = Some row ->
         vals !! i
         = Some (if decide (nth (registry_position
                                   (wires (canonical_device 2 (Some 3%nat) None
                                                            (Some docstring_samples) tt))
                                   (WInt 0)) row 0 = 0)
                 then 1%Qc else (-1)%Qc).
Proof.
  apply (sample_pauli_eigenvalues
           (canonical_device 2 (Some 3%nat) None (Some docstring_samples) tt)
           (PauliZ (WInt 0)) (WInt 0) (Some Sample) None docstring_samples).
  - reflexivity.
  - reflexivity.
  - apply (bool_decide_unpack _). vm_compute. exact I.
  - reflexivity.
  - unfold well_formed_buffer, is_bit. apply (bool_decide_unpack _). vm_compute. exact I.
Defined.

Section PauliStatistics.

Context {K O : Type} `{!Kernel K O} (self : QubitDevice K).

(** X6.  On a device with finite shots and a non-empty well-formed
    selection of fewer than [2^53] samples, the estimated expectation value
    of a Pauli observable on a registered wire is the float64 quotient of
    the number of samples with the bit 0 on that wire minus the number with
    the bit 1 by the number of samples; it lies between -1 and 1, and the
    estimated variance is not negative. *)
Theorem pauli_estimates (op : operator) (w : wire) (rt : option ObservableReturnTypes)
    (shot_range : option (nat * nat)) (rows : list (list Z)) (n : nat) :
  shots self = Some n ->
  is_pauli_name (Some (op_name op)) = true ->
  op_wires op = [w] ->
  w ∈ wires self ->
  selected_samples self shot_range = Ok rows ->
  rows <> [] ->
  Z.of_nat (length rows) < 2 ^ 53 ->
  well_formed_buffer (num_wires self) rows ->
  exists e v,
    expval self (mkObservable (Single op) rt) shot_range None = Ok (Scalar e)
    /\ e = round_float float64 (Qc_of_Z (pauli_total (wires self) w rows)
                                / Qc_of_nat (length rows))%Qc
    /\ (- (1) <= e)%Qc /\ (e <= 1)%Qc
    /\ var self (mkObservable (Single op) rt) shot_range None = Ok (Scalar v)
    /\ (0 <= v)%Qc.
Proof.
  intros Hshots Hp Hw Hreg Hsel Hne Hn Hwf.
  set (bits := map (fun row => nth (registry_position (wires self) w) row 0) rows).
  assert (Hbits : Forall is_bit bits).
  { apply Forall_forall. intros b Hb.
    apply list_elem_of_In, in_map_iff in Hb as (row & <- & Hrow).
    apply is_bit_nth. unfold well_formed_buffer in Hwf. rewrite Forall_forall in Hwf.
    apply (Hwf row), list_elem_of_In, Hrow. }
  assert (Hvals : map (fun row => pauli_eigenvalue
                                    (nth (registry_position (wires self) w) row 0)) rows
                  = map pauli_eigenvalue bits)
    by (unfold bits; rewrite map_map; reflexivity).
  assert (Hlen : length bits = length rows) by (unfold bits; apply length_map).
  assert (Htotal : fold_right Z.add 0 (map (fun b => 1 - 2 * b) bits)
                   = pauli_total (wires self) w rows)
    by (unfold pauli_total, bits; rewrite map_map; reflexivity).
  assert (Hname : obs_name (Single op) <> Some "Projector").
  { cbn [obs_name]. intros E. injection E as E. rewrite E in Hp. discriminate. }
  assert (Hmean : mean (map pauli_eigenvalue bits)
                  = round_float float64 (Qc_of_Z (pauli_total (wires self) w rows)
                                         / Qc_of_nat (length rows))%Qc).
  { rewrite mean_pauli by (rewrite ?Hlen; assumption). rewrite Htotal, Hlen. reflexivity. }
  assert (Hbound : - Z.of_nat (length rows) <= pauli_total (wires self) w rows
                   <= Z.of_nat (length rows)).
  { rewrite <- Htotal, <- Hlen.
    rewrite <- (length_map (fun b => 1 - 2 * b) bits).
    apply fold_right_add_bounds. apply Forall_forall. intros z Hz.
    apply list_elem_of_In, in_map_iff in Hz as (b & <- & Hin).
    rewrite Forall_forall in Hbits.
    destruct (Hbits b (proj2 (list_elem_of_In _ _) Hin)) as [->| ->]; lia. }
  exists (mean (map pauli_eigenvalue bits)), (variance (map pauli_eigenvalue bits)).
  split; [|split; [exact Hmean|]].
  - unfold expval. cbn [body].
    destruct (decide (obs_name (Single op) = Some "Projector")); [contradiction|].
    rewrite Hshots. rewrite (sample_pauli self op w rt shot_range rows) by assumption.
    rewrite Hvals. reflexivity.
  - rewrite Hmean.
    destruct (quotient_unit_interval _ _ Hbound) as [L U].
    destruct (round_float_unit_interval float64 _ L U) as [L' U'].
    split; [exact L'|]. split; [exact U'|]. split; [|apply variance_nonneg].
    unfold var. cbn [body].
    destruct (decide (obs_name (Single op) = Some "Projector")); [contradiction|].
    rewrite Hshots. rewrite (sample_pauli self op w rt shot_range rows) by assumption.
    rewrite Hvals. reflexivity.
Qed.

End PauliStatistics.

Lemma pauli_estimates_witness :
  exists e v,
    expval (Kernel0 := fixed_kernel)
           (canonical_device 2 (Some 3%nat) None (Some docstring_samples) [])
           (mkObservable (Single (PauliZ (WInt 0))) (Some Expectation)) None None
    = Ok (Scalar e)
    /\ e = round_float float64
             (Qc_of_Z (pauli_total [WInt 0; WInt 1] (WInt 0) docstring_samples)
              / Qc_of_nat 3)%Qc
    /\ (- (1) <= e)%Qc /\ (e <= 1)%Qc
    /\ var (Kernel0 := fixed_kernel)
           (canonical_device 2 (Some 3%nat) None (Some docstring_samples) [])
           (mkObservable (Single (PauliZ (WInt 0))) (Some Expectation)) None None
       = Ok (Scalar v)
    /\ (0 <= v)%Qc.
Proof.
  apply (pauli_estimates (Kernel0 := fixed_kernel)
           (canonical_device 2 (Some 3%nat) None (Some docstring_samples) [])
           (PauliZ (WInt 0)) (WInt 0) (Some Expectation) None docstring_samples 3).
  - reflexivity.
  - reflexivity.
  - reflexivity.
  - apply (bool_decide_unpack _). vm_compute. exact I.
  - reflexivity.
  - discriminate.
  - reflexivity.
  - unfold well_formed_buffer, is_bit. apply (bool_decide_unpack _). vm_compute. exact I.
Defined.

(* ===================================================================== *)
(** * Further properties: counts of the observed outcomes *)
(* ===================================================================== *)

(** The dictionary that [_samples_to_counts] builds from an empty one. *)
Lemma counts_observed (samples : list outcome) :
  fold_left (fun d sc => <[fst sc := Z.of_nat (snd sc)]> d)
            (np_unique samples) (∅ : gmap outcome Z)
  = list_to_map (map (fun k => (k, Z.of_nat (occurrences k samples)))
                     (remove_dups samples)).
Proof.
  apply map_eq. intros key. unfold np_unique.
  rewrite (assign_lookup (fun _ => 0) (fun k => occurrences k samples)
                         (fun _ c => Z.of_nat c)).
  rewrite table_lookup, lookup_empty. reflexivity.
Qed.

Lemma occurrences_pos {A : Type} `{EqDecision A} (k : A) (xs : list A) :
  k ∈ xs -> (0 < occurrences k xs)%nat.
Proof.
  induction xs as [|x xs IH]; intros Hk; [by apply elem_of_nil in Hk|].
  rewrite occurrences_cons. destruct (decide (x = k)) as [|Hne]; [lia|].
  apply elem_of_cons in Hk as [->|Hk]; [congruence|]. specialize (IH Hk). lia.
Qed.

(** The raw samples that [sample] hands to the counting. *)
Lemma sample_raw_rows {K : Type} (self : QubitDevice K) (m : measurement)
    (ws : list wire) (shot_range : option (nat * nat)) (rows : list (list Z)) :
  mp_obs m = None ->
  mp_wires m = ws ->
  ws ⊆ wires self ->
  selected_samples self shot_range = Ok rows ->
  well_formed_buffer (num_wires self) rows ->
  sample self (OnMeasurement m) shot_range None false
  = Ok (Samples2 (measured_rows (wires self) ws rows)).
Proof.
  intros Hobs Hws Hsub Hsel Hwf. unfold sample. cbn [target_wires]. rewrite Hws.
  rewrite (map_wires_ok self ws Hsub). cbn [bind].
  rewrite (sub_samples_selected self shot_range rows Hsel). cbn [bind].
  assert (Hlen : length (spec_mapped (wires self) ws) = length ws)
    by (unfold spec_mapped; apply length_map).
  destruct ws as [|w0 ws'].
  - reflexivity.
  - cbn [length Nat.eqb negb subscriptable bind].
    rewrite (take_columns_ok (num_wires self)).
    + cbn [bind measured_rows]. do 2 f_equal. apply map_ext. intros row. unfold restrict_sample, spec_mapped.
      rewrite map_map. reflexivity.
    + eapply Forall_impl; [exact Hwf|]. intros row [H _]. exact H.
    + apply Forall_forall. intros c Hc. unfold spec_mapped in Hc.
      apply list_elem_of_In, in_map_iff in Hc as (w1 & <- & Hw1).
      apply registry_position_lt, Hsub, list_elem_of_In, Hw1.
Qed.

(** X7.  Counts of the computational basis without the all-outcomes flag:
    the dictionary holds exactly the bit strings that were observed on the
    measured wires, each with the number of shots that gave it (at least
    one), and the counts add up to the number of selected shots. *)
Theorem counts_observed_outcomes {K : Type} (self : QubitDevice K)
    (ws : list wire) (shot_range : option (nat * nat)) (rows : list (list Z)) :
  ws ⊆ wires self ->
  selected_samples self shot_range = Ok rows ->
  well_formed_buffer (num_wires self) rows ->
  let observed := map (fun row => KStr (row_to_string row))
                      (measured_rows (wires self) ws rows) in
  exists d,
    sample self (OnMeasurement (CountsMP None ws false)) shot_range None true
    = Ok (CountsDict d)
    /\ (forall key, key ∈ observed ->
          d !! key = Some (Z.of_nat (occurrences key observed))
          /\ 1 <= Z.of_nat (occurrences key observed))
    /\ (forall key, key ∉ observed -> d !! key = None)
    /\ total_counts d = Z.of_nat (length rows).
Proof.
  intros Hsub Hsel Hwf observed.
  pose proof (sample_raw_rows self (CountsMP None ws false) ws shot_range rows
                eq_refl eq_refl Hsub Hsel Hwf) as Hraw.
  unfold sample in Hraw |- *.
  destruct (map_wires self (target_wires (OnMeasurement (CountsMP None ws false))))
    as [device_wires|e]; [|discriminate].
  cbn [bind] in Hraw |- *.
  destruct (sub_samples_of self shot_range) as [sub|e]; [|discriminate].
  cbn [bind] in Hraw |- *.
  match type of Hraw with
  | (let! samples := ?c in _) = _ => destruct c as [[vals|raw|]|e]
  end; cbn [bind] in Hraw |- *; try discriminate.
  injection Hraw as ->.
  unfold _samples_to_counts. cbn [bind fst snd fold_left].
  fold observed. rewrite counts_observed.
  eexists. split; [reflexivity|]. split; [|split].
  - intros key Hkey. rewrite table_lookup.
    destruct (decide (key ∈ remove_dups observed)) as [_|Hn].
    + split; [reflexivity|]. pose proof (occurrences_pos key observed Hkey). lia.
    + exfalso. apply Hn. apply elem_of_remove_dups. exact Hkey.
  - intros key Hkey. rewrite table_lookup.
    destruct (decide (key ∈ remove_dups observed)) as [Hin|_]; [|reflexivity].
    exfalso. apply Hkey. apply elem_of_remove_dups. exact Hin.
  - rewrite table_total by apply NoDup_remove_dups.
    rewrite (sum_of_nat (fun k => occurrences k observed)).
    rewrite sum_occurrences_cover.
    + unfold observed. rewrite length_map. f_equal.
      unfold measured_rows. destruct ws; [reflexivity|apply length_map].
    + apply NoDup_remove_dups.
    + intros key Hkey. apply elem_of_remove_dups. exact Hkey.
Qed.

Lemma counts_observed_outcomes_witness :
  exists d,
    sample (canonical_device 2 (Some 3%nat) None (Some docstring_samples) tt)
           (OnMeasurement (CountsMP None [] false)) None None true
    = Ok (CountsDict d)
    /\ d !! KStr "00" = Some 2
    /\ d !! KStr "10" = Some 1
    /\ d !! KStr "01" = None
    /\ total_counts d = 3.
Proof.
  destruct (counts_observed_outcomes
              (canonical_device 2 (Some 3%nat) None (Some docstring_samples) tt)
              [] None docstring_samples) as (d & E & Hin & Hout & Htot).
  - apply (bool_decide_unpack _). vm_compute. exact I.
  - reflexivity.
  - unfold well_formed_buffer, is_bit. apply (bool_decide_unpack _). vm_compute. exact I.
  - exists d. split; [exact E|].
    split; [apply (Hin (KStr "00")); apply (bool_decide_unpack _); vm_compute; exact I|].
    split; [apply (Hin (KStr "10")); apply (bool_decide_unpack _); vm_compute; exact I|].
    split; [apply Hout; apply (bool_decide_unpack _); vm_compute; exact I|exact Htot].
Defined.

(* ===================================================================== *)
(** * Further properties: the two statistics paths *)
(* ===================================================================== *)

(** A property of the accumulator that every successful turn carries on
    holds of the result of a successful loop. *)
Lemma forM_invariant {K A B : Type} (Inv : nat -> B -> Prop)
    (body : B -> A -> M K B) (l : list A) :
  (forall i acc x s acc' s',
      Inv i acc -> body acc x s = (Ok acc', s') -> Inv (S i) acc') ->
  forall i acc s r s',
    Inv i acc -> forM body l acc s = (Ok r, s') -> Inv (i + length l)%nat r.
Proof.
  intros Hstep. induction l as [|x l IH]; intros i acc s r s' Hacc E.
  - cbn [forM] in E. unfold ret in E. injection E as <- _.
    cbn [length]. rewrite Nat.add_0_r. exact Hacc.
  - cbn [forM] in E. unfold bindM in E.
    destruct (body acc x s) as [[acc'|e] s1] eqn:Eb; [|discriminate].
    cbn [length]. rewrite Nat.add_succ_r. apply (IH (S i) acc' s1 r s'); [|exact E].
    eapply Hstep; eassumption.
Qed.

Lemma bindM_Ok {K A B : Type} (c : M K A) (k : A -> M K B)
    (s s' : QubitDevice K) (a : A) :
  c s = (Ok a, s') -> bindM c k s = k a s'.
Proof. intros E. unfold bindM. rewrite E. reflexivity. Qed.

Lemma bindM_raises {K A B : Type} (c : M K A) (k : A -> M K B)
    (s s' : QubitDevice K) (e : error) :
  c s = (Err e, s') -> bindM c k s = (Err e, s').
Proof. intros E. unfold bindM. rewrite E. reflexivity. Qed.

Lemma bindM_ret {K A B : Type} (a : A) (k : A -> M K B) (s : QubitDevice K) :
  bindM (ret a) k s = k a s.
Proof. reflexivity. Qed.

Lemma bindM_assoc {K A B C : Type} (c : M K A) (k1 : A -> M K B) (k2 : B -> M K C)
    (s : QubitDevice K) :
  bindM (bindM c k1) k2 s = bindM c (fun a => bindM (k1 a) k2) s.
Proof. unfold bindM. destruct (c s) as [[a|e] s']; reflexivity. Qed.

Section Paths.

Context {K O : Type} `{!Kernel K O}.

Lemma set_shots_shot_vector {A : Type} (n : nat) (block : M K A) (s : QubitDevice K) :
  _shot_vector (snd (set_shots n block s)) = _shot_vector s.
Proof.
  unfold set_shots. cbn [set_shot_attributes].
  destruct (block _) as [r s2]. reflexivity.
Qed.

Lemma classical_shadow_shot_vector (ws : list wire) (seed : option Z)
    (circuit : option QuantumScript) (s : QubitDevice K) :
  _shot_vector (snd (classical_shadow ws seed circuit s)) = _shot_vector s.
Proof.
  destruct circuit as [circuit|]; [|reflexivity].
  unfold classical_shadow, bindM, read. cbn [fst snd].
  apply set_shots_shot_vector.
Qed.

Lemma statistics_dispatch_shot_vector (circuit : QuantumScript)
    (shot_range : option (nat * nat)) (bin_size : option nat)
    (m : measurement) (s : QubitDevice K) :
  _shot_vector (snd (statistics_dispatch circuit shot_range bin_size m s)) = _shot_vector s.
Proof.
  destruct m; unfold statistics_dispatch; try reflexivity.
  - destruct (1 <? length (measurements circuit))%nat; reflexivity.
  - unfold bindM, read, raise. cbn [fst snd].
    destruct (custom_wire_labels s); [reflexivity|].
    destruct (bool_decide (_shot_vector s <> None)); reflexivity.
  - unfold bindM, read, raise. cbn [fst snd].
    destruct (custom_wire_labels s); [reflexivity|].
    destruct (bool_decide (_shot_vector s <> None)); reflexivity.
  - destruct (1 <? length (measurements circuit))%nat; [reflexivity|].
    pose proof (classical_shadow_shot_vector mwires seed (Some circuit) s) as H.
    unfold bindM. destruct (classical_shadow mwires seed (Some circuit) s) as [[br|e] s'];
      exact H.
  - destruct (1 <? length (measurements circuit))%nat; [reflexivity|].
    pose proof (classical_shadow_shot_vector mwires seed (Some circuit) s) as H0.
    unfold shadow_expval, bindM.
    destruct (classical_shadow mwires seed (Some circuit) s) as [[br|e] s'];
      cbn [snd] in H0 |- *; [|exact H0].
    unfold read. destruct (shadow_expval_estimate _ _ _ _ _); exact H0.
Qed.

Lemma statistics_new_length (circuit : QuantumScript)
    (shot_range : option (nat * nat)) (bin_size : option nat)
    (s s' : QubitDevice K) (results : list (value O)) :
  _statistics_new circuit shot_range bin_size s = (Ok results, s') ->
  length results = length (measurements circuit).
Proof.
  intros E. unfold _statistics_new in E.
  unfold bindM at 1 in E.
  match type of E with
  | match ?c with _ => _ end = _ => destruct c as [[fin|e] s1] eqn:Eloop
  end; [|discriminate].
  unfold ret in E. injection E as <- _.
  apply (forM_invariant (fun i (acc : list (value O) * option (value O)) =>
                           length (fst acc) = i) _ _) with (i := 0%nat) in Eloop.
  - exact Eloop.
  - intros i acc x s0 acc' s0' Hacc Eb.
    unfold bindM in Eb.
    destruct (_statistics_new_dispatch _ _ _ _ _ _) as [[v|e] s2]; [|discriminate].
    unfold read, ret in Eb. cbn in Eb. injection Eb as <- _.
    cbn [fst]. rewrite length_app, Hacc. cbn [length]. lia.
  - reflexivity.
Qed.

(** X9.  When [_statistics_new] returns, it returns exactly one result per
    measurement of the circuit. *)
Theorem statistics_new_one_result_each (circuit : QuantumScript)
    (shot_range : option (nat * nat)) (bin_size : option nat)
    (s s' : QubitDevice K) (results : list (value O)) :
  _statistics_new circuit shot_range bin_size s = (Ok results, s') ->
  length results = length (measurements circuit).
Proof. apply statistics_new_length. Qed.

End Paths.

Lemma statistics_new_one_result_each_witness :
  match _statistics_new (Kernel0 := fixed_kernel) three_measurements None None
                        two_qubit_analytic with
  | (Ok results, _) => length results = 3%nat
  | (Err _, _) => False
  end.
Proof.
  destruct (_statistics_new (Kernel0 := fixed_kernel) three_measurements None None
                            two_qubit_analytic) as [[results|e] s'] eqn:E.
  - apply (statistics_new_one_result_each (Kernel0 := fixed_kernel) three_measurements
             None None two_qubit_analytic s' results E).
  - vm_compute in E. discriminate.
Defined.

(* ===================================================================== *)
(** * Further properties: what an execution changes *)
(* ===================================================================== *)

Lemma keeps_registry_ret {K A : Type} (a : A) : keeps_registry (@ret K A a).
Proof. intros s. split; reflexivity. Qed.

Lemma keeps_registry_raise {K A : Type} (e : error) : keeps_registry (@raise K A e).
Proof. intros s. split; reflexivity. Qed.

Lemma keeps_registry_read {K A : Type} (f : QubitDevice K -> result A) :
  keeps_registry (read f).
Proof. intros s. split; reflexivity. Qed.

Lemma keeps_registry_log {K : Type} (e : event) : keeps_registry (@log K e).
Proof. intros s. split; reflexivity. Qed.

Lemma keeps_registry_set_kernel {K : Type} (k : K) : keeps_registry (set_kernel k).
Proof. intros s. split; reflexivity. Qed.

Lemma keeps_registry_set_samples {K : Type} (smp : option (list (list Z))) :
  keeps_registry (@set_samples K smp).
Proof. intros s. split; reflexivity. Qed.

Lemma keeps_registry_bind {K A B : Type} (c : M K A) (k : A -> M K B) :
  keeps_registry c -> (forall a, keeps_registry (k a)) -> keeps_registry (bindM c k).
Proof.
  intros Hc Hk s. unfold bindM. specialize (Hc s).
  destruct (c s) as [[a|e] s1]; cbn [snd] in Hc |- *; [|exact Hc].
  destruct (Hk a s1) as [H1 H2]. destruct Hc as [H3 H4]. split; congruence.
Qed.

Lemma keeps_registry_forM {K A B : Type} (body : B -> A -> M K B) (l : list A) :
  (forall acc x, keeps_registry (body acc x)) ->
  forall acc, keeps_registry (forM body l acc).
Proof.
  intros Hb. induction l as [|x l IH]; intros acc; cbn [forM].
  - apply keeps_registry_ret.
  - apply keeps_registry_bind; [apply Hb|exact IH].
Qed.

Create HintDb registry.
#[local] Hint Resolve keeps_registry_ret keeps_registry_raise keeps_registry_read
  keeps_registry_log keeps_registry_set_kernel keeps_registry_set_samples : registry.

Ltac registry :=
  repeat first
    [ solve [auto with registry]
    | apply keeps_registry_bind; [|intros ?]
    | apply keeps_registry_forM; intros ? ? ].

Section Frames.

Context {K O : Type} `{!Kernel K O}.

Lemma keeps_registry_set_shots {A : Type} (n : nat) (block : M K A) :
  keeps_registry block -> keeps_registry (set_shots n block).
Proof.
  intros Hb s. unfold set_shots. cbn [set_shot_attributes].
  match goal with |- context [block ?s1] =>
    destruct (Hb s1) as [H1 H2]; destruct (block s1) as [r s2] end.
  cbn [snd wires _num_executions] in *. split; assumption.
Qed.
#[local] Hint Resolve keeps_registry_set_shots : registry.

Lemma keeps_registry_reset : keeps_registry (@reset K O _).
Proof.
  unfold reset. registry. intros s. split; reflexivity.
Qed.
#[local] Hint Resolve keeps_registry_reset : registry.

Lemma keeps_registry_apply (ops rotations : list operation) :
  keeps_registry (apply ops rotations).
Proof. unfold apply. registry. Qed.
#[local] Hint Resolve keeps_registry_apply : registry.

Lemma keeps_registry_sample_basis_states (n : nat) (p : list Qc) :
  keeps_registry (sample_basis_states n p).
Proof.
  intros s. unfold sample_basis_states. destruct (shots s) as [sh|]; [|split; reflexivity].
  destruct (random_choice n sh p (kernel s)) as [r k]. split; reflexivity.
Qed.
#[local] Hint Resolve keeps_registry_sample_basis_states : registry.

Lemma keeps_registry_generate_samples : keeps_registry (@generate_samples K O _).
Proof.
  unfold generate_samples. registry.
Qed.
#[local] Hint Resolve keeps_registry_generate_samples : registry.

Lemma keeps_registry_classical_shadow (ws : list wire) (seed : option Z)
    (circuit : option QuantumScript) :
  keeps_registry (classical_shadow ws seed circuit).
Proof.
  destruct circuit as [circuit|]; unfold classical_shadow; [|auto with registry].
  apply keeps_registry_bind; [auto with registry|]. intros n_snapshots.
  apply keeps_registry_set_shots.
  registry.
Qed.
#[local] Hint Resolve keeps_registry_classical_shadow : registry.

Lemma keeps_registry_shadow_expval (H : obs_body) (ws : list wire) (seed : option Z)
    (k : nat) (circuit : option QuantumScript) :
  keeps_registry (shadow_expval H ws seed k circuit).
Proof.
  unfold shadow_expval. registry.
Qed.
#[local] Hint Resolve keeps_registry_shadow_expval : registry.

Lemma keeps_registry_statistics_new_dispatch (circuit : QuantumScript)
    (shot_range : option (nat * nat)) (bin_size : option nat)
    (m : measurement) (previous : option (value O)) :
  keeps_registry (_statistics_new_dispatch circuit shot_range bin_size m previous).
Proof.
  destruct m; unfold _statistics_new_dispatch; auto with registry.
  - destruct (1 <? length (measurements circuit))%nat; auto with registry.
  - registry. destruct a; auto with registry.
  - registry. destruct a; auto with registry.
  - destruct (1 <? length (measurements circuit))%nat; [auto with registry|].
    registry.
  - destruct (1 <? length (measurements circuit))%nat; [auto with registry|].
    registry.
  - destruct previous; auto with registry.
Qed.
#[local] Hint Resolve keeps_registry_statistics_new_dispatch : registry.

Lemma keeps_registry_statistics_new (circuit : QuantumScript)
    (shot_range : option (nat * nat)) (bin_size : option nat) :
  keeps_registry (_statistics_new circuit shot_range bin_size).
Proof.
  unfold _statistics_new. registry.
Qed.
#[local] Hint Resolve keeps_registry_statistics_new : registry.

Lemma keeps_registry_shot_vec_statistics (circuit : QuantumScript) :
  keeps_registry (shot_vec_statistics circuit).
Proof.
  unfold shot_vec_statistics. registry.
Qed.
#[local] Hint Resolve keeps_registry_shot_vec_statistics : registry.

(** A step that keeps the registry, followed by steps that count one
    execution when they return. *)
Lemma counting_bind {A B : Type} (c : M K A) (k : A -> M K B) :
  keeps_registry c ->
  (forall a s,
      wires (snd (k a s)) = wires s
      /\ _num_executions (snd (k a s))
         = match fst (k a s) with
           | Ok _ => S (_num_executions s)
           | Err _ => _num_executions s
           end) ->
  forall s,
    wires (snd (bindM c k s)) = wires s
    /\ _num_executions (snd (bindM c k s))
       = match fst (bindM c k s) with
         | Ok _ => S (_num_executions s)
         | Err _ => _num_executions s
         end.
Proof.
  intros Hc Hk s. unfold bindM. destruct (Hc s) as [H1 H2].
  destruct (c s) as [[a|e] s1]; cbn [fst snd] in *; [|split; assumption].
  destruct (Hk a s1) as [H3 H4]. rewrite H3, H4, H1, H2. split; reflexivity.
Qed.

Lemma execute_new_counter (circuit : QuantumScript) (s : QubitDevice K) :
  wires (snd (_execute_new circuit s)) = wires s
  /\ _num_executions (snd (_execute_new circuit s))
     = match fst (_execute_new circuit s) with
       | Ok _ => S (_num_executions s)
       | Err _ => _num_executions s
       end.
Proof.
  revert s. unfold _execute_new.
  apply counting_bind; [registry|]. intros _.
  apply counting_bind; [registry|]. intros _.
  apply counting_bind; [registry|]. intros finite.
  apply counting_bind; [destruct finite; registry|]. intros _.
  apply counting_bind; [registry|]. intros vector.
  apply counting_bind.
  - destruct vector; registry.
    destruct (length (measurements circuit) =? 1)%nat; [|auto with registry].
    destruct a; auto with registry.
  - intros results s. split; reflexivity.
Qed.

End Frames.

Section Counting.

Context {K O : Type} `{!Kernel K O}.

(** X10.  [_execute_new] never changes the wire registry, and it counts
    the execution exactly when it returns: the counter of executions goes up
    by one on success and stays as it was when any step raises. *)
Theorem execute_new_counts_executions (circuit : QuantumScript)
    (s s' : QubitDevice K) (r : result (@execute_result O)) :
  _execute_new circuit s = (r, s') ->
  wires s' = wires s
  /\ (is_Ok r -> _num_executions s' = S (_num_executions s))
  /\ (is_Err r -> _num_executions s' = _num_executions s).
Proof.
  intros E. destruct (execute_new_counter circuit s) as [H1 H2].
  rewrite E in H1, H2. cbn [fst snd] in H1, H2.
  split; [exact H1|]. destruct r as [v|e]; split; intros H; try contradiction; exact H2.
Qed.

Lemma batch_loop (circuits : list QuantumScript) (acc : list (@execute_result O))
    (s : QubitDevice K) :
  let out := forM (fun results circuit =>
                     do! _ := reset in
                     do! res := _execute_new circuit in
                     ret (results ++ [res]))
                  circuits acc s in
  wires (snd out) = wires s
  /\ match fst out with
     | Ok results =>
         length results = (length acc + length circuits)%nat
         /\ _num_executions (snd out) = (_num_executions s + length circuits)%nat
     | Err _ =>
         (_num_executions s <= _num_executions (snd out)
          < _num_executions s + length circuits)%nat
     end.
Proof.
  revert acc s. induction circuits as [|circuit circuits IH]; intros acc s; cbv zeta.
  - cbn [forM ret fst snd length]. split; [reflexivity|]. split; lia.
  - cbn [forM]. rewrite !bindM_assoc.
    destruct (keeps_registry_reset s) as [Hw0 Hn0].
    destruct (reset s) as [[u|e0] s0] eqn:E0; cbn [snd] in Hw0, Hn0.
    2:{ rewrite (bindM_raises _ _ _ _ _ E0). cbn [fst snd length].
        split; [exact Hw0|]. lia. }
    rewrite (bindM_Ok _ _ _ _ _ E0). cbv beta. rewrite ?bindM_assoc.
    destruct (execute_new_counter circuit s0) as [Hw1 Hn1].
    destruct (_execute_new circuit s0) as [[res|e1] s1] eqn:E1; cbn [fst snd] in Hw1, Hn1.
    2:{ rewrite (bindM_raises _ _ _ _ _ E1). cbn [fst snd length].
        split; [congruence|]. lia. }
    rewrite (bindM_Ok _ _ _ _ _ E1). cbv beta. rewrite bindM_ret.
    specialize (IH (acc ++ [res]) s1). cbv zeta in IH. destruct IH as [Hw2 Hrest].
    split; [congruence|].
    destruct (fst (forM _ circuits (acc ++ [res]) s1)) as [results|e].
    + destruct Hrest as [Hl Hc]. rewrite length_app in Hl. cbn [length] in Hl |- *.
      split; lia.
    + cbn [length]. lia.
Qed.

(** X11.  [_batch_execute_new] never changes the wire registry; when it
    returns, it returns one result per circuit and has counted one
    execution per circuit; when a circuit raises, fewer executions than
    circuits have been counted. *)
Theorem batch_execute_new_counts (circuits : list QuantumScript)
    (s s' : QubitDevice K) (r : result (list (@execute_result O))) :
  _batch_execute_new circuits s = (r, s') ->
  wires s' = wires s
  /\ match r with
     | Ok results =>
         length results = length circuits
         /\ _num_executions s' = (_num_executions s + length circuits)%nat
     | Err _ =>
         (_num_executions s <= _num_executions s'
          < _num_executions s + length circuits)%nat
     end.
Proof.
  intros E. pose proof (batch_loop circuits [] s) as H. cbv zeta in H.
  unfold _batch_execute_new in E. rewrite E in H. cbn [fst snd length] in H.
  exact H.
Qed.

End Counting.

Lemma execute_new_counts_executions_witness :
  wires (snd (_execute_new shadow_circuit single_qubit_sampler))
  = wires single_qubit_sampler
  /\ (is_Ok (fst (_execute_new shadow_circuit single_qubit_sampler)) ->
      _num_executions (snd (_execute_new shadow_circuit single_qubit_sampler))
      = S (_num_executions single_qubit_sampler))
  /\ (is_Err (fst (_execute_new shadow_circuit single_qubit_sampler)) ->
      _num_executions (snd (_execute_new shadow_circuit single_qubit_sampler))
      = _num_executions single_qubit_sampler).
Proof.
  apply (execute_new_counts_executions (Kernel0 := fixed_kernel) shadow_circuit
           single_qubit_sampler).
  apply surjective_pairing.
Defined.

Lemma batch_execute_new_counts_witness :
  wires (snd (_batch_execute_new [shadow_circuit; three_measurements; shadow_with_expval]
                                 single_qubit_sampler))
  = wires single_qubit_sampler
  /\ match fst (_batch_execute_new
                  [shadow_circuit; three_measurements; shadow_with_expval]
                  single_qubit_sampler) with
     | Ok results =>
         length results = 3%nat
         /\ _num_executions
              (snd (_batch_execute_new
                      [shadow_circuit; three_measurements; shadow_with_expval]
                      single_qubit_sampler))
            = (_num_executions single_qubit_sampler + 3)%nat
     | Err _ =>
         (_num_executions single_qubit_sampler
          <= _num_executions
               (snd (_batch_execute_new
                       [shadow_circuit; three_measurements; shadow_with_expval]
                       single_qubit_sampler))
          < _num_executions single_qubit_sampler + 3)%nat
     end.
Proof.
  apply (batch_execute_new_counts (Kernel0 := fixed_kernel)
           [shadow_circuit; three_measurements; shadow_with_expval]
           single_qubit_sampler).
  apply surjective_pairing.
Defined.

(* ===================================================================== *)
(** * Further properties: the snapshots of a classical shadow *)
(* ===================================================================== *)

Lemma forM_invariant_state {K A B : Type} (Inv : nat -> B -> QubitDevice K -> Prop)
    (body : B -> A -> M K B) (l : list A) :
  (forall i acc x s acc' s',
      Inv i acc s -> body acc x s = (Ok acc', s') -> Inv (S i) acc' s') ->
  forall i acc s r s',
    Inv i acc s -> forM body l acc s = (Ok r, s') -> Inv (i + length l)%nat r s'.
Proof.
  intros Hstep. induction l as [|x l IH]; intros i acc s r s' Hacc E.
  - cbn [forM] in E. unfold ret in E. injection E as <- <-.
    cbn [length]. rewrite Nat.add_0_r. exact Hacc.
  - cbn [forM] in E. unfold bindM in E.
    destruct (body acc x s) as [[acc'|e] s1] eqn:Eb; [|discriminate].
    cbn [length]. rewrite Nat.add_succ_r. apply (IH (S i) acc' s1 r s'); [|exact E].
    eapply Hstep; eassumption.
Qed.

Lemma mapR_Ok_inv {A B : Type} (f : A -> result B) (l : list A) (l' : list B) :
  mapR f l = Ok l' -> forall y, y ∈ l' -> exists x, x ∈ l /\ f x = Ok y.
Proof.
  revert l'. induction l as [|x l IH]; intros l' E y Hy; simpl in E.
  - injection E as <-. by apply elem_of_nil in Hy.
  - destruct (f x) as [y0|e] eqn:Ex; simpl in E; [|discriminate].
    destruct (mapR f l) as [ys|e]; simpl in E; [|discriminate].
    injection E as <-. apply elem_of_cons in Hy as [->|Hy].
    + exists x. split; [left|exact Ex].
    + destruct (IH ys eq_refl y Hy) as (x' & Hx' & Ex'). exists x'. split; [right|]; assumption.
Qed.

Lemma getitem_Ok_inv {A : Type} (l : list A) (i : nat) (x : A) :
  getitem l i = Ok x -> x ∈ l.
Proof.
  unfold getitem. destruct (nth_error l i) as [y|] eqn:E; [|discriminate].
  intros H. injection H as <-. apply list_elem_of_In. eapply nth_error_In. exact E.
Qed.

Lemma cast_int8_bits (rows : list (list Z)) :
  Forall (Forall is_bit) rows -> map (map (cast int8)) rows = rows.
Proof.
  intros H. apply cast_int8_recipes. eapply Forall_impl; [exact H|].
  intros row Hrow. eapply Forall_impl; [exact Hrow|].
  intros b [->| ->]; cbv beta; lia.
Qed.

Section Snapshots.

Context {K O : Type} `{!Kernel K O}.

Lemma reset_frame (s : QubitDevice K) :
  exists s', reset s = (Ok tt, s')
             /\ history s' = history s ++ [EvReset]
             /\ wires s' = wires s.
Proof. eexists. split; [reflexivity|]. split; reflexivity. Qed.

Lemma generate_samples_well_formed (s s' : QubitDevice K) (rows : list (list Z)) :
  generate_samples s = (Ok rows, s') -> well_formed_buffer (num_wires s) rows.
Proof.
  intros E. unfold generate_samples in E.
  apply bindM_Ok_inv in E as (u & s1 & E1 & E).
  apply bindM_Ok_inv in E as (n & s2 & E2 & E). apply read_Ok_inv in E2 as [_ ->].
  apply bindM_Ok_inv in E as (p & s3 & E3 & E). apply read_Ok_inv in E3 as [_ ->].
  apply bindM_Ok_inv in E as (smp & s4 & E4 & E).
  apply read_Ok_inv in E as [E ->]. injection E as <-.
  assert (Hw : wires s4 = wires s).
  { destruct (keeps_registry_sample_basis_states n p s1) as [H1 _].
    rewrite E4 in H1. cbn [snd] in H1. rewrite H1.
    unfold log in E1. injection E1 as _ <-. reflexivity. }
  unfold num_wires. rewrite Hw. apply states_to_binary_shape.
Qed.

(** X12.  When the classical-shadow protocol returns on a device of [T]
    shots, the measured bits form an array of [T] rows over the measured
    wires, each entry 0 or 1, the registry is as it was, and the kernel has
    been driven through exactly [T] snapshots: for each a reset, the circuit
    with that snapshot's rotations, and one sampling. *)
Theorem classical_shadow_snapshots (ws : list wire) (seed : option Z) (T : nat)
    (circuit : QuantumScript) (s s' : QubitDevice K) (bits recipes : list (list Z)) :
  shots s = Some T ->
  classical_shadow ws seed (Some circuit) s = (Ok (bits, recipes), s') ->
  length bits = T
  /\ Forall (fun row => length row = length ws /\ Forall is_bit row) bits
  /\ wires s' = wires s
  /\ exists runs,
       history s' = history s ++ concat runs
       /\ length runs = T
       /\ Forall (snapshot_run circuit) runs.
Proof.
  intros Hshots E. unfold classical_shadow in E.
  apply bindM_Ok_inv in E as (n_snapshots & s0 & E0 & E).
  apply read_Ok_inv in E0 as [E0 ->]. injection E0 as <-.
  unfold set_shots in E. cbn [set_shot_attributes] in E.
  match type of E with
  | context [bindM ?c ?k ?st] => destruct (bindM c k st) as [r s2] eqn:Eb
  end.
  injection E as -> <-. cbn [wires history].
  apply bindM_Ok_inv in Eb as (mapped_wires & s1 & E1 & Eb).
  apply read_Ok_inv in E1 as [E1 ->]. cbn [wires] in E1.
  assert (Hmapped : length mapped_wires = length ws).
  { unfold map_wires in E1. apply mapR_ok_length in E1. exact E1. }
  apply bindM_Ok_inv in Eb as (seed' & s3 & E3 & Eb).
  apply read_Ok_inv in E3 as [_ ->].
  apply bindM_Ok_inv in Eb as (n & s4 & E4 & Eb).
  apply read_Ok_inv in E4 as [E4 ->]. rewrite Hshots in E4. injection E4 as <-.
  apply bindM_Ok_inv in Eb as (outcomes & s5 & Eloop & Eb).
  unfold ret in Eb. injection Eb as <- _ <-.
  set (start := mkQubitDevice (wires s) (Some 1%nat) None (_samples s)
                              (_num_executions s) (kernel s) (history s)
                              (R_DTYPE s) (C_DTYPE s)) in *.
  apply (forM_invariant_state
           (fun i (acc : list (list Z)) (st : QubitDevice K) =>
              length acc = i
              /\ Forall (fun row => length row = length ws /\ Forall is_bit row) acc
              /\ wires st = wires s
              /\ exists runs,
                   history st = history s ++ concat runs
                   /\ length runs = i
                   /\ Forall (snapshot_run circuit) runs)
           _ _) with (i := 0%nat) in Eloop.
  - rewrite length_seq in Eloop. cbn [Nat.add] in Eloop.
    destruct Eloop as (Hlen & Hrows & Hw & Hruns).
    assert (Hbits : Forall (Forall is_bit) outcomes)
      by (eapply Forall_impl; [exact Hrows|]; intros row [_ H]; exact H).
    rewrite cast_int8_bits by exact Hbits.
    split; [exact Hlen|]. split; [exact Hrows|]. split; assumption.
  - clear Eloop. intros i acc t st acc' st' (Hlen & Hrows & Hw & runs & Hh & Hr & Hshape) Eb.
    apply bindM_Ok_inv in Eb as (rotations & st0 & Er & Eb).
    apply read_Ok_inv in Er as [_ ->].
    apply bindM_Ok_inv in Eb as (u1 & sa & Ea & Eb).
    destruct (reset_frame st) as (sa' & Ea' & Hha & Hwa).
    rewrite Ea' in Ea. injection Ea as _ <-.
    apply bindM_Ok_inv in Eb as (u2 & sb & Eapp & Eb).
    destruct (apply_frame (operations circuit)
                          (diagonalizing_gates circuit ++ rotations) sa')
      as (Hhb & _ & _).
    destruct (keeps_registry_apply (operations circuit)
                                   (diagonalizing_gates circuit ++ rotations) sa')
      as [Hwb _].
    rewrite Eapp in Hhb, Hwb. cbn [snd] in Hhb, Hwb.
    apply bindM_Ok_inv in Eb as (samples & sc & Eg & Eb).
    destruct (generate_samples_frame sb) as (Hhc & _ & _).
    destruct (keeps_registry_generate_samples sb) as [Hwc _].
    rewrite Eg in Hhc, Hwc. cbn [snd] in Hhc, Hwc.
    pose proof (generate_samples_well_formed sb sc samples Eg) as Hwf.
    apply bindM_Ok_inv in Eb as (row & sd & Erow & Eb).
    apply read_Ok_inv in Erow as [Erow ->].
    unfold ret in Eb. injection Eb as <- <-.
    destruct (getitem samples 0) as [first|e] eqn:Efirst; cbn [bind] in Erow;
      [|discriminate].
    assert (Hfirst : Forall is_bit first).
    { apply getitem_Ok_inv in Efirst. unfold well_formed_buffer in Hwf.
      rewrite Forall_forall in Hwf. apply (Hwf first Efirst). }
    split; [rewrite length_app, Hlen; cbn [length]; lia|].
    split; [|split].
    + apply Forall_app. split; [exact Hrows|]. constructor; [|constructor].
      split.
      * rewrite (mapR_ok_length _ _ _ Erow). exact Hmapped.
      * apply Forall_forall. intros b Hb.
        destruct (mapR_Ok_inv _ _ _ Erow b Hb) as (c & _ & Hc).
        apply getitem_Ok_inv in Hc. rewrite Forall_forall in Hfirst. apply Hfirst, Hc.
    + congruence.
    + exists (runs ++ [[EvReset;
                        EvApply (operations circuit)
                                (diagonalizing_gates circuit ++ rotations);
                        EvGenerateSamples]]).
      split; [|split].
      * rewrite concat_app. cbn [concat]. rewrite app_nil_r.
        rewrite Hhc, Hhb, Hha, Hh, <- !app_assoc. reflexivity.
      * rewrite length_app, Hr. cbn [length]. lia.
      * apply Forall_app. split; [exact Hshape|]. constructor; [|constructor].
        exists rotations. reflexivity.
  - split; [reflexivity|]. split; [constructor|]. split; [reflexivity|].
    exists []. split; [cbn [concat]; rewrite app_nil_r; reflexivity|].
    split; [reflexivity|constructor].
Qed.

End Snapshots.

Lemma classical_shadow_snapshots_witness :
  length [[0]; [0]] = 2%nat
  /\ Forall (fun row => length row = length [WInt 0] /\ Forall is_bit row) [[0]; [0]]
  /\ wires (snd (classical_shadow [WInt 0] (Some 7) (Some shadow_circuit)
                                  single_qubit_sampler))
     = wires single_qubit_sampler
  /\ exists runs,
       history (snd (classical_shadow [WInt 0] (Some 7) (Some shadow_circuit)
                                      single_qubit_sampler))
       = history single_qubit_sampler ++ concat runs
       /\ length runs = 2%nat
       /\ Forall (snapshot_run shadow_circuit) runs.
Proof.
  apply (classical_shadow_snapshots (Kernel0 := fixed_kernel) [WInt 0] (Some 7) 2
           shadow_circuit single_qubit_sampler
           (snd (classical_shadow [WInt 0] (Some 7) (Some shadow_circuit)
                                  single_qubit_sampler))
           [[0]; [0]] [[1]; [2]]).
  - reflexivity.
  - vm_compute. reflexivity.
Defined.

(* ===================================================================== *)
(** * Further properties: raw samples, bins and projectors *)
(* ===================================================================== *)

(** X13.  Samples of the computational basis: without an observable,
    [sample] returns the buffer of the selected shots restricted to the
    measured wires, in the order in which the wires were given, and the
    whole buffer when no wire is given. *)
Theorem sample_computational_basis {K : Type} (self : QubitDevice K)
    (ws : list wire) (shot_range : option (nat * nat)) (rows : list (list Z)) :
  ws ⊆ wires self ->
  selected_samples self shot_range = Ok rows ->
  well_formed_buffer (num_wires self) rows ->
  sample self (OnMeasurement (SampleMP None ws)) shot_range None false
  = Ok (Samples2 (match ws with
                  | [] => rows
                  | _ => map (fun row =>
                                map (fun w => nth (registry_position (wires self) w) row 0) ws)
                             rows
                  end)).
Proof.
  intros Hsub Hsel Hwf.
  rewrite (sample_raw_rows self (SampleMP None ws) ws shot_range rows)
    by (first [reflexivity | assumption]).
  destruct ws; reflexivity.
Qed.

Lemma sample_computational_basis_witness :
  sample (canonical_device 2 (Some 3%nat) None (Some docstring_samples) tt)
         (OnMeasurement (SampleMP None [WInt 1; WInt 0])) (Some (1%nat, 3%nat)) None false
  = Ok (Samples2 [[0; 0]; [0; 1]]).
Proof.
  apply (sample_computational_basis
           (canonical_device 2 (Some 3%nat) None (Some docstring_samples) tt)
           [WInt 1; WInt 0] (Some (1%nat, 3%nat)) [[0; 0]; [1; 0]]).
  - apply (bool_decide_unpack _). vm_compute. exact I.
  - reflexivity.
  - unfold well_formed_buffer, is_bit. apply (bool_decide_unpack _). vm_compute. exact I.
Defined.

(** X14.  The bin size of [estimate_probability]: a bin size of 0 raises
    [ZeroDivisionError], and a bin size that does not divide the number of
    selected shots raises [ValueError] (the indices cannot be reshaped into
    whole bins). *)
Theorem estimate_probability_bin_errors {K : Type} (self : QubitDevice K)
    (wires_arg : option (list wire)) (shot_range : option (nat * nat))
    (rows : list (list Z)) (bin_size : nat) :
  NoDup (wires_or wires_arg (wires self)) ->
  wires_or wires_arg (wires self) ⊆ wires self ->
  selected_samples self shot_range = Ok rows ->
  well_formed_buffer (num_wires self) rows ->
  ~ (bin_size | length rows)%nat \/ bin_size = 0%nat ->
  estimate_probability self wires_arg shot_range (Some bin_size)
  = Err (if (bin_size =? 0)%nat then ZeroDivisionError else ValueError).
Proof.
  intros Hnd Hsub Hsel Hwf Hbin.
  rewrite (estimate_probability_unfold self wires_arg shot_range (Some bin_size) rows)
    by assumption.
  cbv zeta. destruct (Nat.eqb_spec bin_size 0) as [->|Hb]; [reflexivity|].
  destruct Hbin as [Hdiv|]; [|contradiction].
  unfold _count_binned_samples, reshape_rows.
  assert (Hlen : length (basis_indices (wires self) (wires_or wires_arg (wires self)) rows)
                 = length rows) by (unfold basis_indices; apply length_map).
  rewrite Hlen.
  destruct (Nat.eqb_spec (length rows / bin_size * bin_size) (length rows)) as [E|_];
    [|reflexivity].
  exfalso. apply Hdiv. exists (length rows / bin_size)%nat. symmetry. exact E.
Qed.

Lemma estimate_probability_bin_errors_witness :
  estimate_probability (canonical_device 2 (Some 3%nat) None (Some docstring_samples) tt)
                       (Some [WInt 0]) None (Some 2%nat)
  = Err (if (2 =? 0)%nat then ZeroDivisionError else ValueError).
Proof.
  apply (estimate_probability_bin_errors
           (canonical_device 2 (Some 3%nat) None (Some docstring_samples) tt)
           (Some [WInt 0]) None docstring_samples 2).
  - apply (bool_decide_unpack _). vm_compute. exact I.
  - apply (bool_decide_unpack _). vm_compute. exact I.
  - reflexivity.
  - unfold well_formed_buffer, is_bit. apply (bool_decide_unpack _). vm_compute. exact I.
  - left. intros [q Hq]. cbn [docstring_samples length] in Hq. lia.
Defined.




(* ===================================================================== *)
(** * Further properties: analytic expectation values *)
(* ===================================================================== *)





Section Analytic.

Context {K O : Type} `{!Kernel K O} (self : QubitDevice K).


End Analytic.


(* ===================================================================== *)
(** * Further properties: counts in bins *)
(* ===================================================================== *)

Lemma chunks_concat {A : Type} (n : nat) (rows : list (list A)) :
  Forall (fun row => length row = n) rows ->
  chunks (length rows) n (concat rows) = rows.
Proof.
  induction 1 as [|row rows Hrow _ IH]; [reflexivity|].
  cbn [length chunks concat].
  rewrite firstn_app, <- Hrow, firstn_all, Nat.sub_diag, firstn_O, app_nil_r.
  rewrite skipn_app, skipn_all, Nat.sub_diag, skipn_O. cbn [app].
  rewrite Hrow. rewrite IH. reflexivity.
Qed.

Lemma length_concat_uniform {A : Type} (n : nat) (rows : list (list A)) :
  Forall (fun row => length row = n) rows ->
  length (concat rows) = (length rows * n)%nat.
Proof.
  induction 1 as [|row rows Hrow _ IH]; [reflexivity|].
  cbn [concat length]. rewrite length_app, IH, Hrow. lia.
Qed.

Lemma reshape_concat {A : Type} (n : nat) (rows : list (list A)) :
  (0 < n)%nat ->
  Forall (fun row => length row = n) rows ->
  reshape_infer_rows (concat rows) n = Ok rows.
Proof.
  intros Hn Hrows. unfold reshape_infer_rows, infer_dim.
  rewrite (length_concat_uniform n rows Hrows).
  destruct (Nat.eqb_spec n 0) as [|_]; [lia|].
  rewrite Nat.Div0.mod_mul, Nat.eqb_refl, Nat.div_mul by lia. cbn [bind].
  rewrite chunks_concat by exact Hrows. reflexivity.
Qed.

Lemma mapR_exists {A B : Type} (f : A -> result B) (P : B -> Prop) (l : list A) :
  (forall x, x ∈ l -> exists y, f x = Ok y /\ P y) ->
  exists ys, mapR f l = Ok ys /\ length ys = length l /\ Forall P ys.
Proof.
  induction l as [|x l IH]; intros H.
  - exists []. split; [reflexivity|]. split; [reflexivity|constructor].
  - destruct (H x) as (y & Ey & Hy); [left|].
    destruct IH as (ys & Eys & Hl & Hys); [intros z Hz; apply H; right; exact Hz|].
    exists (y :: ys). cbn [mapR]. rewrite Ey. cbn [bind]. rewrite Eys. cbn [bind].
    split; [reflexivity|]. split; [cbn [length]; rewrite Hl; reflexivity|].
    constructor; assumption.
Qed.

Lemma measured_rows_well_formed (registry ws : list wire) (n : nat)
    (rows : list (list Z)) :
  well_formed_buffer n rows ->
  well_formed_buffer (if (0 <? length ws)%nat then length ws else n)
                     (measured_rows registry ws rows).
Proof.
  intros Hwf. destruct ws as [|w ws']; [exact Hwf|].
  cbn [length Nat.ltb Nat.leb measured_rows].
  apply Forall_forall. intros row' Hrow'.
  apply list_elem_of_In, in_map_iff in Hrow' as (row & <- & Hrow).
  split; [unfold restrict_sample; rewrite length_map; reflexivity|].
  apply restrict_sample_bits. unfold well_formed_buffer in Hwf.
  rewrite Forall_forall in Hwf. apply (Hwf row), list_elem_of_In, Hrow.
Qed.

(** X17.  Counts of the computational basis in bins, with the all-outcomes
    flag: for a bin size that divides the number of selected shots, [sample]
    returns one dictionary per bin, each with all the [2^n] bit strings as
    keys and counts that add up to the bin size. *)
Theorem binned_counts_complete {K : Type} (self : QubitDevice K)
    (ws : list wire) (shot_range : option (nat * nat)) (rows : list (list Z))
    (bin_size : nat) :
  ws ⊆ wires self ->
  (0 < num_wires self)%nat ->
  selected_samples self shot_range = Ok rows ->
  well_formed_buffer (num_wires self) rows ->
  bin_size <> 0%nat ->
  (bin_size | length rows)%nat ->
  exists ds,
    sample self (OnMeasurement (CountsMP None ws true)) shot_range (Some bin_size) true
    = Ok (CountsList ds)
    /\ length ds = (length rows / bin_size)%nat
    /\ Forall (counts_complete (if (0 <? length ws)%nat then length ws
                                else num_wires self) bin_size) ds.
Proof.
  intros Hsub Hpos Hsel Hwf Hb [q Hq].
  pose proof (sample_raw_rows self (CountsMP None ws true) ws shot_range rows
                eq_refl eq_refl Hsub Hsel Hwf) as Hraw.
  unfold sample in Hraw |- *.
  change (target_wires (OnMeasurement (CountsMP None ws true))) with ws in Hraw |- *.
  rewrite (map_wires_ok self ws Hsub) in Hraw |- *. cbn [bind] in Hraw |- *.
  assert (Hlen : length (spec_mapped (wires self) ws) = length ws)
    by (unfold spec_mapped; apply length_map).
  rewrite Hlen.
  destruct (sub_samples_of self shot_range) as [sub|e]; [|discriminate].
  cbn [bind] in Hraw |- *.
  match type of Hraw with
  | (let! samples := ?c in _) = _ => destruct c as [[vals|raw|]|e]
  end; cbn [bind] in Hraw |- *; try discriminate.
  injection Hraw as ->.
  set (n := if (0 <? length ws)%nat then length ws else num_wires self).
  pose proof (measured_rows_well_formed (wires self) ws (num_wires self) rows Hwf) as Hwf'.
  fold n in Hwf'.
  set (rows' := measured_rows (wires self) ws rows) in *.
  assert (Hn : (0 < n)%nat).
  { unfold n. destruct (Nat.ltb_spec 0 (length ws)); [assumption|exact Hpos]. }
  assert (Hrows' : length rows' = length rows).
  { unfold rows', measured_rows. destruct ws; [reflexivity|apply length_map]. }
  rewrite (reshape_concat n rows' Hn)
    by (eapply Forall_impl; [exact Hwf'|]; intros row [H _]; exact H).
  cbn [bind]. unfold reshape_infer_rows, infer_dim.
  destruct (Nat.eqb_spec bin_size 0) as [|_]; [contradiction|].
  rewrite Hrows', Hq, Nat.Div0.mod_mul, Nat.eqb_refl, Nat.div_mul by exact Hb.
  cbn [bind].
  destruct (mapR_exists
              (fun bin_sample =>
                 _samples_to_counts (Raw bin_sample)
                                    (OnMeasurement (CountsMP None ws true)) n)
              (counts_complete n bin_size)
              (chunks q bin_size rows')) as (ds & Eds & Hl & Hds).
  - intros bin Hbin.
    assert (Hbs : length bin = bin_size).
    { pose proof (chunks_widths q bin_size rows') as H.
      rewrite Forall_forall in H. apply H; [rewrite Hrows'; exact Hq|exact Hbin]. }
    assert (Hbwf : well_formed_buffer n bin).
    { pose proof (chunks_Forall (fun row => length row = n /\ Forall is_bit row)
                                q bin_size rows' Hwf') as H.
      rewrite Forall_forall in H. apply H, Hbin. }
    destruct (samples_to_counts_all n bin None ws Hn Hbwf) as (d & Ed & Hd).
    exists d. split; [exact Ed|]. rewrite <- Hbs. exact Hd.
  - exists ds. rewrite Eds. cbn [bind]. split; [reflexivity|].
    split; [rewrite Hl; apply chunks_length|exact Hds].
Qed.

Lemma binned_counts_complete_witness :
  exists ds,
    sample (canonical_device 2 (Some 4%nat) None
                             (Some [[0; 0]; [0; 1]; [1; 1]; [0; 1]]) tt)
           (OnMeasurement (CountsMP None [] true)) None (Some 2%nat) true
    = Ok (CountsList ds)
    /\ length ds = (length [[0; 0]; [0; 1]; [1; 1]; [0; 1]] / 2)%nat
    /\ Forall (counts_complete 2 2) ds.
Proof.
  apply (binned_counts_complete
           (canonical_device 2 (Some 4%nat) None
                             (Some [[0; 0]; [0; 1]; [1; 1]; [0; 1]]) tt)
           [] None [[0; 0]; [0; 1]; [1; 1]; [0; 1]] 2).
  - apply (bool_decide_unpack _). vm_compute. exact I.
  - vm_compute. lia.
  - reflexivity.
  - unfold well_formed_buffer, is_bit. apply (bool_decide_unpack _). vm_compute. exact I.
  - discriminate.
  - exists 2%nat. reflexivity.
Defined.

(* ===================================================================== *)
(** * Further properties: the measurement process [SampleMP] *)
(* ===================================================================== *)

Lemma wire_index_None (w : wire) (keys : list wire) :
  w ∉ keys -> wire_index w keys = None.
Proof.
  induction keys as [|key keys IH]; intros H; [reflexivity|].
  apply not_elem_of_cons in H as [Hne H]. cbn [wire_index].
  destruct (decide (w = key)); [contradiction|]. rewrite IH by exact H. reflexivity.
Qed.

(** On keys without duplicates, the dictionary of positions is the
    registry look-up. *)
Lemma dict_zip_get_wire_index (keys : list wire) (start : nat) (w : wire) :
  NoDup keys ->
  dict_zip_get keys start w = option_map (Nat.add start) (wire_index w keys).
Proof.
  intros Hnd. revert start. induction Hnd as [|key keys Hkey _ IH]; intros start;
    [reflexivity|].
  cbn [dict_zip_get wire_index]. rewrite IH.
  destruct (decide (w = key)) as [->|Hne].
  - rewrite wire_index_None by exact Hkey. cbn [option_map].
    destruct (decide (key = key)); [|contradiction]. rewrite Nat.add_0_r. reflexivity.
  - destruct (wire_index w keys) as [i|]; cbn [option_map].
    + f_equal. lia.
    + destruct (decide (key = w)); [congruence|reflexivity].
Qed.

Lemma wire_map_all_ok (registry ws : list wire) :
  NoDup registry -> ws ⊆ registry ->
  wire_map_all registry ws = Some (spec_mapped registry ws).
Proof.
  intros Hnd. induction ws as [|w ws IH]; intros Hsub; [reflexivity|].
  cbn [wire_map_all]. rewrite dict_zip_get_wire_index by exact Hnd.
  destruct (wire_index_In w registry) as [i Hi]; [apply Hsub; left|].
  rewrite Hi. cbn [option_map Nat.add].
  rewrite IH by (intros x Hx; apply Hsub; right; exact Hx).
  unfold spec_mapped. cbn [map]. unfold registry_position. rewrite Hi. reflexivity.
Qed.

Lemma select_columns_ok (rows : list (list Z)) (width : nat) (cols : list nat) :
  Forall (fun c => (c < width)%nat) cols ->
  select_columns rows width cols
  = Ok (map (fun row => map (fun c => nth c row 0) cols) rows).
Proof.
  intros H. unfold select_columns.
  assert (E : forallb (fun c => (c <? width)%nat) cols = true).
  { apply forallb_forall. intros c Hc. apply Nat.ltb_lt.
    rewrite Forall_forall in H. apply H, list_elem_of_In, Hc. }
  rewrite E. reflexivity.
Qed.

Lemma slice_well_formed (n : nat) (rows : list (list Z)) (r : nat * nat) :
  well_formed_buffer n rows -> well_formed_buffer n (slice rows r).
Proof. intros H. unfold slice. apply Forall_take, Forall_drop. exact H. Qed.

Lemma concat_singletons {A B : Type} (f : A -> B) (l : list A) :
  concat (map (fun x => [f x]) l) = map f l.
Proof. induction l as [|x l IH]; [reflexivity|]. cbn [map concat app]. rewrite IH. reflexivity. Qed.

Lemma pauli_squeeze_column (pos : nat) (rows : list (list Z)) :
  length rows <> 1%nat ->
  pauli_squeeze (map (fun row => [nth pos row 0]) rows) 1
  = Vector (map (fun b => Qc_of_Z (cast int64 (1 - 2 * b)))
                (map (fun row => nth pos row 0) rows)).
Proof.
  intros Hlen. unfold pauli_squeeze.
  destruct rows as [|r1 [|r2 rows]]; [reflexivity|cbn [length] in Hlen; lia|].
  cbn [map Nat.eqb]. rewrite !map_map. cbn [concat app map].
  rewrite (concat_singletons (fun row => nth pos row 0)). rewrite map_map. reflexivity.
Qed.

Section Agreement.

Context {K : Type} (self : QubitDevice K).
Context (buffer : list (list Z)) (shot_range : option (nat * nat)).
Hypothesis registry_NoDup : NoDup (wires self).
Hypothesis buffered : _samples self = Some buffer.
Hypothesis well_formed : well_formed_buffer (num_wires self) buffer.

Lemma selected_well_formed : well_formed_buffer (num_wires self) (in_shot_range buffer shot_range).
Proof.
  unfold in_shot_range. destruct shot_range; [apply slice_well_formed|]; exact well_formed.
Qed.

Lemma sub_samples_buffered : sub_samples_of self shot_range = Ok (Some (in_shot_range buffer shot_range)).
Proof.
  unfold sub_samples_of, in_shot_range. rewrite buffered. destruct shot_range; reflexivity.
Qed.

Lemma columns_selected (ws : list wire) :
  ws ⊆ wires self ->
  take_columns (in_shot_range buffer shot_range) (spec_mapped (wires self) ws)
  = Ok (map (fun row => map (fun c => nth c row 0) (spec_mapped (wires self) ws)) (in_shot_range buffer shot_range))
  /\ select_columns (in_shot_range buffer shot_range) (num_wires self) (spec_mapped (wires self) ws)
     = Ok (map (fun row => map (fun c => nth c row 0) (spec_mapped (wires self) ws))
               (in_shot_range buffer shot_range)).
Proof.
  intros Hsub.
  assert (Hcols : Forall (fun c => (c < num_wires self)%nat) (spec_mapped (wires self) ws)).
  { apply Forall_forall. intros c Hc. unfold spec_mapped in Hc.
    apply list_elem_of_In, in_map_iff in Hc as (w & <- & Hw).
    apply registry_position_lt, Hsub, list_elem_of_In, Hw. }
  split; [|apply select_columns_ok; exact Hcols].
  apply (take_columns_ok (num_wires self)); [|exact Hcols].
  eapply Forall_impl; [apply selected_well_formed|]. intros row [H _]. exact H.
Qed.

(** Without an observable. *)
Lemma process_samples_raw (mwires : list wire) (bin_size : option nat) :
  mwires ⊆ wires self ->
  SampleMP_process_samples None mwires buffer (num_wires self) (wires self)
                           shot_range bin_size
  = match sample self (OnMeasurement (SampleMP None mwires)) shot_range bin_size false with
    | Ok v => match as_processed v with
              | Some p => Returned p
              | None => KeyError
              end
    | Err e => Raised e
    end.
Proof.
  intros Hsub. unfold SampleMP_process_samples, sample.
  change (mp_wires (SampleMP None mwires)) with mwires.
  change (target_wires (OnMeasurement (SampleMP None mwires))) with mwires.
  rewrite wire_map_all_ok by assumption.
  rewrite (map_wires_ok self mwires Hsub). cbn [bind].
  rewrite sub_samples_buffered. cbn [bind]. fold (in_shot_range buffer shot_range).
  assert (Hlen : length (spec_mapped (wires self) mwires) = length mwires)
    by (unfold spec_mapped; apply length_map).
  destruct (columns_selected mwires Hsub) as [Htake Hselect].
  destruct mwires as [|w0 ws'].
  - cbn [spec_mapped map length Nat.eqb negb bind fst snd Nat.ltb Nat.leb lift].
    destruct bin_size as [b|]; [|reflexivity].
    destruct (infer_dim _ _) as [wd|e]; cbn [bind lift]; [|reflexivity].
    destruct (reshape_infer_rows _ _) as [planes|e]; reflexivity.
  - rewrite Hlen. cbn [length Nat.eqb negb subscriptable bind Nat.ltb Nat.leb].
    rewrite Htake.
    assert (Hsp : spec_mapped (wires self) (w0 :: ws')
                  = registry_position (wires self) w0 :: spec_mapped (wires self) ws')
      by reflexivity.
    rewrite Hsp in Hselect |- *. rewrite Hselect. rewrite <- Hsp.
    cbn [bind fst snd length].
    destruct bin_size as [b|]; [|reflexivity].
    destruct (infer_dim _ _) as [wd|e]; cbn [bind lift]; [|reflexivity].
    destruct (reshape_infer_rows _ _) as [planes|e]; reflexivity.
Qed.

(** With a Pauli observable on one wire, over a number of shots other
    than 1. *)
Lemma process_samples_pauli (o : obs_body) (w : wire) (mwires : list wire)
    (rt : option ObservableReturnTypes) (bin_size : option nat) :
  is_pauli_name (obs_name o) = true ->
  obs_wires o = [w] ->
  w ∈ wires self ->
  length (in_shot_range buffer shot_range) <> 1%nat ->
  SampleMP_process_samples (Some o) mwires buffer (num_wires self) (wires self)
                           shot_range bin_size
  = match sample self (OnObservable (mkObservable o rt))
                 shot_range bin_size false with
    | Ok v => match as_processed v with
              | Some p => Returned p
              | None => KeyError
              end
    | Err e => Raised e
    end.
Proof.
  intros Hp Hw Hreg Hshots. unfold SampleMP_process_samples, sample.
  change (mp_wires (SampleMP (Some o) mwires)) with (obs_wires o).
  cbn [target_wires body]. rewrite Hw.
  assert (Hsub : [w] ⊆ wires self)
    by (intros x Hx; apply list_elem_of_singleton in Hx; subst; exact Hreg).
  rewrite wire_map_all_ok by assumption.
  rewrite (map_wires_ok self [w] Hsub). cbn [bind].
  rewrite sub_samples_buffered. cbn [bind]. fold (in_shot_range buffer shot_range).
  destruct (columns_selected [w] Hsub) as [_ Hselect].
  unfold spec_mapped in Hselect |- *. cbn [map] in Hselect |- *.
  rewrite Hselect, Hp.
  destruct (obs_name o) as [name|] eqn:Ename; [|discriminate Hp].
  cbn [bind fst snd length getitem nth_error subscriptable].
  rewrite (mapR_ok _ (fun row => nth (registry_position (wires self) w) row 0)).
  - cbn [bind].
    rewrite (pauli_squeeze_column (registry_position (wires self) w) (in_shot_range buffer shot_range) Hshots).
    destruct bin_size as [b|]; [|reflexivity].
    cbn [bind flatten].
    destruct (reshape_infer_cols _ b) as [m|e]; reflexivity.
  - intros row Hrow. apply getitem_ok.
    pose proof selected_well_formed as Hwf. unfold well_formed_buffer in Hwf.
    rewrite Forall_forall in Hwf. destruct (Hwf row Hrow) as [-> _].
    apply registry_position_lt, Hreg.
Qed.

(** With any other observable, on at least one wire. *)
Lemma process_samples_eigenvalues (o : obs_body) (mwires : list wire)
    (rt : option ObservableReturnTypes) (bin_size : option nat) :
  is_pauli_name (obs_name o) = false ->
  obs_name o <> None ->
  obs_wires o <> [] ->
  obs_wires o ⊆ wires self ->
  SampleMP_process_samples (Some o) mwires buffer (num_wires self) (wires self)
                           shot_range bin_size
  = match sample self (OnObservable (mkObservable o rt))
                 shot_range bin_size false with
    | Ok v => match as_processed v with
              | Some p => Returned p
              | None => KeyError
              end
    | Err e => Raised e
    end.
Proof.
  intros Hp Hname Hne Hsub. unfold SampleMP_process_samples, sample.
  change (mp_wires (SampleMP (Some o) mwires)) with (obs_wires o).
  cbn [target_wires body].
  rewrite wire_map_all_ok by assumption.
  rewrite (map_wires_ok self (obs_wires o) Hsub). cbn [bind].
  rewrite sub_samples_buffered. cbn [bind]. fold (in_shot_range buffer shot_range).
  destruct (columns_selected (obs_wires o) Hsub) as [Htake Hselect].
  rewrite Hp. destruct (obs_name o) as [name|] eqn:Ename; [|contradiction].
  cbn [subscriptable bind]. rewrite Htake. cbn [bind].
  destruct (spec_mapped (wires self) (obs_wires o)) as [|c cols] eqn:Ecols.
  { exfalso. apply Hne. unfold spec_mapped in Ecols. destruct (obs_wires o); [reflexivity|discriminate]. }
  rewrite Hselect. cbn [bind fst snd].
  destruct (eigvals o) as [eig|e]; cbn [bind lift]; [|reflexivity].
  destruct (mapR (getitemZ eig) _) as [vals|e]; cbn [bind lift]; [|reflexivity].
  destruct bin_size as [b|]; [|reflexivity].
  cbn [flatten]. destruct (reshape_infer_cols vals b) as [m|e]; reflexivity.
Qed.

(** With a tensor product, whose name is no string. *)
Lemma process_samples_tensor (factors : list operator) (mwires : list wire)
    (bin_size : option nat) :
  obs_wires (Tensor factors) ⊆ wires self ->
  SampleMP_process_samples (Some (Tensor factors)) mwires buffer (num_wires self)
                           (wires self) shot_range bin_size
  = Raised TypeError.
Proof.
  intros Hsub. unfold SampleMP_process_samples.
  change (mp_wires (SampleMP (Some (Tensor factors)) mwires))
    with (obs_wires (Tensor factors)).
  rewrite wire_map_all_ok by assumption.
  destruct (columns_selected (obs_wires (Tensor factors)) Hsub) as [_ Hselect].
  fold (in_shot_range buffer shot_range).
  destruct (spec_mapped (wires self) (obs_wires (Tensor factors))) as [|c cols] eqn:Ecols.
  - reflexivity.
  - rewrite Hselect. reflexivity.
Qed.

End Agreement.

Lemma sample_returns_array {K : Type} (self : QubitDevice K) (t : sample_target)
    (buffer : list (list Z))
    (shot_range : option (nat * nat)) (bin_size : option nat) (v : sample_out) :
  _samples self = Some buffer ->
  sample self t shot_range bin_size false = Ok v ->
  exists p, as_processed v = Some p.
Proof.
  unfold sample. intros Hbuf E.
  destruct (map_wires self (target_wires t)) as [device_wires|e]; [|discriminate].
  cbn [bind] in E.
  assert (Hsub : sub_samples_of self shot_range = Ok (Some (in_shot_range buffer shot_range))).
  { unfold sub_samples_of. rewrite Hbuf. destruct shot_range; reflexivity. }
  rewrite Hsub in E. cbn [bind] in E.
  match type of E with
  | (let! samples := ?c in _) = _ =>
      assert (Hc : c <> Ok Missing);
      [|destruct c as [[vals|raw|]|e]; [| |congruence|]]
  end.
  { destruct t as [o|m].
    - destruct (is_pauli_name _).
      + destruct (getitem device_wires 0); cbn [bind subscriptable]; [|discriminate].
        destruct (mapR _ _); discriminate.
      + cbn [bind subscriptable]. destruct (take_columns _ _); cbn [bind]; [|discriminate].
        destruct (eigvals _); cbn [bind]; [|discriminate].
        destruct (mapR _ _); discriminate.
    - destruct (negb _); [|discriminate].
      cbn [bind subscriptable]. destruct (take_columns _ _); discriminate. }
  all: cbn [bind] in E; try discriminate; destruct bin_size as [b|].
  - destruct (reshape_infer_cols vals b) as [m|e]; [|discriminate].
    injection E as <-. eexists. reflexivity.
  - injection E as <-. eexists. reflexivity.
  - destruct (infer_dim _ _) as [wd|e]; [|discriminate]. cbn [bind] in E.
    destruct (reshape_infer_rows _ _) as [planes|e]; [|discriminate].
    injection E as <-. eexists. reflexivity.
  - injection E as <-. eexists. reflexivity.
Qed.

(** X18.  The measurement process and the device agree on samples, except
    for tensor products: over the buffer of a device, for registered wires,
    [SampleMP.process_samples] returns the array that [QubitDevice.sample]
    returns, and raises the exception that it raises, when there is no
    observable or the observable is a single operator.  Such an observable
    must act on a wire; a Pauli observable must act on one wire and have a
    number of selected shots other than 1 (a single shot is squeezed to a
    scalar by the process and not by the device).  For a tensor product the
    measurement process raises a [TypeError]: its test of the name, unlike
    that of the device, is not guarded. *)
Theorem sample_process_samples_agree {K : Type} (self : QubitDevice K)
    (obs : option obs_body) (mwires : list wire) (buffer : list (list Z))
    (shot_range : option (nat * nat)) (bin_size : option nat) :
  NoDup (wires self) ->
  _samples self = Some buffer ->
  well_formed_buffer (num_wires self) buffer ->
  mp_wires (SampleMP obs mwires) ⊆ wires self ->
  match obs with
  | Some (Tensor _) =>
      SampleMP_process_samples obs mwires buffer (num_wires self) (wires self)
                               shot_range bin_size
      = Raised TypeError
  | _ =>
      (forall o, obs = Some o ->
         obs_wires o <> []
         /\ (is_pauli_name (obs_name o) = true ->
             length (obs_wires o) = 1%nat
             /\ length (in_shot_range buffer shot_range) <> 1%nat)) ->
      match sample self (obs_of (SampleMP obs mwires)) shot_range bin_size false with
      | Ok v =>
          exists p, as_processed v = Some p
                    /\ SampleMP_process_samples obs mwires buffer (num_wires self)
                                                (wires self) shot_range bin_size
                       = Returned p
      | Err e =>
          SampleMP_process_samples obs mwires buffer (num_wires self) (wires self)
                                   shot_range bin_size
          = Raised e
      end
  end.
Proof.
  intros Hreg Hbuf Hwf Hsub.
  assert (Hagree :
    forall obs', obs' = obs ->
      (forall factors, obs <> Some (Tensor factors)) ->
      (forall o, obs = Some o ->
         obs_wires o <> []
         /\ (is_pauli_name (obs_name o) = true ->
             length (obs_wires o) = 1%nat
             /\ length (in_shot_range buffer shot_range) <> 1%nat)) ->
      match sample self (obs_of (SampleMP obs mwires)) shot_range bin_size false with
      | Ok v =>
          exists p, as_processed v = Some p
                    /\ SampleMP_process_samples obs mwires buffer (num_wires self)
                                                (wires self) shot_range bin_size
                       = Returned p
      | Err e =>
          SampleMP_process_samples obs mwires buffer (num_wires self) (wires self)
                                   shot_range bin_size
          = Raised e
      end).
  { intros _ _ Hsingle Hobs.
    assert (Heq : SampleMP_process_samples obs mwires buffer (num_wires self)
                                           (wires self) shot_range bin_size
                  = match sample self (obs_of (SampleMP obs mwires)) shot_range bin_size
                                 false with
                    | Ok v => match as_processed v with
                              | Some p => Returned p
                              | None => KeyError
                              end
                    | Err e => Raised e
                    end).
    { destruct obs as [o|].
      - destruct (Hobs o eq_refl) as [Hne Hp].
        assert (Hname : obs_name o <> None).
        { destruct o as [op|factors]; [discriminate|].
          exfalso. apply (Hsingle factors). reflexivity. }
        change (mp_wires (SampleMP (Some o) mwires)) with (obs_wires o) in Hsub.
        change (obs_of (SampleMP (Some o) mwires))
          with (OnObservable (mkObservable o (Some Sample))).
        destruct (is_pauli_name (obs_name o)) eqn:Ep.
        + destruct (Hp eq_refl) as [Hone Hshots].
          destruct (obs_wires o) as [|w [|w' ws]] eqn:Ew; cbn [length] in Hone; try lia.
          apply (process_samples_pauli self buffer shot_range Hreg Hbuf Hwf o w);
            try assumption.
          apply Hsub. left.
        + apply process_samples_eigenvalues; assumption.
      - apply process_samples_raw; assumption. }
    rewrite Heq.
    destruct (sample self (obs_of (SampleMP obs mwires)) shot_range bin_size false)
      as [v|e] eqn:E; [|reflexivity].
    destruct (sample_returns_array self _ buffer shot_range bin_size v Hbuf E) as [p Hp].
    exists p. rewrite Hp. split; reflexivity. }
  destruct obs as [[op|factors]|].
  - apply (Hagree _ eq_refl). intros factors. discriminate.
  - apply process_samples_tensor; assumption.
  - apply (Hagree _ eq_refl). intros factors. discriminate.
Qed.

Lemma sample_process_samples_agree_witness :
  match sample (canonical_device 2 (Some 3%nat) None (Some docstring_samples) tt)
               (obs_of (SampleMP (Some (Single (PauliZ (WInt 0)))) []))
               None None false with
  | Ok v =>
      exists p, as_processed v = Some p
                /\ SampleMP_process_samples
                     (Some (Single (PauliZ (WInt 0)))) [] docstring_samples
                     (num_wires (canonical_device 2 (Some 3%nat) None
                                                  (Some docstring_samples) tt))
                     (wires (canonical_device 2 (Some 3%nat) None
                                              (Some docstring_samples) tt))
                     None None
                   = Returned p
  | Err e =>
      SampleMP_process_samples
        (Some (Single (PauliZ (WInt 0)))) [] docstring_samples
        (num_wires (canonical_device 2 (Some 3%nat) None (Some docstring_samples) tt))
        (wires (canonical_device 2 (Some 3%nat) None (Some docstring_samples) tt))
        None None
      = Raised e
  end.
Proof.
  apply (sample_process_samples_agree
           (canonical_device 2 (Some 3%nat) None (Some docstring_samples) tt)
           (Some (Single (PauliZ (WInt 0)))) [] docstring_samples None None).
  - apply (bool_decide_unpack _). vm_compute. exact I.
  - reflexivity.
  - unfold well_formed_buffer, is_bit. apply (bool_decide_unpack _). vm_compute. exact I.
  - apply (bool_decide_unpack _). vm_compute. exact I.
  - intros o Ho. injection Ho as <-. split; [discriminate|].
    intros _. split; [reflexivity|]. cbn. lia.
Defined.

(* ===================================================================== *)
(** * Further properties: the measurement process [VarianceMP] *)
(* ===================================================================== *)

(** The samples of an observable are eigenvalues: a vector without bins, a
    matrix with bins. *)
Lemma sample_observable_shape {K : Type} (self : QubitDevice K) (o : observable)
    (shot_range : option (nat * nat)) (bin_size : option nat) (v : sample_out) :
  sample self (OnObservable o) shot_range bin_size false = Ok v ->
  match bin_size with
  | None => exists vals, v = Samples1 vals
  | Some _ => exists m, v = BinnedEig m
  end.
Proof.
  unfold sample. intros E.
  destruct (map_wires self (target_wires (OnObservable o))) as [device_wires|e];
    [|discriminate].
  cbn [bind] in E.
  destruct (sub_samples_of self shot_range) as [sub|e]; [|discriminate].
  cbn [bind] in E.
  destruct (is_pauli_name (obs_name (body o))).
  - destruct (getitem device_wires 0) as [w0|e]; [|discriminate]. cbn [bind] in E.
    destruct (subscriptable sub) as [rows|e]; [|discriminate]. cbn [bind] in E.
    destruct (mapR _ rows) as [column|e]; [|discriminate]. cbn [bind] in E.
    destruct bin_size as [b|].
    + destruct (reshape_infer_cols _ b) as [m|e]; [|discriminate].
      injection E as <-. eexists. reflexivity.
    + injection E as <-. eexists. reflexivity.
  - destruct (subscriptable sub) as [rows|e]; [|discriminate]. cbn [bind] in E.
    destruct (take_columns rows device_wires) as [smp|e]; [|discriminate].
    cbn [bind] in E.
    destruct (eigvals (body o)) as [eig|e]; [|discriminate]. cbn [bind] in E.
    destruct (mapR (getitemZ eig) _) as [vals|e]; [|discriminate]. cbn [bind] in E.
    destruct bin_size as [b|].
    + destruct (reshape_infer_cols _ b) as [m|e]; [|discriminate].
      injection E as <-. eexists. reflexivity.
    + injection E as <-. eexists. reflexivity.
Qed.

(** X19.  The measurement process and the device agree on estimated
    variances, except for tensor products: on a device with finite shots,
    for a single operator other than a projector on registered wires (a
    Pauli observable on one wire, over a number of selected shots other than
    1), [VarianceMP.process_samples] over the buffer of the device returns
    what [QubitDevice.var] returns and raises what it raises.  For a tensor
    product it raises the [TypeError] of [SampleMP.process_samples]. *)
Theorem variance_process_samples_agree {K O : Type} `{!Kernel K O}
    (self : QubitDevice K)
    (probs_process_samples :
       list wire -> list (list Z) -> nat -> list wire -> option (nat * nat) ->
       option nat -> process_result ndarray)
    (obs : obs_body) (rt : option ObservableReturnTypes) (buffer : list (list Z))
    (shot_range : option (nat * nat)) (bin_size : option nat) (n : nat) :
  shots self = Some n ->
  NoDup (wires self) ->
  _samples self = Some buffer ->
  well_formed_buffer (num_wires self) buffer ->
  obs_name obs <> Some "Projector" ->
  obs_wires obs ⊆ wires self ->
  match obs with
  | Tensor _ =>
      VarianceMP_process_samples probs_process_samples obs buffer (num_wires self)
                                 (wires self) shot_range bin_size
      = Raised TypeError
  | Single _ =>
      obs_wires obs <> [] ->
      (is_pauli_name (obs_name obs) = true ->
       length (obs_wires obs) = 1%nat
       /\ length (in_shot_range buffer shot_range) <> 1%nat) ->
      VarianceMP_process_samples probs_process_samples obs buffer (num_wires self)
                                 (wires self) shot_range bin_size
      = lift (var self (mkObservable obs rt) shot_range bin_size)
  end.
Proof.
  intros Hshots Hreg Hbuf Hwf Hname Hsub.
  destruct obs as [op|factors].
  - intros Hne Hp.
    unfold VarianceMP_process_samples, var. cbn [body].
    destruct (decide (obs_name (Single op) = Some "Projector")); [contradiction|].
    rewrite Hshots.
    assert (Heq : SampleMP_process_samples (Some (Single op)) [] buffer (num_wires self)
                                           (wires self) shot_range bin_size
                  = match sample self (OnObservable (mkObservable (Single op) rt))
                                 shot_range bin_size false with
                    | Ok v => match as_processed v with
                              | Some p => Returned p
                              | None => KeyError
                              end
                    | Err e => Raised e
                    end).
    { destruct (is_pauli_name (obs_name (Single op))) eqn:Ep.
      - destruct (Hp eq_refl) as [Hone Hshots1].
        destruct (obs_wires (Single op)) as [|w [|w' ws]] eqn:Ew;
          cbn [length] in Hone; try lia.
        apply (process_samples_pauli self buffer shot_range Hreg Hbuf Hwf (Single op) w);
          try assumption.
        apply Hsub. left.
      - apply process_samples_eigenvalues; try assumption. discriminate. }
    rewrite Heq.
    destruct (sample self (OnObservable (mkObservable (Single op) rt)) shot_range
                     bin_size false)
      as [v|e] eqn:E; cbn [bind lift]; [|reflexivity].
    pose proof (sample_observable_shape self _ shot_range bin_size v E) as Hshape.
    destruct bin_size as [b|]; destruct Hshape as [x ->]; reflexivity.
  - unfold VarianceMP_process_samples.
    destruct (decide (obs_name (Tensor factors) = Some "Projector")); [contradiction|].
    rewrite process_samples_tensor by assumption. reflexivity.
Qed.

Lemma variance_process_samples_agree_witness :
  VarianceMP_process_samples (fun _ _ _ _ _ _ => KeyError)
                             (Single (mkOperator "Hermitian" [WInt 0; WInt 1] []
                                                 (Some [1; - (1); - (1); 1]%Qc)))
                             [[0; 0]; [0; 1]; [1; 1]; [0; 1]]
                             (num_wires (canonical_device 2 (Some 4%nat) None
                                           (Some [[0; 0]; [0; 1]; [1; 1]; [0; 1]])
                                           ([] : list Qc)))
                             (wires (canonical_device 2 (Some 4%nat) None
                                       (Some [[0; 0]; [0; 1]; [1; 1]; [0; 1]])
                                       ([] : list Qc)))
                             None (Some 2%nat)
  = lift (var (Kernel0 := fixed_kernel)
              (canonical_device 2 (Some 4%nat) None
                                (Some [[0; 0]; [0; 1]; [1; 1]; [0; 1]]) [])
              (mkObservable (Single (mkOperator "Hermitian" [WInt 0; WInt 1] []
                                                (Some [1; - (1); - (1); 1]%Qc)))
                            (Some Variance))
              None (Some 2%nat)).
Proof.
  apply (variance_process_samples_agree (Kernel0 := fixed_kernel)
           (canonical_device 2 (Some 4%nat) None
                             (Some [[0; 0]; [0; 1]; [1; 1]; [0; 1]]) [])
           (fun _ _ _ _ _ _ => KeyError)
           (Single (mkOperator "Hermitian" [WInt 0; WInt 1] []
                               (Some [1; - (1); - (1); 1]%Qc)))
           (Some Variance)
           [[0; 0]; [0; 1]; [1; 1]; [0; 1]] None (Some 2%nat) 4).
  - reflexivity.
  - apply (bool_decide_unpack _). vm_compute. exact I.
  - reflexivity.
  - unfold well_formed_buffer, is_bit. apply (bool_decide_unpack _). vm_compute. exact I.
  - discriminate.
  - apply (bool_decide_unpack _). vm_compute. exact I.
  - discriminate.
  - discriminate.
Defined.

(* ===================================================================== *)
(** * Further properties: the state, and the shape of a result *)
(* ===================================================================== *)

Section State.

Context {K O : Type} `{!Kernel K O}.

(** X20.  On a device that is not capable of returning the state, or whose
    state is not available, [access_state] raises [QuantumFunctionError]
    whatever the wires, and [vn_entropy] and [mutual_info] turn that into a
    [NotImplementedError]. *)
Theorem state_unavailable (self : QubitDevice K) :
  returns_state = false \/ kernel_state (kernel self) = None ->
  (forall ws, access_state self ws = Err QuantumFunctionError)
  /\ (forall ws log_base, vn_entropy self ws log_base = Err NotImplementedError)
  /\ (forall ws0 ws1 log_base,
        mutual_info self ws0 ws1 log_base = Err NotImplementedError).
Proof.
  intros H.
  assert (Ha : forall ws, access_state self ws = Err QuantumFunctionError).
  { intros ws. unfold access_state. destruct H as [-> | ->]; [reflexivity|].
    destruct (negb returns_state); reflexivity. }
  split; [exact Ha|]. split.
  - intros ws log_base. unfold vn_entropy. rewrite Ha. reflexivity.
  - intros ws0 ws1 log_base. unfold mutual_info. rewrite Ha. reflexivity.
Qed.

(** X21.  The shape of what [_execute_new] returns on a device without a
    shot vector: the bare result for a circuit of exactly one measurement,
    and otherwise a tuple with one result per measurement. *)
Theorem execute_new_result_shape (circuit : QuantumScript) (s s' : QubitDevice K)
    (r : @execute_result O) :
  _shot_vector s = None ->
  _execute_new circuit s = (Ok r, s') ->
  match r with
  | Bare _ => length (measurements circuit) = 1%nat
  | Tuple results =>
      length results = length (measurements circuit)
      /\ length (measurements circuit) <> 1%nat
  end.
Proof.
  intros Hv E. unfold _execute_new in E.
  apply bindM_Ok_inv in E as (u0 & s0 & E0 & E). apply read_Ok_inv in E0 as [_ ->].
  apply bindM_Ok_inv in E as (u1 & s1 & E1 & E).
  destruct (apply_frame (operations circuit) (diagonalizing_gates circuit) s)
    as (_ & Hv1 & _).
  rewrite E1 in Hv1. cbn [snd] in Hv1.
  apply bindM_Ok_inv in E as (finite & s2 & E2 & E). apply read_Ok_inv in E2 as [_ ->].
  apply bindM_Ok_inv in E as (u3 & s3 & E3 & E).
  assert (Hv3 : _shot_vector s3 = None).
  { destruct finite.
    - apply bindM_Ok_inv in E3 as (samples & s2' & Eg & Es).
      destruct (generate_samples_frame s1) as (_ & Hg & _).
      rewrite Eg in Hg. cbn [snd] in Hg.
      unfold set_samples in Es. injection Es as _ <-. cbn [_shot_vector]. congruence.
    - unfold ret in E3. injection E3 as _ <-. congruence. }
  apply bindM_Ok_inv in E as (vector & s4 & E4 & E).
  apply read_Ok_inv in E4 as [E4 ->]. injection E4 as <-.
  rewrite Hv3 in E. rewrite bool_decide_false in E by (intros H; apply H; reflexivity).
  apply bindM_Ok_inv in E as (out & s5 & E5 & E).
  apply bindM_Ok_inv in E as (u6 & s6 & _ & E).
  unfold ret in E. injection E as <- _.
  apply bindM_Ok_inv in E5 as (results & s7 & Estat & E5).
  apply statistics_new_length in Estat.
  destruct (Nat.eqb_spec (length (measurements circuit)) 1) as [H1|H1].
  - destruct results as [|v results]; [discriminate|].
    unfold ret in E5. injection E5 as <- _. exact H1.
  - unfold ret in E5. injection E5 as <- _. split; assumption.
Qed.

End State.

Lemma state_unavailable_witness :
  (forall ws, access_state (Kernel0 := sampling_kernel) two_qubit_analytic ws
              = Err QuantumFunctionError)
  /\ (forall ws log_base,
        vn_entropy (Kernel0 := sampling_kernel) two_qubit_analytic ws log_base
        = Err NotImplementedError)
  /\ (forall ws0 ws1 log_base,
        mutual_info (Kernel0 := sampling_kernel) two_qubit_analytic ws0 ws1 log_base
        = Err NotImplementedError).
Proof.
  apply (state_unavailable (Kernel0 := sampling_kernel) two_qubit_analytic).
  left. reflexivity.
Defined.

Lemma execute_new_result_shape_witness :
  match fst (_execute_new (Kernel0 := fixed_kernel) three_measurements two_qubit_analytic)
  with
  | Ok (Bare _) => length (measurements three_measurements) = 1%nat
  | Ok (Tuple results) =>
      length results = length (measurements three_measurements)
      /\ length (measurements three_measurements) <> 1%nat
  | Err _ => False
  end.
Proof.
  destruct (_execute_new (Kernel0 := fixed_kernel) three_measurements two_qubit_analytic)
    as [[r|e] s'] eqn:E; cbn [fst].
  - apply (execute_new_result_shape (Kernel0 := fixed_kernel) three_measurements
             two_qubit_analytic s' r); [reflexivity|exact E].
  - vm_compute in E. discriminate.
Defined.

(* ===================================================================== *)
(** * Probabilities without a choice of wires *)
(* ===================================================================== *)

Lemma spec_mapped_registry (registry : list wire) :
  NoDup registry -> spec_mapped registry registry = seq 0 (length registry).
Proof.
  intros Hnd. apply list_eq. intros i. unfold spec_mapped.
  change (map ?f ?l) with (f <$> l). rewrite list_lookup_fmap.
  destruct (registry !! i) as [w|] eqn:E.
  - cbn [fmap option_fmap option_map]. unfold registry_position.
    rewrite (wire_index_lookup registry i w Hnd E). cbn [default].
    apply lookup_lt_Some in E. rewrite lookup_seq_lt by exact E. reflexivity.
  - cbn [fmap option_fmap option_map]. apply lookup_ge_None in E.
    symmetry. apply lookup_ge_None. rewrite length_seq. exact E.
Qed.

Section AllWires.

Context {K O : Type} `{!Kernel K O} (self : QubitDevice K).

(** C10.  With a [wires] argument that is [None] or an empty collection,
    [probability] and [estimate_probability] compute what they compute for
    every wire of the Device Wire Registry, and that is no error and no
    empty marginal.  In analytic mode [probability] returns the
    full-system vector of the device, of [2^num_wires] entries; from
    samples, the vector of [2^num_wires] estimated probabilities of the
    basis states of all the wires, and with bins a matrix of [2^num_wires]
    rows. *)
Theorem probability_defaults_to_all_wires (wires_arg : option (list wire))
    (shot_range : option (nat * nat)) :
  wires_arg = None \/ wires_arg = Some [] ->
  NoDup (wires self) -> wires self <> [] -> (num_wires self <= 63)%nat ->
  (forall bin_size,
      probability self wires_arg shot_range bin_size
      = probability self (Some (wires self)) shot_range bin_size
      /\ estimate_probability self wires_arg shot_range bin_size
         = estimate_probability self (Some (wires self)) shot_range bin_size)
  /\ (forall prob bin_size,
        shots self = None ->
        kernel_probability (kernel self) = Ok prob ->
        length prob = (2 ^ num_wires self)%nat ->
        probability self wires_arg shot_range bin_size = Ok (Vector prob))
  /\ (forall rows,
        selected_samples self shot_range = Ok rows ->
        well_formed_buffer (num_wires self) rows ->
        (exists prob,
            estimate_probability self wires_arg shot_range None = Ok (Vector prob)
            /\ (forall n, shots self = Some n ->
                  probability self wires_arg shot_range None = Ok (Vector prob))
            /\ length prob = (2 ^ num_wires self)%nat
            /\ forall k, (k < 2 ^ num_wires self)%nat ->
                 prob !! k
                 = Some (round_float (R_DTYPE self)
                           (true_divide
                              (occurrences (Z.of_nat k)
                                 (basis_indices (wires self) (wires self) rows))
                              (length rows))))
        /\ (forall bin_size, bin_size <> 0%nat -> (bin_size | length rows)%nat ->
              exists m,
                estimate_probability self wires_arg shot_range (Some bin_size)
                = Ok (Matrix m)
                /\ length m = (2 ^ num_wires self)%nat
                /\ Forall (fun row => length row = (length rows / bin_size)%nat) m)).
Proof.
  intros Harg Hnd Hne Hn.
  assert (Hor : wires_or wires_arg (wires self) = wires self).
  { destruct Harg as [-> | ->]; reflexivity. }
  assert (Hall : wires_or (Some (wires self)) (wires self) = wires self)
    by (destruct (wires self); reflexivity).
  assert (Hest : forall bin_size,
            estimate_probability self wires_arg shot_range bin_size
            = estimate_probability self (Some (wires self)) shot_range bin_size).
  { intros bin_size. unfold estimate_probability. rewrite Hor, Hall. reflexivity. }
  assert (Hprob : forall bin_size,
            probability self wires_arg shot_range bin_size
            = probability self (Some (wires self)) shot_range bin_size).
  { intros bin_size. unfold probability. rewrite Hor, Hall. reflexivity. }
  split; [intros bin_size; split; [apply Hprob|apply Hest]|]. split.
  - intros prob bin_size Hshots Hk Hlen.
    unfold probability. rewrite Hor, Hshots.
    unfold analytic_probability. rewrite Hk. cbn [bind].
    rewrite (marginal_prob_sorted self prob (wires self)); try assumption.
    + cbn [bind]. unfold marginal_axes. rewrite unique_wires_all.
      rewrite reduce_sum_nothing. reflexivity.
    + reflexivity.
    + rewrite spec_mapped_registry by exact Hnd. apply increasing_seq.
  - intros rows Hsel Hwf.
    assert (Hr : Forall (in_range (2 ^ length (wires self)))
                        (basis_indices (wires self) (wires self) rows))
      by (eapply basis_indices_range; eassumption).
    assert (Hlen : length (basis_indices (wires self) (wires self) rows) = length rows)
      by (unfold basis_indices; apply length_map).
    split.
    + exists (rounded_frequencies (R_DTYPE self) (length rows)
                (basis_indices (wires self) (wires self) rows) (2 ^ num_wires self)).
      assert (E : estimate_probability self wires_arg shot_range None
                  = Ok (Vector (rounded_frequencies (R_DTYPE self) (length rows)
                                  (basis_indices (wires self) (wires self) rows)
                                  (2 ^ num_wires self)))).
      { rewrite (estimate_probability_unfold self wires_arg shot_range None rows);
          rewrite ?Hor; try assumption; [|reflexivity].
        cbv zeta. rewrite count_unbinned_samples_ok by exact Hr.
        rewrite Hlen. reflexivity. }
      split; [exact E|]. split; [|split].
      * intros n Hshots. unfold probability. rewrite Hor, Hshots.
        rewrite <- E. rewrite !Hest. unfold estimate_probability.
        rewrite !Hall. reflexivity.
      * apply rounded_frequencies_length.
      * intros k Hk. apply rounded_frequencies_lookup. exact Hk.
    + intros bin_size Hb [q Hq].
      assert (Hdiv : (length rows / bin_size)%nat = q)
        by (rewrite Hq; apply Nat.div_mul; exact Hb).
      rewrite (estimate_probability_unfold self wires_arg shot_range (Some bin_size) rows);
        rewrite ?Hor; try assumption; [|reflexivity].
      cbv zeta. destruct (Nat.eqb_spec bin_size 0) as [|_]; [contradiction|].
      destruct (count_binned_samples_ok
                  (basis_indices (wires self) (wires self) rows)
                  (2 ^ length (wires self)) bin_size (length rows / bin_size) Hr)
        as (m & E & Hs & _); [rewrite Hlen, Hdiv; exact Hq|].
      rewrite E. cbn [bind asarray].
      exists (map (map (round_float (R_DTYPE self))) m).
      split; [reflexivity|].
      destruct (shape_cast (R_DTYPE self) _ _ m Hs) as [Hl Hrows].
      split; [exact Hl|exact Hrows].
Qed.

End AllWires.

Lemma probability_defaults_to_all_wires_witness :
  (forall bin_size,
      probability (Kernel0 := fixed_kernel) two_qubit_sampler (Some []) None bin_size
      = probability (Kernel0 := fixed_kernel) two_qubit_sampler
                    (Some [WInt 0; WInt 1]) None bin_size)
  /\ exists prob,
       estimate_probability two_qubit_sampler (Some []) None None = Ok (Vector prob)
       /\ probability (Kernel0 := fixed_kernel) two_qubit_sampler (Some []) None None
          = Ok (Vector prob)
       /\ length prob = 4%nat.
Proof.
  destruct (probability_defaults_to_all_wires (Kernel0 := fixed_kernel)
              two_qubit_sampler (Some []) None) as (Hsame & _ & Hest).
  - right. reflexivity.
  - apply (bool_decide_unpack _). vm_compute. exact I.
  - discriminate.
  - apply (bool_decide_unpack _). vm_compute. exact I.
  - split; [intros bin_size; apply Hsame|].
    destruct (Hest [[0; 0]; [0; 0]]) as [(prob & E & Hp & Hl & _) _].
    + reflexivity.
    + unfold well_formed_buffer, is_bit. apply (bool_decide_unpack _). vm_compute. exact I.
    + exists prob. split; [exact E|]. split; [apply (Hp 2%nat); reflexivity|exact Hl].
Defined.

(* ===================================================================== *)
(** * Further properties: the two statistics paths *)
(* ===================================================================== *)

Lemma preserves_ret {K A X : Type} (f : QubitDevice K -> X) (a : A) :
  preserves f (@ret K A a).
Proof. intros s. reflexivity. Qed.

Lemma preserves_raise {K A X : Type} (f : QubitDevice K -> X) (e : error) :
  preserves f (@raise K A e).
Proof. intros s. reflexivity. Qed.

Lemma preserves_read {K A X : Type} (f : QubitDevice K -> X)
    (g : QubitDevice K -> result A) : preserves f (read g).
Proof. intros s. reflexivity. Qed.

Lemma preserves_bind {K A B X : Type} (f : QubitDevice K -> X) (c : M K A)
    (k : A -> M K B) :
  preserves f c -> (forall a, preserves f (k a)) -> preserves f (bindM c k).
Proof.
  intros Hc Hk s. unfold bindM. specialize (Hc s).
  destruct (c s) as [[a|e] s1]; cbn [snd] in Hc |- *; [|exact Hc].
  rewrite (Hk a s1). exact Hc.
Qed.

Lemma preserves_forM {K A B X : Type} (f : QubitDevice K -> X)
    (body : B -> A -> M K B) (l : list A) :
  (forall acc x, preserves f (body acc x)) ->
  forall acc, preserves f (forM body l acc).
Proof.
  intros Hb. induction l as [|x l IH]; intros acc; cbn [forM].
  - apply preserves_ret.
  - apply preserves_bind; [apply Hb|exact IH].
Qed.

Lemma dtypes_log {K : Type} (e : event) : preserves dtypes (@log K e).
Proof. intros s. reflexivity. Qed.

Lemma dtypes_set_kernel {K : Type} (k : K) : preserves dtypes (set_kernel k).
Proof. intros s. reflexivity. Qed.

Lemma dtypes_set_samples {K : Type} (smp : option (list (list Z))) :
  preserves dtypes (@set_samples K smp).
Proof. intros s. reflexivity. Qed.

Create HintDb dtypes.
#[local] Hint Resolve preserves_ret preserves_raise preserves_read dtypes_log
  dtypes_set_kernel dtypes_set_samples : dtypes.

Ltac dtypes :=
  repeat first
    [ solve [auto with dtypes]
    | apply preserves_bind; [|intros ?]
    | apply preserves_forM; intros ? ? ].

Section Paths.

Context {K O : Type} `{!Kernel K O}.

Lemma dtypes_set_shots {A : Type} (n : nat) (block : M K A) :
  preserves dtypes block -> preserves dtypes (set_shots n block).
Proof.
  intros Hb s. unfold set_shots. cbn [set_shot_attributes].
  match goal with |- context [block ?s1] =>
    pose proof (Hb s1) as H1; destruct (block s1) as [r s2] end.
  cbn [snd] in *. exact H1.
Qed.
#[local] Hint Resolve dtypes_set_shots : dtypes.

Lemma dtypes_reset : preserves dtypes (@reset K O _).
Proof. unfold reset. dtypes. intros s. reflexivity. Qed.
#[local] Hint Resolve dtypes_reset : dtypes.

Lemma dtypes_apply (ops rotations : list operation) :
  preserves dtypes (apply ops rotations).
Proof. unfold apply. dtypes. Qed.
#[local] Hint Resolve dtypes_apply : dtypes.

Lemma dtypes_sample_basis_states (n : nat) (p : list Qc) :
  preserves dtypes (sample_basis_states n p).
Proof.
  intros s. unfold sample_basis_states. destruct (shots s) as [sh|]; [|reflexivity].
  destruct (random_choice n sh p (kernel s)) as [r k]. reflexivity.
Qed.
#[local] Hint Resolve dtypes_sample_basis_states : dtypes.

Lemma dtypes_generate_samples : preserves dtypes (@generate_samples K O _).
Proof. unfold generate_samples. dtypes. Qed.
#[local] Hint Resolve dtypes_generate_samples : dtypes.

Lemma dtypes_classical_shadow (ws : list wire) (seed : option Z)
    (circuit : option QuantumScript) :
  preserves dtypes (classical_shadow ws seed circuit).
Proof.
  destruct circuit as [circuit|]; unfold classical_shadow; [|auto with dtypes].
  apply preserves_bind; [auto with dtypes|]. intros n_snapshots.
  apply dtypes_set_shots.
  dtypes.
Qed.
#[local] Hint Resolve dtypes_classical_shadow : dtypes.

Lemma dtypes_shadow_expval (H : obs_body) (ws : list wire) (seed : option Z)
    (k : nat) (circuit : option QuantumScript) :
  preserves dtypes (shadow_expval H ws seed k circuit).
Proof. unfold shadow_expval. dtypes. Qed.
#[local] Hint Resolve dtypes_shadow_expval : dtypes.

Lemma dtypes_statistics_dispatch (circuit : QuantumScript)
    (shot_range : option (nat * nat)) (bin_size : option nat) (m : measurement) :
  preserves dtypes (statistics_dispatch circuit shot_range bin_size m).
Proof.
  destruct m; unfold statistics_dispatch; auto with dtypes.
  - destruct (1 <? length (measurements circuit))%nat; auto with dtypes.
  - dtypes. destruct a; [auto with dtypes|]. dtypes. destruct a; auto with dtypes.
  - dtypes. destruct a; [auto with dtypes|]. dtypes. destruct a; auto with dtypes.
  - destruct (1 <? length (measurements circuit))%nat; [auto with dtypes|].
    dtypes.
  - destruct (1 <? length (measurements circuit))%nat; [auto with dtypes|].
    dtypes.
Qed.

(** One turn of each loop, on a device without a shot vector. *)
Lemma dispatch_paths (circuit : QuantumScript)
    (shot_range : option (nat * nat)) (bin_size : option nat)
    (m : measurement) (previous : option (value O)) (s : QubitDevice K) :
  _shot_vector s = None ->
  same_on_both_paths m = true ->
  match _statistics_new_dispatch circuit shot_range bin_size m previous s,
        statistics_dispatch circuit shot_range bin_size m s with
  | (Ok v, s1), (Ok r, s2) =>
      exists r0,
        r = [r0]
        /\ (if is_float_result m then asarray_value v (R_DTYPE s) else v)
           = new_path_cast (R_DTYPE s) (C_DTYPE s) m r0
        /\ s1 = s2
  | (Err e1, s1), (Err e2, s2) => e1 = e2 /\ s1 = s2
  | _, _ => False
  end.
Proof.
  intros Hv Hm. destruct m; try discriminate;
    unfold _statistics_new_dispatch, statistics_dispatch.
  - unfold read. destruct (expval _ _ _ _); [eexists; repeat split|split; reflexivity].
  - unfold read. destruct (var _ _ _ _); [eexists; repeat split|split; reflexivity].
  - unfold read. destruct (sample _ _ _ _ _); [eexists; repeat split|split; reflexivity].
  - unfold read. destruct (probability _ _ _ _); [eexists; repeat split|split; reflexivity].
  - destruct (1 <? length (measurements circuit))%nat; [split; reflexivity|].
    unfold read. destruct (access_state _ _); [eexists; repeat split|split; reflexivity].
  - unfold bindM, read, raise. cbn [fst snd].
    destruct (custom_wire_labels s); [split; reflexivity|].
    rewrite Hv. rewrite bool_decide_false by (intros H; apply H; reflexivity).
    destruct (vn_entropy _ _ _); [eexists; repeat split|split; reflexivity].
  - unfold bindM, read, raise. cbn [fst snd].
    destruct (custom_wire_labels s); [split; reflexivity|].
    rewrite Hv. rewrite bool_decide_false by (intros H; apply H; reflexivity).
    destruct (mutual_info _ _ _ _); [eexists; repeat split|split; reflexivity].
  - destruct (1 <? length (measurements circuit))%nat; [split; reflexivity|].
    unfold bindM. destruct (classical_shadow _ _ _ s) as [[br|e] s'];
      [eexists; repeat split|split; reflexivity].
  - destruct (1 <? length (measurements circuit))%nat; [split; reflexivity|].
    pose proof (dtypes_shadow_expval H mwires seed k (Some circuit) s) as Hd.
    unfold bindM. destruct (shadow_expval _ _ _ _ _ s) as [[r|e] s'];
      [|split; reflexivity].
    eexists. repeat split.
  - unfold read. destruct (transform_process _ _ _); [eexists; repeat split|split; reflexivity].
  - destruct obs as [o|]; [discriminate|].
    unfold read, _measure. cbn [obs_of mp_obs].
    destruct (device_method method_name) as [method|].
    + destruct (method _ s shot_range bin_size); [eexists; repeat split|split; reflexivity].
    + match goal with |- context [let! r := ?c in _] => destruct c end;
        [eexists; repeat split|split; reflexivity].
  - split; reflexivity.
Qed.

Lemma loops_agree (circuit : QuantumScript)
    (shot_range : option (nat * nat)) (bin_size : option nat)
    (r0 : float_dtype) (c0 : complex_dtype) (l : list measurement) :
  Forall (fun m => same_on_both_paths m = true) l ->
  forall (acc_new acc_old : list (value O)) (last : option (value O)) (s : QubitDevice K),
    _shot_vector s = None ->
    dtypes s = (r0, c0) ->
    match forM (fun (acc : list (value O) * option (value O)) m =>
                  do! result := _statistics_new_dispatch circuit shot_range bin_size m
                                                         (snd acc) in
                  do! result :=
                    read (fun self =>
                            Ok (if is_float_result m
                                then asarray_value result (R_DTYPE self)
                                else result)) in
                  do! result :=
                    read (fun self =>
                            Ok (if bool_decide (_shot_vector self <> None)
                                   && is_ndarray result
                                then np_squeeze result else result)) in
                  ret (fst acc ++ [result], Some result))
               l (acc_new, last) s,
          forM (fun results m =>
                  do! r := statistics_dispatch circuit shot_range bin_size m in
                  ret (results ++ r))
               l acc_old s with
    | (Ok a, s1), (Ok r, s2) =>
        exists rs, r = acc_old ++ rs
                   /\ fst a = acc_new ++ zip_with (new_path_cast r0 c0) l rs
                   /\ s1 = s2
    | (Err e1, s1), (Err e2, s2) => e1 = e2 /\ s1 = s2
    | _, _ => False
    end.
Proof.
  induction 1 as [|m l Hm _ IH]; intros acc_new acc_old last s Hv Hdt.
  - cbn [forM]. unfold ret. exists []. rewrite !app_nil_r. repeat split.
  - cbn [forM].
    pose proof (dispatch_paths circuit shot_range bin_size m last s Hv Hm) as Hd.
    pose proof (statistics_dispatch_shot_vector circuit shot_range bin_size m s) as Hsv.
    pose proof (dtypes_statistics_dispatch circuit shot_range bin_size m s) as Hty.
    cbn [snd fst]. rewrite !bindM_assoc.
    destruct (_statistics_new_dispatch circuit shot_range bin_size m last s)
      as [[v|e1] s1] eqn:E1;
      destruct (statistics_dispatch circuit shot_range bin_size m s) as [[r|e2] s2] eqn:E2;
      try contradiction; cbn [snd] in Hsv, Hty.
    + destruct Hd as (x & -> & Hcast & ->).
      assert (HR : R_DTYPE s2 = R_DTYPE s) by (unfold dtypes in Hty; congruence).
      assert (Hr0 : R_DTYPE s = r0) by (unfold dtypes in Hdt; congruence).
      assert (Hc0 : C_DTYPE s = c0) by (unfold dtypes in Hdt; congruence).
      rewrite (bindM_Ok _ _ _ _ _ E1), (bindM_Ok _ _ _ _ _ E2).
      cbv beta. rewrite ?bindM_assoc.
      rewrite (bindM_read_Ok _ _ s2 (new_path_cast r0 c0 m x))
        by (rewrite HR, Hcast, Hr0, Hc0; reflexivity).
      rewrite ?bindM_assoc.
      rewrite (bindM_read_Ok _ _ s2 (new_path_cast r0 c0 m x))
        by (rewrite Hsv, Hv, bool_decide_false by (intros H0; apply H0; reflexivity);
            reflexivity).
      rewrite !bindM_ret.
      specialize (IH (acc_new ++ [new_path_cast r0 c0 m x]) (acc_old ++ [x])
                     (Some (new_path_cast r0 c0 m x)) s2).
      assert (IH' := IH ltac:(rewrite Hsv; exact Hv) ltac:(rewrite Hty; exact Hdt)).
      clear IH. cbn [fst snd] in IH' |- *. revert IH'.
      match goal with
      | |- context [forM ?b l (?a, ?la) s2] =>
          destruct (forM b l (a, la) s2) as [[fin|e1] s3]
      end;
      match goal with
      | |- context [forM ?b l (acc_old ++ [x]) s2] =>
          destruct (forM b l (acc_old ++ [x]) s2) as [[rr|e2] s4]
      end; intros IH'; try contradiction; [|exact IH'].
      destruct IH' as (rs & -> & Hfin & ->).
      exists (x :: rs). rewrite <- !app_assoc in *. cbn [app zip_with] in *.
      repeat split. exact Hfin.
    + destruct Hd as [-> ->].
      rewrite (bindM_raises _ _ _ _ _ E1), (bindM_raises _ _ _ _ _ E2).
      split; reflexivity.
Qed.

(** X8.  On a device without a shot vector, for a circuit without sample
    measurements, measurement processes of no known class and custom
    measurements with an observable, [_statistics_new] raises the exception
    that the legacy [statistics] raises and leaves the device in the same
    state, and when they return, its results are the results of the legacy
    path after the casts that only the new path makes: of a state to the
    complex dtype of the device, and of expectation values, variances,
    probabilities, entropies and shadow expectation values to its real
    dtype. *)
Theorem statistics_paths_agree (circuit : QuantumScript)
    (shot_range : option (nat * nat)) (bin_size : option nat) (s : QubitDevice K) :
  _shot_vector s = None ->
  Forall (fun m => same_on_both_paths m = true) (measurements circuit) ->
  _statistics_new circuit shot_range bin_size s
  = (match fst (statistics circuit shot_range bin_size s) with
     | Ok results =>
         Ok (zip_with (new_path_cast (R_DTYPE s) (C_DTYPE s))
                      (measurements circuit) results)
     | Err e => Err e
     end,
     snd (statistics circuit shot_range bin_size s)).
Proof.
  intros Hv Hms. unfold _statistics_new, statistics.
  pose proof (loops_agree circuit shot_range bin_size (R_DTYPE s) (C_DTYPE s)
                (measurements circuit) Hms [] [] None s Hv eq_refl) as H.
  unfold bindM at 1. revert H.
  match goal with
  | |- context [forM ?b ?l ([], None) s] =>
      destruct (forM b l ([], None) s) as [[fin|e1] s1]
  end;
  match goal with
  | |- context [forM ?b ?l [] s] => destruct (forM b l [] s) as [[r|e2] s2]
  end; intros H; try contradiction.
  - destruct H as (rs & -> & Hfin & ->). cbn [fst snd app] in *.
    unfold ret. rewrite Hfin. reflexivity.
  - destruct H as [-> ->]. reflexivity.
Qed.

End Paths.

Lemma statistics_paths_agree_witness :
  _statistics_new (Kernel0 := fixed_kernel) three_measurements None None two_qubit_analytic
  = (match fst (statistics (Kernel0 := fixed_kernel) three_measurements None None
                           two_qubit_analytic) with
     | Ok results =>
         Ok (zip_with (new_path_cast float64 complex128)
                      (measurements three_measurements) results)
     | Err e => Err e
     end,
     snd (statistics (Kernel0 := fixed_kernel) three_measurements None None
                     two_qubit_analytic)).
Proof.
  apply (statistics_paths_agree (Kernel0 := fixed_kernel) three_measurements None None
           two_qubit_analytic).
  - reflexivity.
  - repeat constructor.
Defined.
